(** * Clutter actor core: a shallow embedding of clutter-actor.c

    The development follows the C file function by function.  Objects
    live in a store indexed by their address, so that parent links are
    pointers as in the source and a function that follows them carries
    fuel.  Calls into the rendering backend (cogl), into GObject
    (notifications, signals, diagnostics) and into the main loop are
    recorded in the order in which the C code issues them. *)

From stdpp Require Import gmap strings list.
From Stdlib Require Import ZArith Lia.

Local Open Scope Z_scope.

(** ** Machine integers *)

(** [gint], [gint32], [ClutterFixed] and [ClutterUnit] are 32-bit signed;
    arithmetic on them is kept in range by [wrap32]. *)
Definition wrap32 (v : Z) : Z := (v + 2 ^ 31) mod 2 ^ 32 - 2 ^ 31.
Definition add32 (a b : Z) : Z := wrap32 (a + b).
Definition sub32 (a b : Z) : Z := wrap32 (a - b).
Definition neg32 (a : Z) : Z := wrap32 (- a).
Definition in_int32 (v : Z) : Prop := - 2 ^ 31 <= v < 2 ^ 31.

(** [guint32] and [guint8] values. *)
Definition wrapu32 (v : Z) : Z := v mod 2 ^ 32.
Definition wrapu8 (v : Z) : Z := v mod 2 ^ 8.

(** ** Data model *)

Definition addr := positive.

Record ClutterActorBox := mkBox { x1 : Z; y1 : Z; x2 : Z; y2 : Z }.

Record ClutterGeometry := mkGeometry {
  geometry_x : Z; geometry_y : Z; geometry_width : Z; geometry_height : Z }.

Record ClutterVertex := mkVertex { vertex_x : Z; vertex_y : Z; vertex_z : Z }.

Record ClutterColor := mkColor { red : Z; green : Z; blue : Z; alpha : Z }.

Record ClutterActorPrivate := mkPrivate {
  coords : ClutterActorBox;
  clip : ClutterGeometry;
  has_clip : bool;
  rxang : Z; ryang : Z; rzang : Z;
  rzx : Z; rzy : Z; rxy : Z; rxz : Z; ryx : Z; ryz : Z;
  z : Z;
  opacity : Z;
  parent_actor : option addr;
  name : option string;
  scale_x : Z; scale_y : Z;
  id : Z;
  anchor_x : Z; anchor_y : Z }.

(** The public flags ([CLUTTER_ACTOR_MAPPED], [_REALIZED], [_REACTIVE]) and
    the private ones ([CLUTTER_ACTOR_IN_DESTRUCTION], [_IS_TOPLEVEL],
    [_IN_REPARENT]) are independent bits; each is one boolean here. *)
Record ClutterActor := mkActor {
  CLUTTER_ACTOR_MAPPED : bool;
  CLUTTER_ACTOR_REALIZED : bool;
  CLUTTER_ACTOR_REACTIVE : bool;
  CLUTTER_ACTOR_IN_DESTRUCTION : bool;
  CLUTTER_ACTOR_IS_TOPLEVEL : bool;
  CLUTTER_ACTOR_IN_REPARENT : bool;
  priv : ClutterActorPrivate }.

Definition CLUTTER_ACTOR_IS_MAPPED (e : ClutterActor) : bool := CLUTTER_ACTOR_MAPPED e.
Definition CLUTTER_ACTOR_IS_REALIZED (e : ClutterActor) : bool := CLUTTER_ACTOR_REALIZED e.
Definition CLUTTER_ACTOR_IS_REACTIVE (e : ClutterActor) : bool := CLUTTER_ACTOR_REACTIVE e.
Definition CLUTTER_ACTOR_IS_VISIBLE (e : ClutterActor) : bool :=
  CLUTTER_ACTOR_IS_MAPPED e && CLUTTER_ACTOR_IS_REALIZED e.

(** Field updates, one per group of fields the setters write. *)
Definition with_priv (f : ClutterActorPrivate -> ClutterActorPrivate) (a : ClutterActor)
  : ClutterActor :=
  mkActor (CLUTTER_ACTOR_MAPPED a) (CLUTTER_ACTOR_REALIZED a) (CLUTTER_ACTOR_REACTIVE a)
          (CLUTTER_ACTOR_IN_DESTRUCTION a) (CLUTTER_ACTOR_IS_TOPLEVEL a)
          (CLUTTER_ACTOR_IN_REPARENT a) (f (priv a)).

Definition with_realized (b : bool) (a : ClutterActor) : ClutterActor :=
  mkActor (CLUTTER_ACTOR_MAPPED a) b (CLUTTER_ACTOR_REACTIVE a)
          (CLUTTER_ACTOR_IN_DESTRUCTION a) (CLUTTER_ACTOR_IS_TOPLEVEL a)
          (CLUTTER_ACTOR_IN_REPARENT a) (priv a).

Definition with_coords (b : ClutterActorBox) (p : ClutterActorPrivate) :=
  mkPrivate b (clip p) (has_clip p) (rxang p) (ryang p) (rzang p)
            (rzx p) (rzy p) (rxy p) (rxz p) (ryx p) (ryz p) (z p) (opacity p)
            (parent_actor p) (name p) (scale_x p) (scale_y p) (id p)
            (anchor_x p) (anchor_y p).

Definition with_clip (g : ClutterGeometry) (hc : bool) (p : ClutterActorPrivate) :=
  mkPrivate (coords p) g hc (rxang p) (ryang p) (rzang p)
            (rzx p) (rzy p) (rxy p) (rxz p) (ryx p) (ryz p) (z p) (opacity p)
            (parent_actor p) (name p) (scale_x p) (scale_y p) (id p)
            (anchor_x p) (anchor_y p).

Definition with_rotation_x (ang y' z' : Z) (p : ClutterActorPrivate) :=
  mkPrivate (coords p) (clip p) (has_clip p) ang (ryang p) (rzang p)
            (rzx p) (rzy p) y' z' (ryx p) (ryz p) (z p) (opacity p)
            (parent_actor p) (name p) (scale_x p) (scale_y p) (id p)
            (anchor_x p) (anchor_y p).

Definition with_rotation_y (ang x' z' : Z) (p : ClutterActorPrivate) :=
  mkPrivate (coords p) (clip p) (has_clip p) (rxang p) ang (rzang p)
            (rzx p) (rzy p) (rxy p) (rxz p) x' z' (z p) (opacity p)
            (parent_actor p) (name p) (scale_x p) (scale_y p) (id p)
            (anchor_x p) (anchor_y p).

Definition with_rotation_z (ang x' y' : Z) (p : ClutterActorPrivate) :=
  mkPrivate (coords p) (clip p) (has_clip p) (rxang p) (ryang p) ang
            x' y' (rxy p) (rxz p) (ryx p) (ryz p) (z p) (opacity p)
            (parent_actor p) (name p) (scale_x p) (scale_y p) (id p)
            (anchor_x p) (anchor_y p).

Definition with_z (d : Z) (p : ClutterActorPrivate) :=
  mkPrivate (coords p) (clip p) (has_clip p) (rxang p) (ryang p) (rzang p)
            (rzx p) (rzy p) (rxy p) (rxz p) (ryx p) (ryz p) d (opacity p)
            (parent_actor p) (name p) (scale_x p) (scale_y p) (id p)
            (anchor_x p) (anchor_y p).

Definition with_opacity (o : Z) (p : ClutterActorPrivate) :=
  mkPrivate (coords p) (clip p) (has_clip p) (rxang p) (ryang p) (rzang p)
            (rzx p) (rzy p) (rxy p) (rxz p) (ryx p) (ryz p) (z p) o
            (parent_actor p) (name p) (scale_x p) (scale_y p) (id p)
            (anchor_x p) (anchor_y p).

Definition with_parent_actor (q : option addr) (p : ClutterActorPrivate) :=
  mkPrivate (coords p) (clip p) (has_clip p) (rxang p) (ryang p) (rzang p)
            (rzx p) (rzy p) (rxy p) (rxz p) (ryx p) (ryz p) (z p) (opacity p)
            q (name p) (scale_x p) (scale_y p) (id p)
            (anchor_x p) (anchor_y p).

Definition with_scale_x (s : Z) (p : ClutterActorPrivate) :=
  mkPrivate (coords p) (clip p) (has_clip p) (rxang p) (ryang p) (rzang p)
            (rzx p) (rzy p) (rxy p) (rxz p) (ryx p) (ryz p) (z p) (opacity p)
            (parent_actor p) (name p) s (scale_y p) (id p)
            (anchor_x p) (anchor_y p).

Definition with_scale_y (s : Z) (p : ClutterActorPrivate) :=
  mkPrivate (coords p) (clip p) (has_clip p) (rxang p) (ryang p) (rzang p)
            (rzx p) (rzy p) (rxy p) (rxz p) (ryx p) (ryz p) (z p) (opacity p)
            (parent_actor p) (name p) (scale_x p) s (id p)
            (anchor_x p) (anchor_y p).

Definition with_anchor_x (v : Z) (p : ClutterActorPrivate) :=
  mkPrivate (coords p) (clip p) (has_clip p) (rxang p) (ryang p) (rzang p)
            (rzx p) (rzy p) (rxy p) (rxz p) (ryx p) (ryz p) (z p) (opacity p)
            (parent_actor p) (name p) (scale_x p) (scale_y p) (id p)
            v (anchor_y p).

Definition with_anchor_y (v : Z) (p : ClutterActorPrivate) :=
  mkPrivate (coords p) (clip p) (has_clip p) (rxang p) (ryang p) (rzang p)
            (rzx p) (rzy p) (rxy p) (rxz p) (ryx p) (ryz p) (z p) (opacity p)
            (parent_actor p) (name p) (scale_x p) (scale_y p) (id p)
            (anchor_x p) v.

(** ** The rendering backend

    The backend is driven through calls; its state is the sequence of
    calls issued so far, oldest first. *)
Inductive CoglCall :=
| cogl_push_matrix
| cogl_pop_matrix
| cogl_translate (tx ty tz : Z)
| cogl_scale (sx sy : Z)
| cogl_rotatex (angle ax ay az : Z)
| cogl_clip_set (g : ClutterGeometry)
| cogl_clip_unset
| cogl_color (c : ClutterColor)
| cogl_rectangle (rx ry rw rh : Z).

Definition Cogl := list CoglCall.

Definition issue (c : CoglCall) (gl : Cogl) : Cogl := gl ++ [c].

(** [if (c) stmt] for a statement acting on the backend. *)
Definition when (c : bool) (stmt : Cogl -> Cogl) (gl : Cogl) : Cogl :=
  if c then stmt gl else gl.

(** C truth value of an integer. *)
Definition nonzero (v : Z) : bool := negb (v =? 0).

Definition clutter_actor_get_parent (self : ClutterActor) : option addr :=
  parent_actor (priv self).

Definition clutter_actor_get_gid (self : ClutterActor) : Z := id (priv self).

Section Transform.

(** The fixed-point and unit macros come from clutter-fixed.h and
    clutter-units.h, which are not part of the sources at hand. *)
Variable CFX_ONE : Z.
Variable CLUTTER_UNITS_TO_INT : Z -> Z.

Definition _clutter_actor_apply_modelview_transform (self : ClutterActor) (gl : Cogl)
  : Cogl :=
  let priv := priv self in
  let parent := clutter_actor_get_parent self in
  let gl :=
    when (bool_decide (parent ≠ None))
      (issue (cogl_translate (CLUTTER_UNITS_TO_INT (x1 (coords priv)))
                             (CLUTTER_UNITS_TO_INT (y1 (coords priv)))
                             0)) gl in
  let gl :=
    when (negb (scale_x priv =? CFX_ONE) || negb (scale_y priv =? CFX_ONE))
      (issue (cogl_scale (scale_x priv) (scale_y priv))) gl in
  let gl :=
    when (bool_decide (parent ≠ None) && (nonzero (anchor_x priv) || nonzero (anchor_y priv)))
      (issue (cogl_translate (CLUTTER_UNITS_TO_INT (neg32 (anchor_x priv)))
                             (CLUTTER_UNITS_TO_INT (neg32 (anchor_y priv)))
                             0)) gl in
  let gl :=
    when (nonzero (rzang priv))
      (fun gl =>
         let gl := issue (cogl_translate (rzx priv) (rzy priv) 0) gl in
         let gl := issue (cogl_rotatex (rzang priv) 0 0 CFX_ONE) gl in
         issue (cogl_translate (neg32 (rzx priv)) (neg32 (rzy priv)) 0) gl) gl in
  let gl :=
    when (nonzero (ryang priv))
      (fun gl =>
         let gl := issue (cogl_translate (ryx priv) 0 (add32 (z priv) (ryz priv))) gl in
         let gl := issue (cogl_rotatex (ryang priv) 0 CFX_ONE 0) gl in
         issue (cogl_translate (neg32 (ryx priv)) 0 (neg32 (add32 (z priv) (ryz priv)))) gl)
      gl in
  let gl :=
    when (nonzero (rxang priv))
      (fun gl =>
         let gl := issue (cogl_translate 0 (rxy priv) (add32 (z priv) (rxz priv))) gl in
         let gl := issue (cogl_rotatex (rxang priv) CFX_ONE 0 0) gl in
         issue (cogl_translate 0 (neg32 (rxy priv)) (neg32 (add32 (z priv) (rxz priv)))) gl)
      gl in
  let gl := when (nonzero (z priv)) (issue (cogl_translate 0 0 (z priv))) gl in
  when (has_clip priv) (issue (cogl_clip_set (clip priv))) gl.

(** The recursion follows [parent_actor] through the store; it stops with
    [None] when the fuel runs out or a pointer dangles. *)
Fixpoint _clutter_actor_apply_modelview_transform_recursive
    (fuel : nat) (h : gmap addr ClutterActor) (self : addr) (gl : Cogl) : option Cogl :=
  match fuel with
  | O => None
  | S fuel' =>
      a ← h !! self;
      gl ← match clutter_actor_get_parent a with
           | Some parent =>
               _clutter_actor_apply_modelview_transform_recursive fuel' h parent gl
           | None => Some gl
           end;
      Some (_clutter_actor_apply_modelview_transform a gl)
  end.

End Transform.

(** ** Matrix and vertex utilities *)

Global Instance ClutterVertex_inhabited : Inhabited ClutterVertex :=
  populate (mkVertex 0 0 0).

Section Vertices.

Variable CFX_ONE : Z.
Variable CLUTTER_UNITS_TO_INT : Z -> Z.
(** [CFX_QMUL], [CFX_MUL] and [CFX_DIV] are the fixed-point multiplication
    (precise and fast) and division of clutter-fixed.h.  [CFX_DIV x w] is
    the quotient for a divisor that is not zero; the division by zero
    itself is in [MTX_GL_SCALE_X] and [MTX_GL_SCALE_Y] below. *)
Variable CFX_QMUL : Z -> Z -> Z.
Variable CFX_MUL : Z -> Z -> Z.
Variable CFX_DIV : Z -> Z -> Z.
(** What the backend answers when asked for its matrices and viewport,
    given the calls it has received. *)
Variable cogl_get_modelview_matrix : Cogl -> list Z.
Variable cogl_get_projection_matrix : Cogl -> list Z.
Variable cogl_get_viewport : Cogl -> list Z.

(** [#define M(m,row,col) (m)[col*4+row]] *)
Definition M (m : list Z) (row col : nat) : Z := nth (col * 4 + row) m 0.

Definition mtx_transform (m : list Z) (p : Z * Z * Z * Z) : Z * Z * Z * Z :=
  let '(_x, _y, _z, _w) := p in
  (add32 (add32 (add32 (CFX_QMUL (M m 0 0) _x) (CFX_QMUL (M m 0 1) _y))
                (CFX_QMUL (M m 0 2) _z)) (CFX_QMUL (M m 0 3) _w),
   add32 (add32 (add32 (CFX_QMUL (M m 1 0) _x) (CFX_QMUL (M m 1 1) _y))
                (CFX_QMUL (M m 1 2) _z)) (CFX_QMUL (M m 1 3) _w),
   add32 (add32 (add32 (CFX_QMUL (M m 2 0) _x) (CFX_QMUL (M m 2 1) _y))
                (CFX_QMUL (M m 2 2) _z)) (CFX_QMUL (M m 2 3) _w),
   add32 (add32 (add32 (CFX_QMUL (M m 3 0) _x) (CFX_QMUL (M m 3 1) _y))
                (CFX_QMUL (M m 3 2) _z)) (CFX_QMUL (M m 3 3) _w)).

(** [CFX_DIV (x,w)] divides by [w]: with [w] zero the integer division
    kills the process (SIGFPE) and the macro has no value, which is [None]
    here, as for every call that does not come back. *)
Definition MTX_GL_SCALE_X (x w v1 v2 : Z) : option Z :=
  if w =? 0 then None
  else Some (add32 (CFX_MUL (Z.shiftr (add32 (CFX_DIV x w) CFX_ONE) 1) v1) v2).

Definition MTX_GL_SCALE_Y (y w v1 v2 : Z) : option Z :=
  if w =? 0 then None
  else Some (add32 (sub32 v1 (CFX_MUL (Z.shiftr (add32 (CFX_DIV y w) CFX_ONE) 1) v1)) v2).

Definition MTX_GL_SCALE_Z (z w v1 v2 : Z) : option Z := MTX_GL_SCALE_X z w v1 v2.

(** [verts] and [w] are the caller's arrays; entries are written by index. *)
Definition clutter_actor_transform_vertices
    (fuel : nat) (h : gmap addr ClutterActor) (self : addr)
    (verts : list ClutterVertex) (w : list Z) (gl : Cogl)
  : option (list ClutterVertex * list Z * Cogl) :=
  a ← h !! self;
  let priv := priv a in
  let gl := issue cogl_push_matrix gl in
  gl ← _clutter_actor_apply_modelview_transform_recursive
          CFX_ONE CLUTTER_UNITS_TO_INT fuel h self gl;
  let mtx := cogl_get_modelview_matrix gl in
  let '(_x, _y, _z, _w) := mtx_transform mtx (0, 0, 0, CFX_ONE) in
  let verts := <[0%nat := mkVertex _x _y _z]> verts in
  let w := <[0%nat := _w]> w in
  let '(_x, _y, _z, _w) :=
    mtx_transform mtx (sub32 (x2 (coords priv)) (x1 (coords priv)), 0, 0, CFX_ONE) in
  let verts := <[1%nat := mkVertex _x _y _z]> verts in
  let w := <[1%nat := _w]> w in
  let '(_x, _y, _z, _w) :=
    mtx_transform mtx (0, sub32 (y2 (coords priv)) (y1 (coords priv)), 0, CFX_ONE) in
  let verts := <[2%nat := mkVertex _x _y _z]> verts in
  let w := <[2%nat := _w]> w in
  let '(_x, _y, _z, _w) :=
    mtx_transform mtx (sub32 (x2 (coords priv)) (x1 (coords priv)),
                       sub32 (y2 (coords priv)) (y1 (coords priv)), 0, CFX_ONE) in
  let verts := <[3%nat := mkVertex _x _y _z]> verts in
  let w := <[3%nat := _w]> w in
  Some (verts, w, issue cogl_pop_matrix gl).

(** One corner of [clutter_actor_get_vertices]: project [verts[i]] and
    [w[i]] in place, then rescale the three coordinates in place, each
    with a division by [w[i]]. *)
Definition project_vertex (mtx_p v : list Z) (i : nat)
    (verts : list ClutterVertex) (w : list Z) : option (list ClutterVertex * list Z) :=
  let '(px, py, pz, pw) :=
    mtx_transform mtx_p (vertex_x (verts !!! i), vertex_y (verts !!! i),
                         vertex_z (verts !!! i), w !!! i) in
  let verts := <[i := mkVertex px py pz]> verts in
  let w := <[i := pw]> w in
  sx ← MTX_GL_SCALE_X (vertex_x (verts !!! i)) (w !!! i) (v !!! 2%nat) (v !!! 0%nat);
  let verts := <[i := mkVertex sx (vertex_y (verts !!! i)) (vertex_z (verts !!! i))]> verts in
  sy ← MTX_GL_SCALE_Y (vertex_y (verts !!! i)) (w !!! i) (v !!! 3%nat) (v !!! 1%nat);
  let verts := <[i := mkVertex (vertex_x (verts !!! i)) sy (vertex_z (verts !!! i))]> verts in
  sz ← MTX_GL_SCALE_Z (vertex_z (verts !!! i)) (w !!! i) (v !!! 2%nat) (v !!! 0%nat);
  let verts := <[i := mkVertex (vertex_x (verts !!! i)) (vertex_y (verts !!! i)) sz]> verts in
  Some (verts, w).

(** No result ([None]) when the actor is missing, when the chain of
    parents does not end, or when one of the twelve rescales divides by a
    projected [w] of zero. *)
Definition clutter_actor_get_vertices
    (fuel : nat) (h : gmap addr ClutterActor) (self : addr)
    (verts : list ClutterVertex) (gl : Cogl) : option (list ClutterVertex * Cogl) :=
  let w := replicate 4 0 in
  '(verts, w, gl) ← clutter_actor_transform_vertices fuel h self verts w gl;
  let mtx_p := cogl_get_projection_matrix gl in
  let v := cogl_get_viewport gl in
  '(verts, w) ← project_vertex mtx_p v 0 verts w;
  '(verts, w) ← project_vertex mtx_p v 1 verts w;
  '(verts, w) ← project_vertex mtx_p v 2 verts w;
  '(verts, w) ← project_vertex mtx_p v 3 verts w;
  Some (verts, gl).

End Vertices.

(** ** Opacity *)

(** The result is a [guint8]; the product is computed in [int]. *)
Fixpoint clutter_actor_get_opacity
    (fuel : nat) (h : gmap addr ClutterActor) (self : addr) : option Z :=
  match fuel with
  | O => None
  | S fuel' =>
      a ← h !! self;
      match parent_actor (priv a) with
      | Some parent =>
          po ← clutter_actor_get_opacity fuel' h parent;
          if negb (po =? 255) then
            po' ← clutter_actor_get_opacity fuel' h parent;
            Some (wrapu8 (wrap32 (po' * opacity (priv a)) ÷ 255))
          else Some (opacity (priv a))
      | None => Some (opacity (priv a))
      end
  end.

(** ** GObject, the main context and the main loop *)

Inductive ActorSignal :=
| SHOW | HIDE | DESTROY | PARENT_SET | FOCUS_IN | FOCUS_OUT
| EVENT | CAPTURED_EVENT
| BUTTON_PRESS_EVENT | BUTTON_RELEASE_EVENT | SCROLL_EVENT
| KEY_PRESS_EVENT | KEY_RELEASE_EVENT
| MOTION_EVENT | ENTER_EVENT | LEAVE_EVENT.

Global Instance ActorSignal_eq_dec : EqDecision ActorSignal.
Proof. solve_decision. Defined.

(** What reaches GObject, GLib's log and the container of an actor. *)
Inductive Effect :=
| g_object_notify (obj : addr) (property : string)
| g_signal_emit (obj : addr) (signal : ActorSignal)
| g_warning (message : string)
| g_return_if_fail_warning (expr : string)
| clutter_container_sort_depth_order (container : addr).

Inductive ClutterPickMode :=
| CLUTTER_PICK_NONE | CLUTTER_PICK_REACTIVE | CLUTTER_PICK_ALL.

Global Instance ClutterPickMode_eq_dec : EqDecision ClutterPickMode.
Proof. solve_decision. Defined.

(** [update_idle] is the [guint] source id of the pending repaint, 0 when
    none is pending; [actor_hash] maps identifiers to actors. *)
Record ClutterMainContext := mkContext {
  pick_mode : ClutterPickMode;
  update_idle : Z;
  actor_hash : gmap Z addr }.

(** Modelled from the spec: the main loop is the scheduler collaborator of
    section 6, which registers an idle callback under a fresh non-zero
    source id and drops it once it has fired or has been removed.
    [idle_sources] holds the ids of the repaint callbacks still attached. *)
Record GMainContext := mkMainLoop {
  next_source_id : positive;
  idle_sources : list positive }.

Record World := mkWorld {
  heap : gmap addr ClutterActor;
  context : ClutterMainContext;
  main_loop : GMainContext;
  effects : list Effect;
  cogl : Cogl }.

Definition with_heap (h : gmap addr ClutterActor) (w : World) : World :=
  mkWorld h (context w) (main_loop w) (effects w) (cogl w).
Definition with_context (c : ClutterMainContext) (w : World) : World :=
  mkWorld (heap w) c (main_loop w) (effects w) (cogl w).
Definition with_main_loop (m : GMainContext) (w : World) : World :=
  mkWorld (heap w) (context w) m (effects w) (cogl w).
Definition with_cogl (gl : Cogl) (w : World) : World :=
  mkWorld (heap w) (context w) (main_loop w) (effects w) gl.
Definition emit (e : Effect) (w : World) : World :=
  mkWorld (heap w) (context w) (main_loop w) (effects w ++ [e]) (cogl w).

Definition store (self : addr) (a : ClutterActor) (w : World) : World :=
  with_heap (<[self := a]> (heap w)) w.

Definition with_update_idle (v : Z) (c : ClutterMainContext) : ClutterMainContext :=
  mkContext (pick_mode c) v (actor_hash c).
Definition with_actor_hash (t : gmap Z addr) (c : ClutterMainContext) : ClutterMainContext :=
  mkContext (pick_mode c) (update_idle c) t.

(** Modelled from the spec: registering an idle callback returns a fresh
    source id, which is never 0, and attaches the source. *)
Definition clutter_threads_add_idle_full (m : GMainContext) : Z * GMainContext :=
  (Z.pos (next_source_id m),
   mkMainLoop (Pos.succ (next_source_id m)) (idle_sources m ++ [next_source_id m])).

(** Modelled from the spec: removing a source detaches it. *)
Definition g_source_remove (tag : Z) (m : GMainContext) : GMainContext :=
  mkMainLoop (next_source_id m)
             (filter (fun s => Z.pos s ≠ tag) (idle_sources m)).

Definition clutter_actor_queue_redraw (self : addr) (w : World) : World :=
  let ctx := context w in
  if update_idle ctx =? 0 then
    let '(tag, m) := clutter_threads_add_idle_full (main_loop w) in
    with_context (with_update_idle tag ctx) (with_main_loop m w)
  else w.

Section Redraw.

(** [clutter_redraw] paints the stage; it lives in clutter-main.c. *)
Variable clutter_redraw : World -> World.

(** The callback returns [FALSE]: the source is not to be called again. *)
Definition redraw_update_idle (w : World) : bool * World :=
  let ctx := context w in
  let w :=
    if negb (update_idle ctx =? 0) then
      let w := with_main_loop (g_source_remove (update_idle ctx) (main_loop w)) w in
      with_context (with_update_idle 0 ctx) w
    else w in
  let w := clutter_redraw w in
  (false, w).

(** Modelled from the spec: the main loop runs an attached idle callback
    and detaches the source when the callback returns [FALSE]
    (register-once, auto-clear-on-fire). *)
Definition g_main_dispatch_idle (tag : positive) (w : World) : World :=
  let '(again, w) := redraw_update_idle w in
  if again then w
  else with_main_loop (g_source_remove (Z.pos tag) (main_loop w)) w.

End Redraw.

(** Any number of redraw requests, one after the other. *)
Definition queue_redraws (actors : list addr) (w : World) : World :=
  foldl (fun w a => clutter_actor_queue_redraw a w) w actors.

(** The states the scheduler can reach from [w0]: actors ask for redraws,
    and the main loop fires an attached repaint callback, during which
    painting may again ask for redraws. *)
Inductive reachable (w0 : World) : World -> Prop :=
| reachable_start : reachable w0 w0
| reachable_queue w self :
    reachable w0 w -> reachable w0 (clutter_actor_queue_redraw self w)
| reachable_fire w tag during :
    reachable w0 w -> tag ∈ idle_sources (main_loop w) ->
    reachable w0 (g_main_dispatch_idle (queue_redraws during) tag w).

(** ** Realization *)

(** The base class installs no [realize] virtual function. *)
Definition clutter_actor_realize (self : addr) (w : World) : World :=
  match heap w !! self with
  | None => w
  | Some a =>
      if CLUTTER_ACTOR_IS_REALIZED a then w
      else store self (with_realized true a) w
  end.

(** ** Geometry *)

(** [klass->request_coords] of the base class *)
Definition clutter_actor_real_request_coords (self : addr) (box : ClutterActorBox)
    (w : World) : World :=
  match heap w !! self with
  | None => w
  | Some a => store self (with_priv (with_coords box) a) w
  end.

Definition notify_if (c : bool) (self : addr) (property : string) (w : World) : World :=
  if c then emit (g_object_notify self property) w else w.

Definition clutter_actor_request_coords (self : addr) (box : ClutterActorBox)
    (w : World) : World :=
  match heap w !! self with
  | None => emit (g_return_if_fail_warning "CLUTTER_IS_ACTOR (self)") w
  | Some a =>
      let priv := priv a in
      let x_change := negb (x1 (coords priv) =? x1 box) in
      let y_change := negb (y1 (coords priv) =? y1 box) in
      let width_change :=
        negb (sub32 (x2 (coords priv)) (x1 (coords priv)) =? sub32 (x2 box) (x1 box)) in
      let height_change :=
        negb (sub32 (y2 (coords priv)) (y1 (coords priv)) =? sub32 (y2 box) (y1 box)) in
      if x_change || y_change || width_change || height_change then
        let w := clutter_actor_real_request_coords self box w in
        let w := if CLUTTER_ACTOR_IS_VISIBLE a then clutter_actor_queue_redraw self w
                 else w in
        let w := notify_if x_change self "x" w in
        let w := notify_if y_change self "y" w in
        let w := notify_if width_change self "width" w in
        notify_if height_change self "height" w
      else w
  end.

(** The base class installs no [query_coords] virtual function, so the
    stored box is returned as it is. *)
Definition clutter_actor_query_coords (a : ClutterActor) : ClutterActorBox :=
  mkBox (x1 (coords (priv a))) (y1 (coords (priv a)))
        (x2 (coords (priv a))) (y2 (coords (priv a))).

Section Setters.

Variable CLUTTER_UNITS_FROM_INT : Z -> Z.
Variable CLUTTER_UNITS_FROM_DEVICE : Z -> Z.

Definition clutter_actor_set_geometry (self : addr) (geometry : ClutterGeometry)
    (w : World) : World :=
  let box :=
    mkBox (CLUTTER_UNITS_FROM_INT (geometry_x geometry))
          (CLUTTER_UNITS_FROM_INT (geometry_y geometry))
          (CLUTTER_UNITS_FROM_INT (add32 (geometry_x geometry) (geometry_width geometry)))
          (CLUTTER_UNITS_FROM_INT (add32 (geometry_y geometry) (geometry_height geometry))) in
  clutter_actor_request_coords self box w.

Definition clutter_actor_set_position (self : addr) (x y : Z) (w : World) : World :=
  match heap w !! self with
  | None => emit (g_return_if_fail_warning "CLUTTER_IS_ACTOR (self)") w
  | Some a =>
      let box := clutter_actor_query_coords a in
      let bx2 := add32 (x2 box) (sub32 (CLUTTER_UNITS_FROM_INT x) (x1 box)) in
      let by2 := add32 (y2 box) (sub32 (CLUTTER_UNITS_FROM_INT y) (y1 box)) in
      let box := mkBox (CLUTTER_UNITS_FROM_INT x) (CLUTTER_UNITS_FROM_INT y) bx2 by2 in
      clutter_actor_request_coords self box w
  end.

Definition clutter_actor_set_size_internal (self : addr) (width height : Z)
    (w : World) : World :=
  match heap w !! self with
  | None =>
      emit (g_return_if_fail_warning "CLUTTER_IS_ACTOR (self)")
           (emit (g_return_if_fail_warning "CLUTTER_IS_ACTOR (self)") w)
  | Some a =>
      let box := clutter_actor_query_coords a in
      let bx2 := if 0 <? width then add32 (x1 box) (CLUTTER_UNITS_FROM_INT width)
                 else x2 box in
      let by2 := if 0 <? height then add32 (y1 box) (CLUTTER_UNITS_FROM_INT height)
                 else y2 box in
      clutter_actor_request_coords self (mkBox (x1 box) (y1 box) bx2 by2) w
  end.

Definition clutter_actor_set_size (self : addr) (width height : Z) (w : World) : World :=
  match heap w !! self with
  | None => emit (g_return_if_fail_warning "CLUTTER_IS_ACTOR (self)") w
  | Some _ => clutter_actor_set_size_internal self width height w
  end.

(** ** Scale, opacity, depth, rotation, clip *)

Definition clutter_actor_set_scalex (self : addr) (scale_x scale_y : Z) (w : World)
  : World :=
  match heap w !! self with
  | None => emit (g_return_if_fail_warning "CLUTTER_IS_ACTOR (self)") w
  | Some a =>
      let a := with_priv (with_scale_x scale_x) a in
      let w := emit (g_object_notify self "scale-x") (store self a w) in
      let a := with_priv (with_scale_y scale_y) a in
      let w := emit (g_object_notify self "scale-y") (store self a w) in
      if CLUTTER_ACTOR_IS_VISIBLE a then clutter_actor_queue_redraw self w else w
  end.

(** [opacity] is a [guint8] parameter: the caller's value arrives reduced
    to eight bits. *)
Definition clutter_actor_set_opacity (self : addr) (opacity : Z) (w : World) : World :=
  let opacity := wrapu8 opacity in
  match heap w !! self with
  | None => emit (g_return_if_fail_warning "CLUTTER_IS_ACTOR (self)") w
  | Some a =>
      let a := with_priv (with_opacity opacity) a in
      let w := store self a w in
      if CLUTTER_ACTOR_IS_VISIBLE a then clutter_actor_queue_redraw self w else w
  end.

Section Depth.

(** Whether an object implements the container interface. *)
Variable CLUTTER_IS_CONTAINER : addr -> bool.

Definition clutter_actor_set_depth (self : addr) (depth : Z) (w : World) : World :=
  match heap w !! self with
  | None => emit (g_return_if_fail_warning "CLUTTER_IS_ACTOR (self)") w
  | Some a =>
      if negb (z (priv a) =? depth) then
        let a := with_priv (with_z depth) a in
        let w := store self a w in
        let w :=
          match parent_actor (priv a) with
          | Some parent =>
              if CLUTTER_IS_CONTAINER parent
              then emit (clutter_container_sort_depth_order parent) w
              else w
          | None => w
          end in
        let w := if CLUTTER_ACTOR_IS_VISIBLE a then clutter_actor_queue_redraw self w
                 else w in
        emit (g_object_notify self "depth") w
      else w
  end.

End Depth.

Inductive ClutterRotateAxis := CLUTTER_X_AXIS | CLUTTER_Y_AXIS | CLUTTER_Z_AXIS.

Definition clutter_actor_set_rotationx (self : addr) (axis : ClutterRotateAxis)
    (angle x y z : Z) (w : World) : World :=
  match heap w !! self with
  | None => emit (g_return_if_fail_warning "CLUTTER_IS_ACTOR (self)") w
  | Some a =>
      let a :=
        match axis with
        | CLUTTER_X_AXIS => with_priv (with_rotation_x angle y z) a
        | CLUTTER_Y_AXIS => with_priv (with_rotation_y angle x z) a
        | CLUTTER_Z_AXIS => with_priv (with_rotation_z angle x y) a
        end in
      let w := store self a w in
      if CLUTTER_ACTOR_IS_VISIBLE a then clutter_actor_queue_redraw self w else w
  end.

Definition clutter_actor_set_clip (self : addr) (xoff yoff width height : Z) (w : World)
  : World :=
  match heap w !! self with
  | None => emit (g_return_if_fail_warning "CLUTTER_IS_ACTOR (self)") w
  | Some a =>
      let a := with_priv (with_clip (mkGeometry xoff yoff width height) true) a in
      let w := store self a w in
      let w := emit (g_object_notify self "has-clip") w in
      emit (g_object_notify self "clip") w
  end.

(** ** Anchor point *)

Definition clutter_actor_set_anchor_point (self : addr) (anchor_x anchor_y : Z)
    (w : World) : World :=
  match heap w !! self with
  | None => emit (g_return_if_fail_warning "CLUTTER_IS_ACTOR (self)") w
  | Some a =>
      let a := with_priv (with_anchor_x (CLUTTER_UNITS_FROM_DEVICE anchor_x)) a in
      let a := with_priv (with_anchor_y (CLUTTER_UNITS_FROM_DEVICE anchor_y)) a in
      store self a w
  end.

Definition clutter_actor_set_anchor_pointu (self : addr) (anchor_x anchor_y : Z)
    (w : World) : World :=
  match heap w !! self with
  | None => emit (g_return_if_fail_warning "CLUTTER_IS_ACTOR (self)") w
  | Some a =>
      let a := with_priv (with_anchor_x anchor_x) a in
      let a := with_priv (with_anchor_y anchor_y) a in
      store self a w
  end.

End Setters.

(** ** Parent link *)

(** Handlers connected to [parent-set] are outside this file; the emission
    itself is recorded.  Reference counts are not tracked. *)
Definition clutter_actor_set_parent (self parent : addr) (w : World) : World :=
  let clutter_context := context w in
  match heap w !! self with
  | None => emit (g_return_if_fail_warning "CLUTTER_IS_ACTOR (self)") w
  | Some a =>
      match heap w !! parent with
      | None => emit (g_return_if_fail_warning "CLUTTER_IS_ACTOR (parent)") w
      | Some _ =>
          if bool_decide (self = parent) then
            emit (g_return_if_fail_warning "self != parent") w
          else if bool_decide (parent_actor (priv a) ≠ None) then
            emit (g_warning "Cannot set a parent on an actor which has a parent.\nYou must use clutter_actor_unparent() first.\n") w
          else if CLUTTER_ACTOR_IS_TOPLEVEL a then
            emit (g_warning "Cannot set a parent on a toplevel actor\n") w
          else
            let w :=
              with_context
                (with_actor_hash (<[clutter_actor_get_gid a := self]>
                                    (actor_hash clutter_context)) clutter_context) w in
            let w := store self (with_priv (with_parent_actor (Some parent)) a) w in
            let w := emit (g_signal_emit self PARENT_SET) w in
            let w :=
              match heap w !! parent with
              | Some p => if CLUTTER_ACTOR_IS_REALIZED p then clutter_actor_realize self w
                          else w
              | None => w
              end in
            match heap w !! parent, heap w !! self with
            | Some p, Some a =>
                if CLUTTER_ACTOR_IS_VISIBLE p && CLUTTER_ACTOR_IS_VISIBLE a
                then clutter_actor_queue_redraw self w
                else w
            | _, _ => w
            end
      end
  end.

(** ** Painting and picking *)

(** The block of [clutter_actor_paint] that encodes the actor id into a
    colour, taking into account the bits per channel.  [id] is a
    [guint32], [r], [g] and [b] are [gint], the channels are [guint8]. *)
Definition encode_pick_color (r g b id : Z) : ClutterColor :=
  mkColor
    (wrapu8 (wrapu32 (Z.shiftl (Z.land (Z.shiftr id (add32 g b))
                                       (wrapu32 (Z.shiftr 255 (sub32 8 r))))
                               (sub32 8 r))))
    (wrapu8 (wrapu32 (Z.shiftl (Z.land (Z.shiftr id b)
                                       (wrapu32 (Z.shiftr 255 (sub32 8 g))))
                               (sub32 8 g))))
    (wrapu8 (wrapu32 (Z.shiftl (Z.land id (wrapu32 (Z.shiftr 255 (sub32 8 b))))
                               (sub32 8 b))))
    255.

(** Modelled from the spec: the decoder belongs to the collaborator that
    reads a rendered pixel back (section 4.7); it inverts the encoding
    under the same channel depths, taking each channel's most significant
    bits back down and putting the three fields side by side. *)
Definition decode_pick_color (r g b : Z) (col : ClutterColor) : Z :=
  Z.lor (Z.lor (Z.shiftl (Z.shiftr (red col) (8 - r)) (g + b))
               (Z.shiftl (Z.shiftr (green col) (8 - g)) b))
        (Z.shiftr (blue col) (8 - b)).

Definition clutter_actor_should_pick_paint (ctx : ClutterMainContext) (self : ClutterActor)
  : bool :=
  CLUTTER_ACTOR_IS_MAPPED self
  && (bool_decide (pick_mode ctx = CLUTTER_PICK_ALL) || CLUTTER_ACTOR_IS_REACTIVE self).

Section Paint.

Variable CFX_ONE : Z.
Variable CLUTTER_UNITS_TO_INT : Z -> Z.
(** The bits per colour channel of the backend. *)
Variable cogl_get_bitmasks : Cogl -> Z * Z * Z.

Definition clutter_actor_get_width (self : ClutterActor) : Z :=
  let box := clutter_actor_query_coords self in
  wrapu32 (CLUTTER_UNITS_TO_INT (sub32 (x2 box) (x1 box))).

Definition clutter_actor_get_height (self : ClutterActor) : Z :=
  let box := clutter_actor_query_coords self in
  wrapu32 (CLUTTER_UNITS_TO_INT (sub32 (y2 box) (y1 box))).

Definition clutter_actor_real_pick (ctx : ClutterMainContext) (self : ClutterActor)
    (color : ClutterColor) (gl : Cogl) : Cogl :=
  if clutter_actor_should_pick_paint ctx self then
    let gl := issue (cogl_color color) gl in
    issue (cogl_rectangle 0 0 (clutter_actor_get_width self) (clutter_actor_get_height self))
          gl
  else gl.

(** [klass->pick] of the base class *)
Definition clutter_actor_pick := clutter_actor_real_pick.

(** The base class installs no [paint] virtual function. *)
Definition clutter_actor_paint (self : addr) (w : World) : World :=
  match heap w !! self with
  | None => emit (g_return_if_fail_warning "CLUTTER_IS_ACTOR (self)") w
  | Some a =>
      let w := if negb (CLUTTER_ACTOR_IS_REALIZED a) then clutter_actor_realize self w
               else w in
      match heap w !! self with
      | None => w
      | Some a =>
          if negb (CLUTTER_ACTOR_IS_REALIZED a) then w
          else
            let context := context w in
            let gl := issue cogl_push_matrix (cogl w) in
            let gl := _clutter_actor_apply_modelview_transform
                        CFX_ONE CLUTTER_UNITS_TO_INT a gl in
            let gl :=
              if bool_decide (pick_mode context ≠ CLUTTER_PICK_NONE) then
                let '(r, g, b) := cogl_get_bitmasks gl in
                let id := clutter_actor_get_gid a in
                let col := encode_pick_color r g b id in
                clutter_actor_pick context a col gl
              else gl in
            let gl := when (has_clip (priv a)) (issue cogl_clip_unset) gl in
            with_cogl (issue cogl_pop_matrix gl) w
      end
  end.

End Paint.

(** ** Event handling *)

Inductive ClutterEventType :=
| CLUTTER_NOTHING
| CLUTTER_KEY_PRESS | CLUTTER_KEY_RELEASE
| CLUTTER_MOTION | CLUTTER_ENTER | CLUTTER_LEAVE
| CLUTTER_BUTTON_PRESS | CLUTTER_BUTTON_RELEASE | CLUTTER_SCROLL
| CLUTTER_STAGE_STATE
| CLUTTER_DESTROY_NOTIFY | CLUTTER_CLIENT_MESSAGE | CLUTTER_DELETE.

Record ClutterEvent := mkEvent { event_type : ClutterEventType }.

Section Events.

(** Signal handlers are supplied by the application: running the handlers
    connected to a signal changes the application's state and yields the
    accumulated handled/unhandled answer. *)
Variable HandlerState : Type.
Variable run_handlers :
  addr -> ActorSignal -> ClutterEvent -> HandlerState -> bool * HandlerState.

(** Dispatch threads the application state and the emissions made so far. *)
Record Emission := mkEmission {
  handler_state : HandlerState;
  emitted : list (addr * ActorSignal) }.

(** The signals emitted by a dispatch, after those emitted before it. *)
Definition newly_emitted (before after : Emission) (signals : list (addr * ActorSignal))
  : Prop :=
  emitted after = emitted before ++ signals.

Definition Dispatch (A : Type) : Type := Emission -> A * Emission.

Definition ret {A} (a : A) : Dispatch A := fun st => (a, st).

Definition bind {A B} (m : Dispatch A) (k : A -> Dispatch B) : Dispatch B :=
  fun st => let '(a, st) := m st in k a st.

Local Notation "'let*' x ':=' m 'in' k" := (bind m (fun x => k))
  (at level 10, x name, m at level 100, k at level 200).

(** [g_signal_emit (actor, actor_signals[signal], 0, event, &retval)] *)
Definition g_signal_emit_retval (actor : addr) (signal : ActorSignal)
    (event : ClutterEvent) : Dispatch bool :=
  fun st =>
    let '(retval, hs) := run_handlers actor signal event (handler_state st) in
    (retval, mkEmission hs (emitted st ++ [(actor, signal)])).

(** The [switch (event->type)] of [clutter_actor_event]; [None] is
    [signal_num == -1]. *)
Definition signal_num_of (ty : ClutterEventType) : option ActorSignal :=
  match ty with
  | CLUTTER_NOTHING => None
  | CLUTTER_BUTTON_PRESS => Some BUTTON_PRESS_EVENT
  | CLUTTER_BUTTON_RELEASE => Some BUTTON_RELEASE_EVENT
  | CLUTTER_SCROLL => Some SCROLL_EVENT
  | CLUTTER_KEY_PRESS => Some KEY_PRESS_EVENT
  | CLUTTER_KEY_RELEASE => Some KEY_RELEASE_EVENT
  | CLUTTER_MOTION => Some MOTION_EVENT
  | CLUTTER_ENTER => Some ENTER_EVENT
  | CLUTTER_LEAVE => Some LEAVE_EVENT
  | CLUTTER_DELETE | CLUTTER_DESTROY_NOTIFY | CLUTTER_CLIENT_MESSAGE => None
  | _ => None
  end.

Definition clutter_actor_event (actor : addr) (event : ClutterEvent) (capture : bool)
  : Dispatch bool :=
  let retval := false in
  if capture then
    (let* retval := g_signal_emit_retval actor CAPTURED_EVENT event in
     ret retval)
  else
    (let* retval := g_signal_emit_retval actor EVENT event in
     if negb retval then
       let signal_num := signal_num_of (event_type event) in
       match signal_num with
       | Some signal =>
           (let* retval := g_signal_emit_retval actor signal event in
            ret retval)
       | None => ret retval
       end
     else ret retval).

End Events.

(** ** Specification-side definitions *)

(** The chain of actors from the root of the tree down to [self], as the
    parent links of the store give it. *)
Inductive lineage (h : gmap addr ClutterActor) : addr -> list ClutterActor -> Prop :=
| lineage_root self a :
    h !! self = Some a -> parent_actor (priv a) = None -> lineage h self [a]
| lineage_child self a parent chain :
    h !! self = Some a -> parent_actor (priv a) = Some parent ->
    lineage h parent chain -> lineage h self (chain ++ [a]).

(** Calls issued under a condition. *)
Definition opt (c : bool) (calls : list CoglCall) : list CoglCall :=
  if c then calls else [].

Definition has_parent (a : ClutterActor) : bool :=
  bool_decide (parent_actor (priv a) ≠ None).

Section TransformSpec.

Variable CFX_ONE : Z.
Variable CLUTTER_UNITS_TO_INT : Z -> Z.

(** The ordered steps of the per-node composer, with the scale step left
    open. *)
Definition composer_sequence_with (scale_step : list CoglCall) (a : ClutterActor)
  : list CoglCall :=
  let p := priv a in
  opt (has_parent a)
      [cogl_translate (CLUTTER_UNITS_TO_INT (x1 (coords p)))
                      (CLUTTER_UNITS_TO_INT (y1 (coords p))) 0]
  ++ scale_step
  ++ opt (has_parent a && (nonzero (anchor_x p) || nonzero (anchor_y p)))
         [cogl_translate (CLUTTER_UNITS_TO_INT (neg32 (anchor_x p)))
                         (CLUTTER_UNITS_TO_INT (neg32 (anchor_y p))) 0]
  ++ opt (nonzero (rzang p))
         [cogl_translate (rzx p) (rzy p) 0;
          cogl_rotatex (rzang p) 0 0 CFX_ONE;
          cogl_translate (neg32 (rzx p)) (neg32 (rzy p)) 0]
  ++ opt (nonzero (ryang p))
         [cogl_translate (ryx p) 0 (add32 (z p) (ryz p));
          cogl_rotatex (ryang p) 0 CFX_ONE 0;
          cogl_translate (neg32 (ryx p)) 0 (neg32 (add32 (z p) (ryz p)))]
  ++ opt (nonzero (rxang p))
         [cogl_translate 0 (rxy p) (add32 (z p) (rxz p));
          cogl_rotatex (rxang p) CFX_ONE 0 0;
          cogl_translate 0 (neg32 (rxy p)) (neg32 (add32 (z p) (rxz p)))]
  ++ opt (nonzero (z p)) [cogl_translate 0 0 (z p)]
  ++ opt (has_clip p) [cogl_clip_set (clip p)].

(** The sequence with an unconditional scale step. *)
Definition composer_sequence_always_scaled (a : ClutterActor) : list CoglCall :=
  composer_sequence_with [cogl_scale (scale_x (priv a)) (scale_y (priv a))] a.

(** The sequence with the scale step taken only for a scale that is not
    the identity. *)
Definition composer_sequence (a : ClutterActor) : list CoglCall :=
  composer_sequence_with
    (opt (negb (scale_x (priv a) =? CFX_ONE) || negb (scale_y (priv a) =? CFX_ONE))
         [cogl_scale (scale_x (priv a)) (scale_y (priv a))]) a.

(** Applying the composers of a chain one after the other, first actor
    first. *)
Definition compose_chain (chain : list ClutterActor) (gl : Cogl) : Cogl :=
  foldl (fun gl a => _clutter_actor_apply_modelview_transform
                       CFX_ONE CLUTTER_UNITS_TO_INT a gl) gl chain.

End TransformSpec.

Section VerticesSpec.

Variable CFX_ONE : Z.
Variable CFX_QMUL : Z -> Z -> Z.
Variable CFX_MUL : Z -> Z -> Z.
Variable CFX_DIV : Z -> Z -> Z.

(** The four corners of the local box, as homogeneous points. *)
Definition local_corners (a : ClutterActor) : list (Z * Z * Z * Z) :=
  let w := sub32 (x2 (coords (priv a))) (x1 (coords (priv a))) in
  let h := sub32 (y2 (coords (priv a))) (y1 (coords (priv a))) in
  [(0, 0, 0, CFX_ONE); (w, 0, 0, CFX_ONE); (0, h, 0, CFX_ONE); (w, h, 0, CFX_ONE)].

(** The matrix and rescale mathematics as the specification words it
    (4.2), written without the code's functions. *)

(** Entry (row, col) of a 4x4 matrix kept column after column. *)
Definition entry (m : list Z) (row col : nat) : Z := default 0 (m !! (4 * col + row)%nat).

(** One coordinate of matrix times vector: the sum of the precise
    products of the row with the vector, as a 32-bit value. *)
Definition row_times (m : list Z) (row : nat) (p : list Z) : Z :=
  wrap32 (foldr Z.add 0 (imap (fun col c => CFX_QMUL (entry m row col) c) p)).

Definition transformPoint (m : list Z) (p : Z * Z * Z * Z) : Z * Z * Z * Z :=
  let '(x, y, z, w) := p in
  let v := [x; y; z; w] in
  (row_times m 0 v, row_times m 1 v, row_times m 2 v, row_times m 3 v).

(** The fourth coordinate, by which the rescale divides. *)
Definition clip_w (p : Z * Z * Z * Z) : Z := snd p.

(** [((coord/w + 1) >> 1) * extent + origin], for a [w] that is not zero. *)
Definition deviceRescale (coord w extent origin : Z) : Z :=
  wrap32 (CFX_MUL (Z.shiftr (wrap32 (CFX_DIV coord w + CFX_ONE)) 1) extent + origin).

(** The same with the extent flipped: y grows downwards on the device. *)
Definition deviceRescaleFlipped (coord w extent origin : Z) : Z :=
  wrap32 (extent - CFX_MUL (Z.shiftr (wrap32 (CFX_DIV coord w + CFX_ONE)) 1) extent
          + origin).

(** A clip-space point on the device; the viewport is the backend's
    answer: x origin, y origin, width, height. *)
Definition to_device (viewport : list Z) (p : Z * Z * Z * Z) : ClutterVertex :=
  let '(x, y, z, w) := p in
  let x_origin := viewport !!! 0%nat in
  let y_origin := viewport !!! 1%nat in
  let width := viewport !!! 2%nat in
  let height := viewport !!! 3%nat in
  mkVertex (deviceRescale x w width x_origin)
           (deviceRescaleFlipped y w height y_origin)
           (deviceRescale z w width x_origin).

(** A local point taken through the modelview and then the projection. *)
Definition to_clip (modelview projection : list Z) (p : Z * Z * Z * Z) : Z * Z * Z * Z :=
  transformPoint projection (transformPoint modelview p).

(** Each corner on its own: modelview, then projection. *)
Definition clip_corners (modelview projection : list Z) (a : ClutterActor)
  : list (Z * Z * Z * Z) :=
  map (to_clip modelview projection) (local_corners a).

(** Whether the rescale of every point of a list is defined. *)
Definition all_rescalable (ps : list (Z * Z * Z * Z)) : bool :=
  forallb (fun p => negb (clip_w p =? 0)) ps.

End VerticesSpec.

(** Stepwise multiplicative inheritance along a root-first chain. *)
Definition effective_opacity (chain : list ClutterActor) : Z :=
  foldl (fun inherited a => inherited * opacity (priv a) / 255) 255 chain.

Definition opacity_in_range (a : ClutterActor) : Prop := 0 <= opacity (priv a) <= 255.

(** A call is silent when it neither emits anything nor touches the
    scheduling of repaints. *)
Definition silent (w w' : World) : Prop :=
  effects w' = effects w
  /\ main_loop w' = main_loop w
  /\ update_idle (context w') = update_idle (context w).

(** At most one repaint callback is attached, and it is the one the
    context remembers. *)
Definition repaint_invariant (w : World) : Prop :=
  (update_idle (context w) = 0 /\ idle_sources (main_loop w) = [])
  \/ (exists tag,
        update_idle (context w) = Z.pos tag
        /\ idle_sources (main_loop w) = [tag]
        /\ (tag < next_source_id (main_loop w))%positive).

Definition is_diagnostic (e : Effect) : Prop :=
  match e with
  | g_warning _ | g_return_if_fail_warning _ => True
  | _ => False
  end.

(** ** Sample values

    One choice for the parameters, used where a statement is evaluated on
    concrete numbers: 16.16 fixed point. *)
Definition sample_CFX_ONE : Z := 65536.
Definition sample_UNITS_TO_INT (u : Z) : Z := Z.shiftr u 16.
Definition sample_UNITS_FROM_INT (i : Z) : Z := wrap32 (Z.shiftl i 16).

Definition sample_CFX_QMUL (x y : Z) : Z := wrap32 (Z.shiftr (x * y) 16).
Definition sample_CFX_MUL (x y : Z) : Z := wrap32 (Z.shiftr x 8 * Z.shiftr y 8).
Definition sample_CFX_DIV (x y : Z) : Z := wrap32 (Z.shiftl (wrap32 (Z.shiftl x 8) ÷ y) 8).

(** A backend that answers the identity for both matrices and a viewport
    of 800 by 600 at the origin, whatever it has been sent. *)
Definition sample_matrix (gl : Cogl) : list Z :=
  [65536; 0; 0; 0;  0; 65536; 0; 0;  0; 0; 65536; 0;  0; 0; 0; 65536].
Definition sample_viewport (gl : Cogl) : list Z := [0; 0; 52428800; 39321600].

Definition sample_private : ClutterActorPrivate :=
  mkPrivate (mkBox 0 0 0 0) (mkGeometry 0 0 0 0) false 0 0 0 0 0 0 0 0 0 0 255 None None
            sample_CFX_ONE sample_CFX_ONE 0 0 0.

Definition sample_actor (p : ClutterActorPrivate) : ClutterActor :=
  mkActor true true false false false false p.

(** A three-level tree: a root, a half-transparent middle actor and a
    leaf of 100 by 50 pixels placed at (10, 20), scaled by two and lifted
    by a depth of 5. *)
Definition sample_root : ClutterActor := sample_actor sample_private.
Definition sample_middle : ClutterActor :=
  sample_actor (with_opacity 128 (with_parent_actor (Some 1%positive) sample_private)).
Definition sample_leaf : ClutterActor :=
  sample_actor
    (with_coords (mkBox 655360 1310720 7208960 4587520)
       (with_scale_x 131072 (with_scale_y 131072 (with_z 5
          (with_parent_actor (Some 2%positive) sample_private))))).

Definition sample_heap : gmap addr ClutterActor :=
  <[3%positive := sample_leaf]> (<[2%positive := sample_middle]>
    (<[1%positive := sample_root]> ∅)).

(** The tree above with nothing pending, nothing emitted and nothing
    drawn. *)
Definition sample_world : World :=
  mkWorld sample_heap (mkContext CLUTTER_PICK_NONE 0 ∅) (mkMainLoop 1 []) [] [].

(** * More of clutter-actor.c and clutter-behaviour-scale.c *)

(** ** Visibility and realization *)

Definition with_mapped (b : bool) (a : ClutterActor) : ClutterActor :=
  mkActor b (CLUTTER_ACTOR_REALIZED a) (CLUTTER_ACTOR_REACTIVE a)
          (CLUTTER_ACTOR_IN_DESTRUCTION a) (CLUTTER_ACTOR_IS_TOPLEVEL a)
          (CLUTTER_ACTOR_IN_REPARENT a) (priv a).

Definition with_reactive (b : bool) (a : ClutterActor) : ClutterActor :=
  mkActor (CLUTTER_ACTOR_MAPPED a) (CLUTTER_ACTOR_REALIZED a) b
          (CLUTTER_ACTOR_IN_DESTRUCTION a) (CLUTTER_ACTOR_IS_TOPLEVEL a)
          (CLUTTER_ACTOR_IN_REPARENT a) (priv a).

Definition with_in_reparent (b : bool) (a : ClutterActor) : ClutterActor :=
  mkActor (CLUTTER_ACTOR_MAPPED a) (CLUTTER_ACTOR_REALIZED a) (CLUTTER_ACTOR_REACTIVE a)
          (CLUTTER_ACTOR_IN_DESTRUCTION a) (CLUTTER_ACTOR_IS_TOPLEVEL a) b (priv a).

(** The base class installs no [unrealize] virtual function. *)
Definition clutter_actor_unrealize (self : addr) (w : World) : World :=
  match heap w !! self with
  | None => w
  | Some a =>
      if negb (CLUTTER_ACTOR_IS_REALIZED a) then w
      else store self (with_realized false a) w
  end.

(** [klass->show] of the base class, the class handler of the [show]
    signal.  The functions of this group dereference [self] without a
    type check; an address outside the store is left alone. *)
Definition clutter_actor_real_show (self : addr) (w : World) : World :=
  match heap w !! self with
  | None => w
  | Some a =>
      if negb (CLUTTER_ACTOR_IS_VISIBLE a) then
        let w := if negb (CLUTTER_ACTOR_IS_REALIZED a) then clutter_actor_realize self w
                 else w in
        let w :=
          match heap w !! self with
          | Some a =>
              if negb (CLUTTER_ACTOR_IS_TOPLEVEL a)
              then store self (with_mapped true a) w
              else w
          | None => w
          end in
        match heap w !! self with
        | Some a =>
            if CLUTTER_ACTOR_IS_VISIBLE a then clutter_actor_queue_redraw self w else w
        | None => w
        end
      else w
  end.

(** The [show] signal runs its class handler first ([G_SIGNAL_RUN_FIRST]);
    handlers connected by the application are outside this file. *)
Definition clutter_actor_show (self : addr) (w : World) : World :=
  match heap w !! self with
  | None => w
  | Some a =>
      if negb (CLUTTER_ACTOR_IS_VISIBLE a) then
        let w := emit (g_signal_emit self SHOW) w in
        let w := clutter_actor_real_show self w in
        emit (g_object_notify self "visible") w
      else w
  end.

(** [klass->show_all] of the base class is [clutter_actor_show]. *)
Definition clutter_actor_show_all (self : addr) (w : World) : World :=
  match heap w !! self with
  | None => emit (g_return_if_fail_warning "CLUTTER_IS_ACTOR (self)") w
  | Some _ => clutter_actor_show self w
  end.

(** [klass->hide] of the base class *)
Definition clutter_actor_real_hide (self : addr) (w : World) : World :=
  match heap w !! self with
  | None => w
  | Some a =>
      if CLUTTER_ACTOR_IS_VISIBLE a then
        let w := if negb (CLUTTER_ACTOR_IS_TOPLEVEL a)
                 then store self (with_mapped false a) w
                 else w in
        clutter_actor_queue_redraw self w
      else w
  end.

Definition clutter_actor_hide (self : addr) (w : World) : World :=
  match heap w !! self with
  | None => w
  | Some a =>
      if CLUTTER_ACTOR_IS_VISIBLE a then
        let w := emit (g_signal_emit self HIDE) w in
        let w := clutter_actor_real_hide self w in
        emit (g_object_notify self "visible") w
      else w
  end.

(** [klass->hide_all] of the base class is [clutter_actor_hide]. *)
Definition clutter_actor_hide_all (self : addr) (w : World) : World :=
  match heap w !! self with
  | None => emit (g_return_if_fail_warning "CLUTTER_IS_ACTOR (self)") w
  | Some _ => clutter_actor_hide self w
  end.

Definition clutter_actor_set_reactive (actor : addr) (reactive : bool) (w : World)
  : World :=
  match heap w !! actor with
  | None => emit (g_return_if_fail_warning "CLUTTER_IS_ACTOR (actor)") w
  | Some a =>
      if bool_decide (reactive = CLUTTER_ACTOR_IS_REACTIVE a) then w
      else if reactive then store actor (with_reactive true a) w
      else store actor (with_reactive false a) w
  end.

Definition clutter_actor_get_reactive (actor : ClutterActor) : bool :=
  CLUTTER_ACTOR_IS_REACTIVE actor.

(** ** Leaving a parent *)

(** The reference dropped at the end is the one [clutter_actor_set_parent]
    took; the caller is taken to hold one of its own, so that the actor
    stays in the store. *)
Definition clutter_actor_unparent (self : addr) (w : World) : World :=
  match heap w !! self with
  | None => emit (g_return_if_fail_warning "CLUTTER_IS_ACTOR (self)") w
  | Some a =>
      match parent_actor (priv a) with
      | None => w
      | Some old_parent =>
          let w :=
            if CLUTTER_ACTOR_IS_REALIZED a then
              if CLUTTER_ACTOR_IN_REPARENT a then clutter_actor_hide self w
              else clutter_actor_unrealize self w
            else w in
          let w :=
            match heap w !! self with
            | Some a => store self (with_priv (with_parent_actor None) a) w
            | None => w
            end in
          let w := emit (g_signal_emit self PARENT_SET) w in
          with_context
            (with_actor_hash (delete (clutter_actor_get_gid a) (actor_hash (context w)))
                             (context w)) w
      end
  end.

Section Reparent.

Variable CLUTTER_IS_CONTAINER : addr -> bool.
(** The container interface lives in clutter-container.c. *)
Variable clutter_container_remove_actor : addr -> addr -> World -> World.
Variable clutter_container_add_actor : addr -> addr -> World -> World.

Definition set_parent_actor_field (self : addr) (q : option addr) (w : World) : World :=
  match heap w !! self with
  | Some a => store self (with_priv (with_parent_actor q) a) w
  | None => w
  end.

Definition clutter_actor_reparent (self new_parent : addr) (w : World) : World :=
  match heap w !! self with
  | None => emit (g_return_if_fail_warning "CLUTTER_IS_ACTOR (self)") w
  | Some a =>
      match heap w !! new_parent with
      | None => emit (g_return_if_fail_warning "CLUTTER_IS_ACTOR (new_parent)") w
      | Some np =>
          if bool_decide (self = new_parent) then
            emit (g_return_if_fail_warning "self != new_parent") w
          else if CLUTTER_ACTOR_IS_TOPLEVEL a then
            emit (g_warning "Cannot set a parent on a toplevel actor\n") w
          else if bool_decide (parent_actor (priv a) ≠ Some new_parent) then
            let w :=
              if CLUTTER_ACTOR_IS_REALIZED a && CLUTTER_ACTOR_IS_REALIZED np
              then store self (with_in_reparent true a) w
              else w in
            let old_parent := parent_actor (priv a) in
            let w :=
              match old_parent with
              | Some old =>
                  if CLUTTER_IS_CONTAINER old
                  then clutter_container_remove_actor old self w
                  else set_parent_actor_field self None w
              | None => set_parent_actor_field self None w
              end in
            let w :=
              if CLUTTER_IS_CONTAINER new_parent
              then clutter_container_add_actor new_parent self w
              else set_parent_actor_field self (Some new_parent) w in
            match heap w !! self with
            | Some a =>
                if CLUTTER_ACTOR_IN_REPARENT a then
                  let w := store self (with_in_reparent false a) w in
                  clutter_actor_queue_redraw self w
                else w
            | None => w
            end
          else w
      end
  end.

End Reparent.

(** ** Geometry queries and the remaining geometry setters *)

Section Geometry.

Variable CLUTTER_UNITS_TO_INT : Z -> Z.
Variable CLUTTER_UNITS_FROM_INT : Z -> Z.

(** The getters write through pointers that may be [NULL]; here every
    value is returned. *)
Definition clutter_actor_get_geometry (self : ClutterActor) : ClutterGeometry :=
  let box := clutter_actor_query_coords self in
  mkGeometry (CLUTTER_UNITS_TO_INT (x1 box)) (CLUTTER_UNITS_TO_INT (y1 box))
             (CLUTTER_UNITS_TO_INT (sub32 (x2 box) (x1 box)))
             (CLUTTER_UNITS_TO_INT (sub32 (y2 box) (y1 box))).

Definition clutter_actor_get_coords (self : ClutterActor) : Z * Z * Z * Z :=
  let box := clutter_actor_query_coords self in
  (CLUTTER_UNITS_TO_INT (x1 box), CLUTTER_UNITS_TO_INT (y1 box),
   CLUTTER_UNITS_TO_INT (x2 box), CLUTTER_UNITS_TO_INT (y2 box)).

Definition clutter_actor_get_position (self : ClutterActor) : Z * Z :=
  let box := clutter_actor_query_coords self in
  (CLUTTER_UNITS_TO_INT (x1 box), CLUTTER_UNITS_TO_INT (y1 box)).

(** [width] and [height] are [guint]. *)
Definition clutter_actor_get_size (self : ClutterActor) : Z * Z :=
  let box := clutter_actor_query_coords self in
  (wrapu32 (CLUTTER_UNITS_TO_INT (sub32 (x2 box) (x1 box))),
   wrapu32 (CLUTTER_UNITS_TO_INT (sub32 (y2 box) (y1 box)))).

Definition clutter_actor_get_x (self : ClutterActor) : Z :=
  let box := clutter_actor_query_coords self in
  CLUTTER_UNITS_TO_INT (x1 box).

Definition clutter_actor_get_y (self : ClutterActor) : Z :=
  let box := clutter_actor_query_coords self in
  CLUTTER_UNITS_TO_INT (y1 box).

(** [dxu] and [dyu] are computed before the type check. *)
Definition clutter_actor_move_by (self : addr) (dx dy : Z) (w : World) : World :=
  let dxu := CLUTTER_UNITS_FROM_INT dx in
  let dyu := CLUTTER_UNITS_FROM_INT dy in
  match heap w !! self with
  | None => emit (g_return_if_fail_warning "CLUTTER_IS_ACTOR (self)") w
  | Some a =>
      let box := clutter_actor_query_coords a in
      let box := mkBox (add32 (x1 box) dxu) (add32 (y1 box) dyu)
                       (add32 (x2 box) dxu) (add32 (y2 box) dyu) in
      clutter_actor_request_coords self box w
  end.

(** [width] is a [guint] handed to a [gint] parameter. *)
Definition clutter_actor_set_width (self : addr) (width : Z) (w : World) : World :=
  match heap w !! self with
  | None => emit (g_return_if_fail_warning "CLUTTER_IS_ACTOR (self)") w
  | Some _ =>
      clutter_actor_set_size_internal CLUTTER_UNITS_FROM_INT self (wrap32 width) (-1) w
  end.

Definition clutter_actor_set_height (self : addr) (height : Z) (w : World) : World :=
  match heap w !! self with
  | None => emit (g_return_if_fail_warning "CLUTTER_IS_ACTOR (self)") w
  | Some _ =>
      clutter_actor_set_size_internal CLUTTER_UNITS_FROM_INT self (-1) (wrap32 height) w
  end.

Definition clutter_actor_set_x (self : addr) (x : Z) (w : World) : World :=
  match heap w !! self with
  | None => emit (g_return_if_fail_warning "CLUTTER_IS_ACTOR (self)") w
  | Some a =>
      clutter_actor_set_position CLUTTER_UNITS_FROM_INT self x (clutter_actor_get_y a) w
  end.

Definition clutter_actor_set_y (self : addr) (y : Z) (w : World) : World :=
  match heap w !! self with
  | None => emit (g_return_if_fail_warning "CLUTTER_IS_ACTOR (self)") w
  | Some a =>
      clutter_actor_set_position CLUTTER_UNITS_FROM_INT self (clutter_actor_get_x a) y w
  end.

End Geometry.

(** ** Absolute position and size *)

Section Absolute.

Variable CFX_ONE : Z.
Variable CLUTTER_UNITS_TO_INT : Z -> Z.
Variable CFX_QMUL : Z -> Z -> Z.
Variable CFX_MUL : Z -> Z -> Z.
Variable CFX_DIV : Z -> Z -> Z.
Variable cogl_get_modelview_matrix : Cogl -> list Z.
Variable cogl_get_projection_matrix : Cogl -> list Z.
Variable cogl_get_viewport : Cogl -> list Z.

(** The point is transformed in place; the new values are returned. *)
Definition clutter_actor_transform_point
    (fuel : nat) (h : gmap addr ClutterActor) (actor : addr)
    (p : Z * Z * Z * Z) (gl : Cogl) : option (Z * Z * Z * Z * Cogl) :=
  _ ← h !! actor;
  let gl := issue cogl_push_matrix gl in
  gl ← _clutter_actor_apply_modelview_transform_recursive
          CFX_ONE CLUTTER_UNITS_TO_INT fuel h actor gl;
  let mtx := cogl_get_modelview_matrix gl in
  let p := mtx_transform CFX_QMUL mtx p in
  Some (p, issue cogl_pop_matrix gl).

(** Returns the point as the function leaves it (it is overwritten with
    the projected coordinates) and the vertex written for the caller; the
    three rescales divide by the projected [w]. *)
Definition clutter_actor_apply_transform_to_point
    (fuel : nat) (h : gmap addr ClutterActor) (self : addr)
    (point : ClutterVertex) (gl : Cogl)
  : option (ClutterVertex * ClutterVertex * Cogl) :=
  _ ← h !! self;
  let w := CFX_ONE in
  '(px, py, pz, w, gl) ←
    clutter_actor_transform_point fuel h self
      (vertex_x point, vertex_y point, vertex_z point, w) gl;
  let mtx_p := cogl_get_projection_matrix gl in
  let v := cogl_get_viewport gl in
  let '(px, py, pz, w) := mtx_transform CFX_QMUL mtx_p (px, py, pz, w) in
  let point := mkVertex px py pz in
  vx ← MTX_GL_SCALE_X CFX_ONE CFX_MUL CFX_DIV (vertex_x point) w (v !!! 2%nat) (v !!! 0%nat);
  vy ← MTX_GL_SCALE_Y CFX_ONE CFX_MUL CFX_DIV (vertex_y point) w (v !!! 3%nat) (v !!! 1%nat);
  vz ← MTX_GL_SCALE_Z CFX_ONE CFX_MUL CFX_DIV (vertex_z point) w (v !!! 2%nat) (v !!! 0%nat);
  Some (point, mkVertex vx vy vz, gl).

Definition clutter_actor_get_abs_position_units
    (fuel : nat) (h : gmap addr ClutterActor) (self : addr) (gl : Cogl)
  : option (Z * Z * Cogl) :=
  _ ← h !! self;
  let v1 := mkVertex 0 0 0 in
  '(_, v2, gl) ← clutter_actor_apply_transform_to_point fuel h self v1 gl;
  Some (vertex_x v2, vertex_y v2, gl).

Definition clutter_actor_get_abs_position
    (fuel : nat) (h : gmap addr ClutterActor) (self : addr) (gl : Cogl)
  : option (Z * Z * Cogl) :=
  _ ← h !! self;
  '(xu, yu, gl) ← clutter_actor_get_abs_position_units fuel h self gl;
  Some (CLUTTER_UNITS_TO_INT xu, CLUTTER_UNITS_TO_INT yu, gl).

(** One round of the loop over [v[1]], [v[2]], [v[3]]. *)
Definition abs_size_step (v : list ClutterVertex) (acc : Z * Z * Z * Z) (i : nat)
  : Z * Z * Z * Z :=
  let '(x_min, x_max, y_min, y_max) := acc in
  let x_min := if vertex_x (v !!! i) <? x_min then vertex_x (v !!! i) else x_min in
  let x_max := if x_max <? vertex_x (v !!! i) then vertex_x (v !!! i) else x_max in
  let y_min := if vertex_y (v !!! i) <? y_min then vertex_y (v !!! i) else y_min in
  let y_max := if y_max <? vertex_y (v !!! i) then vertex_y (v !!! i) else y_max in
  (x_min, x_max, y_min, y_max).

(** The envelope of four vertices, as the second half of
    [clutter_actor_get_abs_size_units] computes it. *)
Definition abs_size_of_vertices (v : list ClutterVertex) : Z * Z :=
  let x_min := vertex_x (v !!! 0%nat) in
  let x_max := x_min in
  let y_min := vertex_y (v !!! 0%nat) in
  let y_max := y_min in
  let '(x_min, x_max, y_min, y_max) :=
    foldl (abs_size_step v) (x_min, x_max, y_min, y_max) (seq 1 3) in
  (sub32 x_max x_min, sub32 y_max y_min).

Definition clutter_actor_get_abs_size_units
    (fuel : nat) (h : gmap addr ClutterActor) (self : addr) (gl : Cogl)
  : option (Z * Z * Cogl) :=
  '(v, gl) ← clutter_actor_get_vertices CFX_ONE CLUTTER_UNITS_TO_INT CFX_QMUL CFX_MUL
                CFX_DIV cogl_get_modelview_matrix cogl_get_projection_matrix
                cogl_get_viewport fuel h self (replicate 4 (mkVertex 0 0 0)) gl;
  let '(width, height) := abs_size_of_vertices v in
  Some (width, height, gl).

Definition clutter_actor_get_abs_size
    (fuel : nat) (h : gmap addr ClutterActor) (self : addr) (gl : Cogl)
  : option (Z * Z * Cogl) :=
  '(wu, hu, gl) ← clutter_actor_get_abs_size_units fuel h self gl;
  Some (wrapu32 (CLUTTER_UNITS_TO_INT wu), wrapu32 (CLUTTER_UNITS_TO_INT hu), gl).

End Absolute.

(** ** Scale, depth and rotation queries *)

Definition clutter_actor_get_scalex (self : ClutterActor) : Z * Z :=
  (scale_x (priv self), scale_y (priv self)).

Definition clutter_actor_get_depth (self : ClutterActor) : Z := z (priv self).

(** Returns the angle and the three coordinates as the caller's variables
    hold them afterwards: a coordinate the axis does not use keeps the
    value [x], [y] or [z] it had before the call. *)
Definition clutter_actor_get_rotationx (self : ClutterActor) (axis : ClutterRotateAxis)
    (x y z : Z) : Z * Z * Z * Z :=
  let priv := priv self in
  match axis with
  | CLUTTER_X_AXIS => (rxang priv, x, rxy priv, rxz priv)
  | CLUTTER_Y_AXIS => (ryang priv, ryx priv, y, ryz priv)
  | CLUTTER_Z_AXIS => (rzang priv, rzx priv, rzy priv, z)
  end.

(** ** Clip queries *)

Definition clutter_actor_remove_clip (self : addr) (w : World) : World :=
  match heap w !! self with
  | None => emit (g_return_if_fail_warning "CLUTTER_IS_ACTOR (self)") w
  | Some a =>
      let a := with_priv (with_clip (clip (priv a)) false) a in
      let w := store self a w in
      emit (g_object_notify self "has-clip") w
  end.

Definition clutter_actor_has_clip (self : ClutterActor) : bool := has_clip (priv self).

(** [None]: the function returned before writing anything. *)
Definition clutter_actor_get_clip (self : ClutterActor) : option (Z * Z * Z * Z) :=
  let priv := priv self in
  if negb (has_clip priv) then None
  else
    let clip := clip priv in
    Some (geometry_x clip, geometry_y clip, geometry_width clip, geometry_height clip).

(** ** Anchor point queries and gravity *)

Inductive ClutterGravity :=
| CLUTTER_GRAVITY_NONE
| CLUTTER_GRAVITY_NORTH | CLUTTER_GRAVITY_NORTH_EAST | CLUTTER_GRAVITY_EAST
| CLUTTER_GRAVITY_SOUTH_EAST | CLUTTER_GRAVITY_SOUTH | CLUTTER_GRAVITY_SOUTH_WEST
| CLUTTER_GRAVITY_WEST | CLUTTER_GRAVITY_NORTH_WEST | CLUTTER_GRAVITY_CENTER.

Global Instance ClutterGravity_eq_dec : EqDecision ClutterGravity.
Proof. solve_decision. Defined.

Definition clutter_actor_get_anchor_pointu (self : ClutterActor) : Z * Z :=
  (anchor_x (priv self), anchor_y (priv self)).

(** The anchor for a gravity, from the extents [w] and [h] of the box;
    [/] on [gint32] truncates towards zero. *)
Definition gravity_anchor (gravity : ClutterGravity) (w h : Z) : Z * Z :=
  let x := 0 in
  let y := 0 in
  match gravity with
  | CLUTTER_GRAVITY_NORTH => (w ÷ 2, y)
  | CLUTTER_GRAVITY_SOUTH => (w ÷ 2, h)
  | CLUTTER_GRAVITY_EAST => (w, h ÷ 2)
  | CLUTTER_GRAVITY_NORTH_EAST => (w, y)
  | CLUTTER_GRAVITY_SOUTH_EAST => (w, h)
  | CLUTTER_GRAVITY_SOUTH_WEST => (x, h)
  | CLUTTER_GRAVITY_WEST => (x, h ÷ 2)
  | CLUTTER_GRAVITY_CENTER => (w ÷ 2, h ÷ 2)
  | CLUTTER_GRAVITY_NONE | CLUTTER_GRAVITY_NORTH_WEST => (x, y)
  end.

Definition clutter_actor_set_anchor_point_from_gravity (self : addr)
    (gravity : ClutterGravity) (w : World) : World :=
  match heap w !! self with
  | None => emit (g_return_if_fail_warning "CLUTTER_IS_ACTOR (self)") w
  | Some a =>
      let box := clutter_actor_query_coords a in
      let '(x, y) := gravity_anchor gravity (sub32 (x2 box) (x1 box))
                                    (sub32 (y2 box) (y1 box)) in
      let a := with_priv (with_anchor_x x) a in
      let a := with_priv (with_anchor_y y) a in
      store self a w
  end.

(** ** The scale behaviour (clutter-behaviour-scale.c) *)

Record ClutterBehaviourScalePrivate := mkScalePrivate {
  scale_start : Z;
  scale_end : Z;
  gravity : ClutterGravity }.

(** [data] carries the scale as a [guint] inside a pointer. *)
Definition scale_frame_foreach (priv : ClutterBehaviourScalePrivate) (actor : addr)
    (data : Z) (w : World) : World :=
  let scale := wrap32 data in
  let gravity := gravity priv in
  let w := if bool_decide (gravity ≠ CLUTTER_GRAVITY_NONE)
           then clutter_actor_set_anchor_point_from_gravity actor gravity w
           else w in
  clutter_actor_set_scalex actor scale scale w.

Section BehaviourScale.

(** From clutter-fixed.h and clutter-alpha.h. *)
Variable CLUTTER_INT_TO_FIXED : Z -> Z.
Variable CLUTTER_FIXED_MUL : Z -> Z -> Z.
Variable CLUTTER_ALPHA_MAX_ALPHA : Z.

(** [clutter_behaviour_actors_foreach] (clutter-behaviour.c) calls the
    function on every actor the behaviour is applied to; [actors] is that
    list. *)
Definition clutter_behaviour_scale_alpha_notify (priv : ClutterBehaviourScalePrivate)
    (actors : list addr) (alpha_value : Z) (w : World) : World :=
  let factor := wrap32 (CLUTTER_INT_TO_FIXED alpha_value ÷ CLUTTER_ALPHA_MAX_ALPHA) in
  let scale := wrap32 (CLUTTER_FIXED_MUL factor (sub32 (scale_end priv) (scale_start priv))) in
  let scale := add32 scale (scale_start priv) in
  foldl (fun w actor => scale_frame_foreach priv actor (wrapu32 scale) w) w actors.

End BehaviourScale.

Definition clutter_behaviour_scale_newx (scale_start scale_end : Z)
    (gravity : ClutterGravity) : ClutterBehaviourScalePrivate :=
  mkScalePrivate scale_start scale_end gravity.

Definition clutter_behaviour_scale_get_boundsx (scale : ClutterBehaviourScalePrivate)
  : Z * Z :=
  (scale_start scale, scale_end scale).

Definition clutter_behaviour_scale_get_gravity (scale : ClutterBehaviourScalePrivate)
  : ClutterGravity :=
  gravity scale.

(** ** Statement-side definitions for the further properties *)

(** The notification of a property, when there is one. *)
Definition notes (c : bool) (self : addr) (property : string) : list Effect :=
  if c then [g_object_notify self property] else [].

(** The extents of a box, in 32-bit arithmetic. *)
Definition box_width (box : ClutterActorBox) : Z := sub32 (x2 box) (x1 box).
Definition box_height (box : ClutterActorBox) : Z := sub32 (y2 box) (y1 box).

Definition box_in_range (box : ClutterActorBox) : Prop :=
  in_int32 (x2 box) /\ in_int32 (y2 box).


(** The actor as [clutter_actor_set_parent] leaves it: linked to its
    parent, and realized when the parent is. *)
Definition adopted (parent : addr) (p a : ClutterActor) : ClutterActor :=
  let a := with_priv (with_parent_actor (Some parent)) a in
  if CLUTTER_ACTOR_IS_REALIZED p then with_realized true a else a.


(** The silhouette drawn for an actor in pick mode, when it draws one. *)
Definition silhouette (CLUTTER_UNITS_TO_INT : Z -> Z) (ctx : ClutterMainContext)
    (a : ClutterActor) (bits : Z * Z * Z) : list CoglCall :=
  let '(r, g, b) := bits in
  if bool_decide (pick_mode ctx ≠ CLUTTER_PICK_NONE) && clutter_actor_should_pick_paint ctx a
  then [cogl_color (encode_pick_color r g b (clutter_actor_get_gid a));
        cogl_rectangle 0 0 (clutter_actor_get_width CLUTTER_UNITS_TO_INT a)
                       (clutter_actor_get_height CLUTTER_UNITS_TO_INT a)]
  else [].

(** Everything [clutter_actor_paint] sends to the backend for one actor. *)
Definition paint_calls (CFX_ONE : Z) (CLUTTER_UNITS_TO_INT : Z -> Z)
    (cogl_get_bitmasks : Cogl -> Z * Z * Z) (ctx : ClutterMainContext)
    (before : Cogl) (a : ClutterActor) : list CoglCall :=
  let transform := [cogl_push_matrix] ++ composer_sequence CFX_ONE CLUTTER_UNITS_TO_INT a in
  transform
  ++ silhouette CLUTTER_UNITS_TO_INT ctx a (cogl_get_bitmasks (before ++ transform))
  ++ opt (has_clip (priv a)) [cogl_clip_unset]
  ++ [cogl_pop_matrix].

Definition is_drawing (c : CoglCall) : Prop :=
  match c with
  | cogl_color _ | cogl_rectangle _ _ _ _ => True
  | _ => False
  end.


Definition sample_bitmasks (gl : Cogl) : Z * Z * Z := (8, 8, 8).

(** The extent of a non-empty list of coordinates, as a [gint32]. *)
Definition envelope (zs : list Z) : Z :=
  match zs with
  | [] => 0
  | z0 :: zs => sub32 (foldl Z.max z0 zs) (foldl Z.min z0 zs)
  end.

(** The actor as one frame of the scale behaviour leaves it. *)
Definition scaled (behaviour : ClutterBehaviourScalePrivate) (scale : Z) (a : ClutterActor)
  : ClutterActor :=
  let anchor :=
    if bool_decide (gravity behaviour ≠ CLUTTER_GRAVITY_NONE)
    then gravity_anchor (gravity behaviour) (box_width (coords (priv a)))
                        (box_height (coords (priv a)))
    else (anchor_x (priv a), anchor_y (priv a)) in
  with_priv (with_scale_y scale)
    (with_priv (with_scale_x scale)
       (with_priv (with_anchor_y (snd anchor)) (with_priv (with_anchor_x (fst anchor)) a))).

(** The value [clutter_behaviour_scale_alpha_notify] interpolates. *)
Definition interpolated_scale (CLUTTER_INT_TO_FIXED : Z -> Z)
    (CLUTTER_FIXED_MUL : Z -> Z -> Z) (CLUTTER_ALPHA_MAX_ALPHA : Z)
    (behaviour : ClutterBehaviourScalePrivate) (alpha_value : Z) : Z :=
  add32 (wrap32 (CLUTTER_FIXED_MUL
                   (wrap32 (CLUTTER_INT_TO_FIXED alpha_value ÷ CLUTTER_ALPHA_MAX_ALPHA))
                   (sub32 (scale_end behaviour) (scale_start behaviour))))
        (scale_start behaviour).

Definition sample_INT_TO_FIXED (i : Z) : Z := wrapu32 (Z.shiftl i 16).
Definition sample_ALPHA_MAX_ALPHA : Z := 65535.


(** Coordinates far enough from the ends of [gint32] for a difference of
    two of them to be representable. *)
Definition half_range (z : Z) : Prop := - 2 ^ 30 <= z < 2 ^ 30.


(** A positive pixel count that survives the passage through units. *)
Definition exact_pixels (CLUTTER_UNITS_TO_INT CLUTTER_UNITS_FROM_INT : Z -> Z) (v : Z)
  : Prop :=
  0 < v < 2 ^ 31 /\ in_int32 (CLUTTER_UNITS_FROM_INT v)
  /\ CLUTTER_UNITS_TO_INT (CLUTTER_UNITS_FROM_INT v) = v.


(** The request to re-sort the parent that a change of depth makes. *)
Definition depth_sort (CLUTTER_IS_CONTAINER : addr -> bool) (a : ClutterActor)
  : list Effect :=
  match parent_actor (priv a) with
  | Some parent =>
      if CLUTTER_IS_CONTAINER parent then [clutter_container_sort_depth_order parent]
      else []
  | None => []
  end.


(** The projected point without its fourth coordinate, as
    [clutter_actor_apply_transform_to_point] leaves it in the caller's
    point. *)
Definition clip_xyz (p : Z * Z * Z * Z) : ClutterVertex :=
  let '(x, y, z, _) := p in mkVertex x y z.

(** A lone actor of one pixel by one pixel. *)
Definition sample_pixel : ClutterActor :=
  sample_actor (with_coords (mkBox 0 0 65536 65536) sample_private).
Definition sample_pixel_heap : gmap addr ClutterActor := {[ 1%positive := sample_pixel ]}.

(** A projection whose fourth row is (-1, 0, 0, 1): the projected [w] is
    [w - x], zero at the right-hand edge of [sample_pixel]. *)
Definition sample_skew_projection (gl : Cogl) : list Z :=
  [65536; 0; 0; -65536;  0; 65536; 0; 0;  0; 0; 65536; 0;  0; 0; 0; 65536].

(** * Theorems *)

(** ** The per-node composer *)

Lemma when_issue_calls (c : bool) (calls : list CoglCall) (gl : Cogl) :
  when c (fun gl => gl ++ calls) gl = gl ++ opt c calls.
Proof. destruct c; simpl; [reflexivity | by rewrite app_nil_r]. Qed.

Lemma when_issue (c : bool) (call : CoglCall) (gl : Cogl) :
  when c (issue call) gl = gl ++ opt c [call].
Proof. apply (when_issue_calls c [call]). Qed.

Lemma when_issue3 (c : bool) (c1 c2 c3 : CoglCall) (gl : Cogl) :
  when c (fun gl => issue c3 (issue c2 (issue c1 gl))) gl = gl ++ opt c [c1; c2; c3].
Proof.
  rewrite <- (when_issue_calls c [c1; c2; c3]).
  destruct c; simpl; [| reflexivity].
  unfold issue. by rewrite <- !app_assoc.
Qed.

(** C1 (as amended): the composer issues, after whatever the backend has
    already received, the translation by the box origin (only with a
    parent), the scale (only when scale_x or scale_y differs from
    CFX_ONE), the anchor translation (only with a parent and a non-zero
    anchor), the three pivoted rotations about Z, Y and X (each only for
    a non-zero angle), the depth translation (only for a non-zero depth)
    and the clip (only when one is set), in this order. *)
Theorem composer_issues_sequence
    (CFX_ONE : Z) (CLUTTER_UNITS_TO_INT : Z -> Z) (self : ClutterActor) (gl : Cogl) :
  _clutter_actor_apply_modelview_transform CFX_ONE CLUTTER_UNITS_TO_INT self gl
  = gl ++ composer_sequence CFX_ONE CLUTTER_UNITS_TO_INT self.
Proof.
  unfold _clutter_actor_apply_modelview_transform, composer_sequence,
    composer_sequence_with, clutter_actor_get_parent, has_parent.
  cbv zeta.
  rewrite !when_issue3, !when_issue.
  by rewrite <- !app_assoc.
Qed.

(** With a scale other than the identity the two sequences are the same:
    the identity scale is the only case in which they differ. *)
Lemma composer_sequence_scaled
    (CFX_ONE : Z) (CLUTTER_UNITS_TO_INT : Z -> Z) (self : ClutterActor) :
  scale_x (priv self) <> CFX_ONE \/ scale_y (priv self) <> CFX_ONE ->
  composer_sequence CFX_ONE CLUTTER_UNITS_TO_INT self
  = composer_sequence_always_scaled CFX_ONE CLUTTER_UNITS_TO_INT self.
Proof.
  intros Hscale. unfold composer_sequence, composer_sequence_always_scaled.
  assert (Hguard : negb (scale_x (priv self) =? CFX_ONE)
                   || negb (scale_y (priv self) =? CFX_ONE) = true).
  { apply orb_true_iff. destruct Hscale as [H | H]; [left | right];
      apply negb_true_iff; by apply Z.eqb_neq. }
  by rewrite Hguard.
Qed.

(** C1 (as claimed) fails: with a parent and the identity scale the
    composer issues no scale call, while the claimed sequence has one. *)
Lemma composer_skips_identity_scale :
  let self := sample_actor (with_parent_actor (Some 1%positive) sample_private) in
  _clutter_actor_apply_modelview_transform sample_CFX_ONE sample_UNITS_TO_INT self []
  = [cogl_translate 0 0 0]
  /\ composer_sequence_always_scaled sample_CFX_ONE sample_UNITS_TO_INT self
     = [cogl_translate 0 0 0; cogl_scale sample_CFX_ONE sample_CFX_ONE]
  /\ _clutter_actor_apply_modelview_transform sample_CFX_ONE sample_UNITS_TO_INT self []
     <> [] ++ composer_sequence_always_scaled sample_CFX_ONE sample_UNITS_TO_INT self.
Proof. vm_compute. split; [reflexivity | split; [reflexivity | discriminate]]. Qed.

(** ** The recursive accumulator *)

Section Accumulator.

Variable CFX_ONE : Z.
Variable CLUTTER_UNITS_TO_INT : Z -> Z.

Local Abbreviation composer :=
  (_clutter_actor_apply_modelview_transform CFX_ONE CLUTTER_UNITS_TO_INT).
Local Abbreviation accumulate :=
  (_clutter_actor_apply_modelview_transform_recursive CFX_ONE CLUTTER_UNITS_TO_INT).
Local Abbreviation compose_chain := (compose_chain CFX_ONE CLUTTER_UNITS_TO_INT).

Lemma accumulate_root h self a fuel gl :
  h !! self = Some a -> parent_actor (priv a) = None ->
  accumulate (S fuel) h self gl = Some (composer a gl).
Proof.
  intros Ha Hp. simpl. rewrite Ha. simpl.
  unfold clutter_actor_get_parent. by rewrite Hp.
Qed.

Lemma accumulate_child h self a parent fuel gl :
  h !! self = Some a -> parent_actor (priv a) = Some parent ->
  accumulate (S fuel) h self gl
  = gl' ← accumulate fuel h parent gl; Some (composer a gl').
Proof.
  intros Ha Hp. simpl. rewrite Ha. simpl.
  unfold clutter_actor_get_parent. by rewrite Hp.
Qed.

(** The accumulated backend state along a chain, as a shared step for
    the functions that start from it. *)
Lemma accumulate_along_lineage h self chain :
  lineage h self chain ->
  forall fuel gl, (length chain <= fuel)%nat ->
    accumulate fuel h self gl = Some (compose_chain chain gl).
Proof.
  induction 1 as [self a Ha Hp | self a parent chain Ha Hp Hl IH]; intros fuel gl Hfuel.
  - destruct fuel as [| fuel]; [simpl in Hfuel; lia |].
    by apply accumulate_root.
  - rewrite length_app in Hfuel. simpl in Hfuel.
    destruct fuel as [| fuel]; [lia |].
    rewrite (accumulate_child _ _ _ _ _ _ Ha Hp), (IH fuel gl) by lia.
    unfold compose_chain. by rewrite foldl_app.
Qed.

(** C2: along the chain from the root down to the actor, the accumulator
    returns (given fuel for the depth of the chain) the backend state in
    which the composer of every ancestor has been applied before the
    composer of its descendants, the actor's own composer last; for an
    actor with a parent this is the parent's accumulated transform
    followed by the actor's composer. *)
Theorem accumulate_root_to_node h self chain :
  lineage h self chain ->
  forall fuel gl, (length chain <= fuel)%nat ->
    accumulate fuel h self gl = Some (compose_chain chain gl)
    /\ (forall a parent, h !! self = Some a -> parent_actor (priv a) = Some parent ->
        exists ancestors gl',
          chain = ancestors ++ [a]
          /\ lineage h parent ancestors
          /\ accumulate (pred fuel) h parent gl = Some gl'
          /\ gl' = compose_chain ancestors gl
          /\ accumulate fuel h self gl = Some (composer a gl')).
Proof.
  induction 1 as [self a Ha Hp | self a parent chain Ha Hp Hl IH]; intros fuel gl Hfuel.
  - destruct fuel as [| fuel]; [simpl in Hfuel; lia |].
    split; [by apply accumulate_root |].
    intros a' parent Ha' Hp'. congruence.
  - rewrite length_app in Hfuel. simpl in Hfuel.
    destruct fuel as [| fuel]; [lia |].
    destruct (IH fuel gl ltac:(lia)) as [Hacc _].
    assert (Hself : accumulate (S fuel) h self gl
                    = Some (composer a (compose_chain chain gl))).
    { rewrite (accumulate_child _ _ _ _ _ _ Ha Hp), Hacc. reflexivity. }
    split.
    + rewrite Hself. unfold compose_chain. by rewrite foldl_app.
    + intros a' parent' Ha' Hp'.
      assert (a' = a) by congruence. subst a'.
      assert (parent' = parent) by congruence. subst parent'.
      exists chain, (compose_chain chain gl). simpl. by repeat split.
Qed.

End Accumulator.

Lemma sample_lineage :
  lineage sample_heap 3%positive [sample_root; sample_middle; sample_leaf].
Proof.
  apply (lineage_child _ 3%positive sample_leaf 2%positive [sample_root; sample_middle]);
    [reflexivity | reflexivity |].
  apply (lineage_child _ 2%positive sample_middle 1%positive [sample_root]);
    [reflexivity | reflexivity |].
  apply lineage_root; reflexivity.
Defined.

Lemma accumulate_root_to_node_witness :
  lineage sample_heap 3%positive [sample_root; sample_middle; sample_leaf]
  /\ _clutter_actor_apply_modelview_transform_recursive
       sample_CFX_ONE sample_UNITS_TO_INT 3 sample_heap 3%positive []
     = Some (compose_chain sample_CFX_ONE sample_UNITS_TO_INT
               [sample_root; sample_middle; sample_leaf] []).
Proof.
  split; [exact sample_lineage |].
  apply (accumulate_root_to_node sample_CFX_ONE sample_UNITS_TO_INT
           sample_heap 3%positive _ sample_lineage 3%nat []).
  simpl. lia.
Defined.

(** ** Vertices *)

Lemma wrap32_plus_l (a b : Z) : wrap32 (wrap32 a + b) = wrap32 (a + b).
Proof.
  unfold wrap32. f_equal.
  replace ((a + 2 ^ 31) mod 2 ^ 32 - 2 ^ 31 + b + 2 ^ 31)
    with ((a + 2 ^ 31) mod 2 ^ 32 + b) by lia.
  rewrite Zplus_mod_idemp_l. f_equal. lia.
Qed.

Lemma add32_chain (a b c d : Z) :
  add32 (add32 (add32 a b) c) d = wrap32 (a + (b + (c + (d + 0)))).
Proof.
  unfold add32. rewrite wrap32_plus_l, <- Z.add_assoc, wrap32_plus_l.
  f_equal. lia.
Qed.

Lemma all_rescalable_Forall (ps : list (Z * Z * Z * Z)) :
  all_rescalable ps = true <-> Forall (fun p => clip_w p <> 0) ps.
Proof.
  unfold all_rescalable. induction ps as [| p ps IH]; cbn [forallb].
  - split; [constructor | reflexivity].
  - rewrite andb_true_iff, IH, Forall_cons, negb_true_iff, Z.eqb_neq. reflexivity.
Qed.

Lemma all_rescalable_Exists (ps : list (Z * Z * Z * Z)) :
  all_rescalable ps = false <-> Exists (fun p => clip_w p = 0) ps.
Proof.
  unfold all_rescalable. induction ps as [| p ps IH]; cbn [forallb].
  - split; [discriminate | by intros ?%Exists_nil].
  - rewrite andb_false_iff, IH, Exists_cons, negb_false_iff, Z.eqb_eq. reflexivity.
Qed.

Section VerticesCorrect.

Variable CFX_ONE : Z.
Variable CLUTTER_UNITS_TO_INT : Z -> Z.
Variable CFX_QMUL : Z -> Z -> Z.
Variable CFX_MUL : Z -> Z -> Z.
Variable CFX_DIV : Z -> Z -> Z.
Variable cogl_get_modelview_matrix : Cogl -> list Z.
Variable cogl_get_projection_matrix : Cogl -> list Z.
Variable cogl_get_viewport : Cogl -> list Z.

Local Abbreviation compose_chain := (compose_chain CFX_ONE CLUTTER_UNITS_TO_INT).
Local Abbreviation accumulate :=
  (_clutter_actor_apply_modelview_transform_recursive CFX_ONE CLUTTER_UNITS_TO_INT).

(** The code's matrix product is the specification's. *)
Lemma mtx_transform_spec (m : list Z) (p : Z * Z * Z * Z) :
  mtx_transform CFX_QMUL m p = transformPoint CFX_QMUL m p.
Proof.
  destruct p as [[[x y] z] w].
  unfold mtx_transform, transformPoint, row_times, M, entry.
  rewrite !nth_lookup. cbn [imap foldr compose Nat.mul Nat.add].
  by rewrite !add32_chain.
Qed.

(** The code's rescales are the specification's wherever the division
    is defined, and have no value elsewhere. *)
Lemma MTX_GL_SCALE_X_spec (x w v1 v2 : Z) :
  MTX_GL_SCALE_X CFX_ONE CFX_MUL CFX_DIV x w v1 v2
  = if w =? 0 then None else Some (deviceRescale CFX_ONE CFX_MUL CFX_DIV x w v1 v2).
Proof. reflexivity. Qed.

Lemma MTX_GL_SCALE_Y_spec (y w v1 v2 : Z) :
  MTX_GL_SCALE_Y CFX_ONE CFX_MUL CFX_DIV y w v1 v2
  = if w =? 0 then None
    else Some (deviceRescaleFlipped CFX_ONE CFX_MUL CFX_DIV y w v1 v2).
Proof.
  unfold MTX_GL_SCALE_Y, deviceRescaleFlipped. destruct (w =? 0); [reflexivity |].
  f_equal. unfold add32, sub32. by rewrite wrap32_plus_l.
Qed.

(** One corner of the second half: projection and rescale of entry [i],
    the other entries left as they are; no result when the projected
    fourth coordinate is zero. *)
Lemma project_vertex_at (mtx_p v : list Z) (i : nat) (verts : list ClutterVertex)
    (w : list Z) (x y z t : Z) :
  verts !! i = Some (mkVertex x y z) -> w !! i = Some t ->
  project_vertex CFX_ONE CFX_QMUL CFX_MUL CFX_DIV mtx_p v i verts w
  = if clip_w (transformPoint CFX_QMUL mtx_p (x, y, z, t)) =? 0 then None
    else Some (<[i := to_device CFX_ONE CFX_MUL CFX_DIV v
                         (transformPoint CFX_QMUL mtx_p (x, y, z, t))]> verts,
               <[i := clip_w (transformPoint CFX_QMUL mtx_p (x, y, z, t))]> w).
Proof.
  intros Hv Hw.
  pose proof (lookup_lt_Some _ _ _ Hv) as Hiv.
  pose proof (lookup_lt_Some _ _ _ Hw) as Hiw.
  unfold project_vertex.
  rewrite (list_lookup_total_correct _ _ _ Hv), (list_lookup_total_correct _ _ _ Hw).
  cbn [vertex_x vertex_y vertex_z]. rewrite mtx_transform_spec.
  destruct (transformPoint CFX_QMUL mtx_p (x, y, z, t)) as [[[px py] pz] pw].
  cbv beta iota zeta. unfold MTX_GL_SCALE_Z.
  repeat (rewrite list_lookup_total_insert_eq by (rewrite ?length_insert; lia);
          cbn [vertex_x vertex_y vertex_z]).
  rewrite MTX_GL_SCALE_X_spec. cbn [clip_w snd].
  destruct (pw =? 0) eqn:Hzero; [reflexivity |]. cbn [mbind option_bind].
  repeat (rewrite list_lookup_total_insert_eq by (rewrite ?length_insert; lia);
          cbn [vertex_x vertex_y vertex_z]).
  rewrite MTX_GL_SCALE_Y_spec, Hzero. cbn [mbind option_bind].
  repeat (rewrite list_lookup_total_insert_eq by (rewrite ?length_insert; lia);
          cbn [vertex_x vertex_y vertex_z]).
  rewrite MTX_GL_SCALE_X_spec, Hzero. cbn [mbind option_bind].
  by rewrite !list_insert_insert_eq.
Qed.

(** [clutter_actor_get_vertices] in one piece, whatever the fuel: the
    accumulated matrix is read once, each corner goes through it and the
    projection, and the four rescales come back only when each of them is
    defined. *)
Lemma get_vertices_unfold fuel h self verts gl :
  length verts = 4%nat ->
  clutter_actor_get_vertices CFX_ONE CLUTTER_UNITS_TO_INT CFX_QMUL CFX_MUL CFX_DIV
    cogl_get_modelview_matrix cogl_get_projection_matrix cogl_get_viewport
    fuel h self verts gl
  = a ← h !! self;
    gl_m ← accumulate fuel h self (gl ++ [cogl_push_matrix]);
    let gl' := gl_m ++ [cogl_pop_matrix] in
    let clip := clip_corners CFX_ONE CFX_QMUL (cogl_get_modelview_matrix gl_m)
                  (cogl_get_projection_matrix gl') a in
    if all_rescalable clip
    then Some (map (to_device CFX_ONE CFX_MUL CFX_DIV (cogl_get_viewport gl')) clip, gl')
    else None.
Proof.
  intros Hv.
  destruct verts as [| v0 [| v1 [| v2 [| v3 [| ? ?]]]]]; try discriminate Hv.
  unfold clutter_actor_get_vertices, clutter_actor_transform_vertices.
  destruct (h !! self) as [a |]; [| reflexivity]. cbn [mbind option_bind].
  change (issue cogl_push_matrix gl) with (gl ++ [cogl_push_matrix]).
  destruct (accumulate fuel h self (gl ++ [cogl_push_matrix])) as [gl_m |];
    [| reflexivity].
  cbn [mbind option_bind]. cbv zeta.
  unfold clip_corners, local_corners. cbn [map]. unfold to_clip.
  rewrite !mtx_transform_spec.
  set (m := transformPoint CFX_QMUL (cogl_get_modelview_matrix gl_m)).
  destruct (m (0, 0, 0, CFX_ONE)) as [[[x0 y0] z0] w0].
  destruct (m (sub32 (x2 (coords (priv a))) (x1 (coords (priv a))), 0, 0, CFX_ONE))
    as [[[x1' y1'] z1'] w1'].
  destruct (m (0, sub32 (y2 (coords (priv a))) (y1 (coords (priv a))), 0, CFX_ONE))
    as [[[x2' y2'] z2'] w2'].
  destruct (m (sub32 (x2 (coords (priv a))) (x1 (coords (priv a))),
               sub32 (y2 (coords (priv a))) (y1 (coords (priv a))), 0, CFX_ONE))
    as [[[x3' y3'] z3'] w3'].
  cbn [list_insert replicate mbind option_bind]. unfold issue.
  unfold all_rescalable. cbn [forallb].
  rewrite (project_vertex_at _ _ 0 _ _ x0 y0 z0 w0) by reflexivity.
  destruct (clip_w _ =? 0); cbn [negb andb mbind option_bind]; [reflexivity |].
  cbn [list_insert].
  rewrite (project_vertex_at _ _ 1 _ _ x1' y1' z1' w1') by reflexivity.
  destruct (clip_w _ =? 0); cbn [negb andb mbind option_bind]; [reflexivity |].
  cbn [list_insert].
  rewrite (project_vertex_at _ _ 2 _ _ x2' y2' z2' w2') by reflexivity.
  destruct (clip_w _ =? 0); cbn [negb andb mbind option_bind]; [reflexivity |].
  cbn [list_insert].
  rewrite (project_vertex_at _ _ 3 _ _ x3' y3' z3' w3') by reflexivity.
  destruct (clip_w _ =? 0); cbn [negb andb mbind option_bind]; reflexivity.
Qed.

(** C3: [clutter_actor_get_vertices] returns, in the caller's array of
    four, the local corners (0,0), (w,0), (0,h), (w,h) of the box, with
    w = x2-x1 and h = y2-y1, each taken on its own through the accumulated
    modelview matrix, then the projection matrix, then the device rescale,
    at the indices 0 (x1,y1), 1 (x2,y1), 2 (x1,y2), 3 (x2,y2).  The
    rescale divides by the projected fourth coordinate: the vertices are
    returned when it is not zero at any of the four corners, and the
    call does not come back when it is zero at one of them. *)
Theorem get_vertices_corners h self chain a verts gl fuel :
  lineage h self chain -> h !! self = Some a ->
  length verts = 4%nat -> (length chain <= fuel)%nat ->
  let gl_m := compose_chain chain (gl ++ [cogl_push_matrix]) in
  let gl' := gl_m ++ [cogl_pop_matrix] in
  let clip x y := to_clip CFX_QMUL (cogl_get_modelview_matrix gl_m)
                          (cogl_get_projection_matrix gl') (x, y, 0, CFX_ONE) in
  let device x y := to_device CFX_ONE CFX_MUL CFX_DIV (cogl_get_viewport gl') (clip x y) in
  let bw := sub32 (x2 (coords (priv a))) (x1 (coords (priv a))) in
  let bh := sub32 (y2 (coords (priv a))) (y1 (coords (priv a))) in
  let corners := [(0, 0); (bw, 0); (0, bh); (bw, bh)] in
  let found :=
    clutter_actor_get_vertices CFX_ONE CLUTTER_UNITS_TO_INT CFX_QMUL CFX_MUL CFX_DIV
      cogl_get_modelview_matrix cogl_get_projection_matrix cogl_get_viewport
      fuel h self verts gl in
  (Forall (fun corner => clip_w (clip corner.1 corner.2) <> 0) corners ->
   found = Some ([device 0 0; device bw 0; device 0 bh; device bw bh], gl'))
  /\ (Exists (fun corner => clip_w (clip corner.1 corner.2) = 0) corners ->
      found = None).
Proof.
  intros Hl Ha Hv Hfuel gl_m gl' clip device bw bh corners found.
  assert (Hfound : found
                   = if all_rescalable [clip 0 0; clip bw 0; clip 0 bh; clip bw bh]
                     then Some ([device 0 0; device bw 0; device 0 bh; device bw bh], gl')
                     else None).
  { subst found. rewrite (get_vertices_unfold fuel h self verts gl Hv), Ha.
    cbn [mbind option_bind].
    change (gl ++ [cogl_push_matrix]) with (issue cogl_push_matrix gl).
    rewrite (accumulate_along_lineage CFX_ONE CLUTTER_UNITS_TO_INT h self chain Hl
               fuel (issue cogl_push_matrix gl) Hfuel).
    reflexivity. }
  rewrite Hfound. split.
  - intros Hall.
    assert (Hok : all_rescalable [clip 0 0; clip bw 0; clip 0 bh; clip bw bh] = true).
    { apply all_rescalable_Forall. subst corners.
      rewrite !Forall_cons in Hall. destruct Hall as (H0 & H1 & H2 & H3 & _).
      rewrite !Forall_cons. repeat (split; [assumption |]). constructor. }
    by rewrite Hok.
  - intros Hsome.
    assert (Hno : all_rescalable [clip 0 0; clip bw 0; clip 0 bh; clip bw bh] = false).
    { apply all_rescalable_Exists. subst corners.
      rewrite !Exists_cons in Hsome. rewrite !Exists_cons.
      destruct Hsome as [? | [? | [? | [? | Hnil]]]]; [by auto .. |].
      by apply Exists_nil in Hnil. }
    by rewrite Hno.
Qed.

End VerticesCorrect.

Lemma get_vertices_corners_witness :
  let gl_m := compose_chain sample_CFX_ONE sample_UNITS_TO_INT
                [sample_root; sample_middle; sample_leaf] [cogl_push_matrix] in
  let gl' := gl_m ++ [cogl_pop_matrix] in
  let device x y :=
    to_device sample_CFX_ONE sample_CFX_MUL sample_CFX_DIV (sample_viewport gl')
      (to_clip sample_CFX_QMUL (sample_matrix gl_m) (sample_matrix gl')
         (x, y, 0, sample_CFX_ONE)) in
  clutter_actor_get_vertices sample_CFX_ONE sample_UNITS_TO_INT
    sample_CFX_QMUL sample_CFX_MUL sample_CFX_DIV
    sample_matrix sample_matrix sample_viewport
    3 sample_heap 3%positive (replicate 4 (mkVertex 0 0 0)) []
  = Some ([device 0 0; device 6553600 0; device 0 3276800; device 6553600 3276800], gl').
Proof.
  apply (get_vertices_corners sample_CFX_ONE sample_UNITS_TO_INT
           sample_CFX_QMUL sample_CFX_MUL sample_CFX_DIV
           sample_matrix sample_matrix sample_viewport
           sample_heap 3%positive [sample_root; sample_middle; sample_leaf] sample_leaf
           (replicate 4 (mkVertex 0 0 0)) [] 3%nat sample_lineage).
  - reflexivity.
  - reflexivity.
  - simpl. lia.
  - repeat (constructor; [vm_compute; discriminate |]). constructor.
Defined.

(** ** Opacity *)

Lemma opacity_step_in_range (pe o : Z) :
  0 <= pe <= 255 -> 0 <= o <= 255 -> 0 <= pe * o / 255 <= 255.
Proof.
  intros Hpe Ho. split.
  - apply Z.div_pos; nia.
  - apply Z.div_le_upper_bound; nia.
Qed.

Lemma opacity_step_machine (pe o : Z) :
  0 <= pe <= 255 -> 0 <= o <= 255 ->
  wrapu8 (wrap32 (pe * o) ÷ 255) = pe * o / 255.
Proof.
  intros Hpe Ho.
  assert (Hprod : 0 <= pe * o <= 65025) by nia.
  unfold wrap32. rewrite (Z.mod_small (pe * o + 2 ^ 31)) by lia.
  replace (pe * o + 2 ^ 31 - 2 ^ 31) with (pe * o) by lia.
  rewrite Z.quot_div_nonneg by lia.
  unfold wrapu8. apply Z.mod_small.
  pose proof (opacity_step_in_range pe o Hpe Ho). lia.
Qed.

Lemma effective_opacity_snoc (chain : list ClutterActor) (a : ClutterActor) :
  effective_opacity (chain ++ [a]) = effective_opacity chain * opacity (priv a) / 255.
Proof. unfold effective_opacity. by rewrite foldl_app. Qed.

Lemma effective_opacity_in_range (chain : list ClutterActor) :
  Forall opacity_in_range chain -> 0 <= effective_opacity chain <= 255.
Proof.
  induction chain as [| a chain IH] using rev_ind; intros Hall.
  - unfold effective_opacity. simpl. lia.
  - apply Forall_app in Hall as [Hchain Ha].
    rewrite effective_opacity_snoc.
    apply opacity_step_in_range; [by apply IH |].
    by inversion Ha.
Qed.

(** C4: along the chain from the root down to the actor, with every stored
    opacity a [guint8], [clutter_actor_get_opacity] returns (given fuel for
    the depth of the chain) the stepwise product of the chain: the stored
    opacity for an actor without parent, and otherwise the parent's
    effective opacity times the stored opacity, divided by 255. *)
Theorem get_opacity_multiplicative h self chain :
  lineage h self chain -> Forall opacity_in_range chain ->
  forall fuel, (length chain <= fuel)%nat ->
    clutter_actor_get_opacity fuel h self = Some (effective_opacity chain)
    /\ (forall a, h !! self = Some a -> parent_actor (priv a) = None ->
        clutter_actor_get_opacity fuel h self = Some (opacity (priv a)))
    /\ (forall a parent, h !! self = Some a -> parent_actor (priv a) = Some parent ->
        exists inherited,
          clutter_actor_get_opacity (pred fuel) h parent = Some inherited
          /\ clutter_actor_get_opacity fuel h self
             = Some (inherited * opacity (priv a) / 255)).
Proof.
  induction 1 as [self a Ha Hp | self a parent chain Ha Hp Hl IH]; intros Hall fuel Hfuel.
  - destruct fuel as [| fuel]; [simpl in Hfuel; lia |].
    assert (Hself : clutter_actor_get_opacity (S fuel) h self = Some (opacity (priv a))).
    { simpl. rewrite Ha. simpl. by rewrite Hp. }
    split; [| split].
    + rewrite Hself. unfold effective_opacity. simpl.
      by rewrite Z.mul_comm, Z.div_mul.
    + intros a' Ha' _. congruence.
    + intros a' parent Ha' Hp'. congruence.
  - rewrite length_app in Hfuel. simpl in Hfuel.
    destruct fuel as [| fuel]; [lia |].
    apply Forall_app in Hall as [Hchain Hown].
    assert (Ho : 0 <= opacity (priv a) <= 255) by (by inversion Hown).
    pose proof (effective_opacity_in_range chain Hchain) as Hrange.
    destruct (IH Hchain fuel ltac:(lia)) as [Hparent _].
    assert (Hself : clutter_actor_get_opacity (S fuel) h self
                    = Some (effective_opacity chain * opacity (priv a) / 255)).
    { simpl. rewrite Ha. simpl. rewrite Hp, Hparent. simpl.
      destruct (effective_opacity chain =? 255) eqn:Hfull; simpl.
      - apply Z.eqb_eq in Hfull. rewrite Hfull.
        by rewrite Z.mul_comm, Z.div_mul.
      - by rewrite opacity_step_machine. }
    split; [| split].
    + by rewrite effective_opacity_snoc.
    + intros a' Ha' Hp'. congruence.
    + intros a' parent' Ha' Hp'.
      assert (a' = a) by congruence. subst a'.
      assert (parent' = parent) by congruence. subst parent'.
      exists (effective_opacity chain). by split.
Qed.

Lemma get_opacity_multiplicative_witness :
  opacity (priv sample_root) = 255 /\ opacity (priv sample_middle) = 128
  /\ opacity (priv sample_leaf) = 255
  /\ clutter_actor_get_opacity 3 sample_heap 3%positive = Some 128.
Proof.
  repeat (split; [reflexivity |]).
  refine (proj1 (get_opacity_multiplicative sample_heap 3%positive
                   [sample_root; sample_middle; sample_leaf] sample_lineage _ 3%nat _)).
  - repeat (constructor; [unfold opacity_in_range; simpl; lia |]). constructor.
  - simpl. lia.
Defined.

(** ** Pick colours *)

Lemma wrap32_small (v : Z) : in_int32 v -> wrap32 v = v.
Proof.
  unfold in_int32, wrap32. intros Hv.
  rewrite Z.mod_small by lia. lia.
Qed.

Lemma shiftr_255_ones (k : Z) : 0 <= k <= 8 -> Z.shiftr 255 (8 - k) = Z.ones k.
Proof.
  intros Hk.
  assert (Hcases : k = 0 \/ k = 1 \/ k = 2 \/ k = 3 \/ k = 4 \/ k = 5 \/ k = 6
                   \/ k = 7 \/ k = 8) by lia.
  repeat (destruct Hcases as [-> | Hcases]; [reflexivity |]).
  subst k. reflexivity.
Qed.

Lemma field_bound (v k : Z) : 0 <= k <= 8 -> 0 <= (v mod 2 ^ k) * 2 ^ (8 - k) < 2 ^ 8.
Proof.
  intros Hk.
  assert (H2k : 0 < 2 ^ k) by (apply Z.pow_pos_nonneg; lia).
  assert (H28k : 0 < 2 ^ (8 - k)) by (apply Z.pow_pos_nonneg; lia).
  pose proof (Z.mod_pos_bound v (2 ^ k) H2k) as Hm.
  assert (Hprod : 2 ^ k * 2 ^ (8 - k) = 2 ^ 8).
  { rewrite <- Z.pow_add_r by lia. f_equal. lia. }
  split; [nia |]. rewrite <- Hprod. nia.
Qed.

(** One channel of the encoder: the low [k] bits of [v], moved up to the
    most significant bits of the byte. *)
Lemma encode_channel (v k : Z) :
  0 <= k <= 8 ->
  wrapu8 (wrapu32 (Z.shiftl (Z.land v (wrapu32 (Z.shiftr 255 (sub32 8 k)))) (sub32 8 k)))
  = (v mod 2 ^ k) * 2 ^ (8 - k).
Proof.
  intros Hk.
  unfold sub32. rewrite wrap32_small by (unfold in_int32; lia).
  rewrite shiftr_255_ones by lia.
  assert (Hones : 0 <= Z.ones k < 2 ^ 8).
  { rewrite Z.ones_equiv.
    assert (2 ^ k <= 2 ^ 8) by (apply Z.pow_le_mono_r; lia).
    assert (0 < 2 ^ k) by (apply Z.pow_pos_nonneg; lia). lia. }
  unfold wrapu32 at 2. rewrite (Z.mod_small (Z.ones k)) by lia.
  rewrite Z.land_ones by lia.
  rewrite Z.shiftl_mul_pow2 by lia.
  pose proof (field_bound v k Hk) as Hb.
  unfold wrapu32, wrapu8.
  rewrite (Z.mod_small _ (2 ^ 32)) by lia.
  apply Z.mod_small. lia.
Qed.

Lemma decode_channel (v k : Z) :
  0 <= k <= 8 -> Z.shiftr ((v mod 2 ^ k) * 2 ^ (8 - k)) (8 - k) = v mod 2 ^ k.
Proof.
  intros Hk. rewrite Z.shiftr_div_pow2 by lia.
  apply Z.div_mul. apply Z.pow_nonzero; lia.
Qed.

(** Three adjacent bit fields of a number that fits in them give the
    number back. *)
Lemma reassemble (r g b n : Z) :
  0 <= r -> 0 <= g -> 0 <= b -> 0 <= n < 2 ^ (r + g + b) ->
  Z.lor (Z.lor (Z.shiftl ((n / 2 ^ (g + b)) mod 2 ^ r) (g + b))
               (Z.shiftl ((n / 2 ^ b) mod 2 ^ g) b))
        (n mod 2 ^ b) = n.
Proof.
  intros Hr Hg Hb Hn.
  apply Z.bits_inj'. intros i Hi.
  rewrite !Z.lor_spec, !Z.shiftl_spec by lia.
  destruct (Z.lt_ge_cases i b) as [Hlow | Hnotlow].
  - rewrite (Z.testbit_neg_r _ (i - (g + b))) by lia.
    rewrite (Z.testbit_neg_r _ (i - b)) by lia.
    simpl. apply Z.mod_pow2_bits_low. lia.
  - rewrite (Z.mod_pow2_bits_high n b i) by lia.
    rewrite orb_false_r.
    destruct (Z.lt_ge_cases i (g + b)) as [Hmid | Hnotmid].
    + rewrite (Z.testbit_neg_r _ (i - (g + b))) by lia. simpl.
      rewrite Z.mod_pow2_bits_low by lia.
      rewrite Z.div_pow2_bits by lia. f_equal. lia.
    + rewrite (Z.mod_pow2_bits_high (n / 2 ^ b) g (i - b)) by lia.
      rewrite orb_false_r.
      destruct (Z.lt_ge_cases i (r + g + b)) as [Hhigh | Hout].
      * rewrite Z.mod_pow2_bits_low by lia.
        rewrite Z.div_pow2_bits by lia. f_equal. lia.
      * rewrite Z.mod_pow2_bits_high by lia.
        rewrite <- (Z.mod_small n (2 ^ (r + g + b))) by lia.
        symmetry. apply Z.mod_pow2_bits_high. lia.
Qed.

Lemma shiftr_nonneg_pow2 (n k : Z) : 0 <= k -> Z.shiftr n k = n / 2 ^ k.
Proof. intros Hk. by apply Z.shiftr_div_pow2. Qed.

Lemma encode_pick_color_fields (r g b id : Z) :
  0 <= r <= 8 -> 0 <= g <= 8 -> 0 <= b <= 8 ->
  encode_pick_color r g b id
  = mkColor (((id / 2 ^ (g + b)) mod 2 ^ r) * 2 ^ (8 - r))
            (((id / 2 ^ b) mod 2 ^ g) * 2 ^ (8 - g))
            ((id mod 2 ^ b) * 2 ^ (8 - b))
            255.
Proof.
  intros Hr Hg Hb. unfold encode_pick_color.
  rewrite !encode_channel by lia.
  unfold add32. rewrite wrap32_small by (unfold in_int32; lia).
  by rewrite !shiftr_nonneg_pow2 by lia.
Qed.

Lemma decode_encode_pick_color (r g b id : Z) :
  0 <= r <= 8 -> 0 <= g <= 8 -> 0 <= b <= 8 -> 0 <= id < 2 ^ (r + g + b) ->
  decode_pick_color r g b (encode_pick_color r g b id) = id.
Proof.
  intros Hr Hg Hb Hid.
  rewrite encode_pick_color_fields by lia.
  unfold decode_pick_color. cbn [red green blue].
  rewrite !decode_channel by lia.
  apply reassemble; lia.
Qed.

(** C5: for channel depths between 0 and 8 bits the encoder gives the blue
    channel the lowest [b] bits of the identifier, the green channel the
    next [g] bits and the red channel the next [r] bits, each moved up to
    the most significant bits of its byte; decoding under the same depths
    gives back every identifier that fits in r+g+b bits, so that no two
    such identifiers share a colour, and under (8,8,8) every identifier
    below 2^24 is recovered, among them 0, 1, 2^20 and 2^24-1. *)
Theorem pick_color_round_trip :
  (forall r g b id, 0 <= r <= 8 -> 0 <= g <= 8 -> 0 <= b <= 8 ->
     encode_pick_color r g b id
     = mkColor (((id / 2 ^ (g + b)) mod 2 ^ r) * 2 ^ (8 - r))
               (((id / 2 ^ b) mod 2 ^ g) * 2 ^ (8 - g))
               ((id mod 2 ^ b) * 2 ^ (8 - b))
               255)
  /\ (forall r g b id, 0 <= r <= 8 -> 0 <= g <= 8 -> 0 <= b <= 8 ->
        0 <= id < 2 ^ (r + g + b) ->
        decode_pick_color r g b (encode_pick_color r g b id) = id)
  /\ (forall r g b id id', 0 <= r <= 8 -> 0 <= g <= 8 -> 0 <= b <= 8 ->
        0 <= id < 2 ^ (r + g + b) -> 0 <= id' < 2 ^ (r + g + b) ->
        encode_pick_color r g b id = encode_pick_color r g b id' -> id = id')
  /\ (forall id, 0 <= id < 2 ^ 24 ->
        decode_pick_color 8 8 8 (encode_pick_color 8 8 8 id) = id)
  /\ decode_pick_color 8 8 8 (encode_pick_color 8 8 8 0) = 0
  /\ decode_pick_color 8 8 8 (encode_pick_color 8 8 8 1) = 1
  /\ decode_pick_color 8 8 8 (encode_pick_color 8 8 8 (2 ^ 20)) = 2 ^ 20
  /\ decode_pick_color 8 8 8 (encode_pick_color 8 8 8 (2 ^ 24 - 1)) = 2 ^ 24 - 1.
Proof.
  split; [exact encode_pick_color_fields |].
  split; [exact decode_encode_pick_color |].
  split.
  { intros r g b id id' Hr Hg Hb Hid Hid' Heq.
    rewrite <- (decode_encode_pick_color r g b id) by done.
    rewrite <- (decode_encode_pick_color r g b id') by done.
    by rewrite Heq. }
  split; [intros id Hid; apply decode_encode_pick_color; lia |].
  repeat split; reflexivity.
Qed.

Lemma pick_color_round_trip_witness :
  0 <= 1048576 < 2 ^ 24
  /\ encode_pick_color 8 8 8 1048576 = mkColor 16 0 0 255
  /\ decode_pick_color 8 8 8 (encode_pick_color 8 8 8 1048576) = 1048576.
Proof.
  split; [lia |]. split; [reflexivity |].
  apply (proj1 (proj2 (proj2 (proj2 pick_color_round_trip)))). lia.
Defined.

(** ** Event dispatch *)

Section EventsCorrect.

Variable HandlerState : Type.
Variable run_handlers :
  addr -> ActorSignal -> ClutterEvent -> HandlerState -> bool * HandlerState.

Local Abbreviation dispatch := (clutter_actor_event HandlerState run_handlers).

(** C6: in the capture phase only [captured-event] is emitted and its
    answer returned.  Otherwise [event] is emitted first; the signal of
    the event type is emitted next exactly when [event] was left unhandled
    and the type has a signal in the table (button press and release,
    scroll, key press and release, motion, enter, leave); the answer of
    the last emission is returned. *)
Theorem event_dispatch_order (actor : addr) (event : ClutterEvent) (st : Emission HandlerState) :
  (let '(captured, hs) :=
     run_handlers actor CAPTURED_EVENT event (handler_state HandlerState st) in
   dispatch actor event true st
   = (captured, mkEmission HandlerState hs
                  (emitted HandlerState st ++ [(actor, CAPTURED_EVENT)])))
  /\ (let '(general, hs) :=
        run_handlers actor EVENT event (handler_state HandlerState st) in
      match general, signal_num_of (event_type event) with
      | false, Some signal =>
          let '(specific, hs') := run_handlers actor signal event hs in
          dispatch actor event false st
          = (specific, mkEmission HandlerState hs'
                         (emitted HandlerState st ++ [(actor, EVENT); (actor, signal)]))
      | _, _ =>
          dispatch actor event false st
          = (general, mkEmission HandlerState hs
                        (emitted HandlerState st ++ [(actor, EVENT)]))
      end)
  /\ (forall signal,
        newly_emitted HandlerState st (snd (dispatch actor event false st))
                      [(actor, EVENT); (actor, signal)]
        <-> fst (run_handlers actor EVENT event (handler_state HandlerState st)) = false
            /\ signal_num_of (event_type event) = Some signal)
  /\ signal_num_of CLUTTER_BUTTON_PRESS = Some BUTTON_PRESS_EVENT
  /\ signal_num_of CLUTTER_BUTTON_RELEASE = Some BUTTON_RELEASE_EVENT
  /\ signal_num_of CLUTTER_SCROLL = Some SCROLL_EVENT
  /\ signal_num_of CLUTTER_KEY_PRESS = Some KEY_PRESS_EVENT
  /\ signal_num_of CLUTTER_KEY_RELEASE = Some KEY_RELEASE_EVENT
  /\ signal_num_of CLUTTER_MOTION = Some MOTION_EVENT
  /\ signal_num_of CLUTTER_ENTER = Some ENTER_EVENT
  /\ signal_num_of CLUTTER_LEAVE = Some LEAVE_EVENT
  /\ (forall ty, ty ∈ [CLUTTER_NOTHING; CLUTTER_STAGE_STATE; CLUTTER_DESTROY_NOTIFY;
                       CLUTTER_CLIENT_MESSAGE; CLUTTER_DELETE] ->
                 signal_num_of ty = None).
Proof.
  assert (Hcapture :
    let '(captured, hs) :=
      run_handlers actor CAPTURED_EVENT event (handler_state HandlerState st) in
    dispatch actor event true st
    = (captured, mkEmission HandlerState hs
                   (emitted HandlerState st ++ [(actor, CAPTURED_EVENT)]))).
  { unfold clutter_actor_event, bind, ret, g_signal_emit_retval.
    by destruct (run_handlers actor CAPTURED_EVENT event _) as [captured hs]. }
  assert (Hbubble :
    let '(general, hs) :=
      run_handlers actor EVENT event (handler_state HandlerState st) in
    match general, signal_num_of (event_type event) with
    | false, Some signal =>
        let '(specific, hs') := run_handlers actor signal event hs in
        dispatch actor event false st
        = (specific, mkEmission HandlerState hs'
                       (emitted HandlerState st ++ [(actor, EVENT); (actor, signal)]))
    | _, _ =>
        dispatch actor event false st
        = (general, mkEmission HandlerState hs
                      (emitted HandlerState st ++ [(actor, EVENT)]))
    end).
  { unfold clutter_actor_event, bind, ret, g_signal_emit_retval.
    destruct (run_handlers actor EVENT event _) as [general hs].
    destruct general; cbn [negb]; [reflexivity |].
    destruct (signal_num_of (event_type event)) as [signal |]; [| reflexivity].
    cbn [handler_state emitted].
    destruct (run_handlers actor signal event hs) as [specific hs'].
    by rewrite <- app_assoc. }
  split; [exact Hcapture |]. split; [exact Hbubble |].
  split.
  - intros signal. unfold newly_emitted.
    destruct (run_handlers actor EVENT event _) as [general hs]. cbn [fst].
    destruct general.
    + rewrite Hbubble. cbn [snd emitted]. split.
      * intros Heq. apply app_inv_head in Heq. discriminate.
      * intros [? _]. discriminate.
    + destruct (signal_num_of (event_type event)) as [signal' |].
      * destruct (run_handlers actor signal' event hs) as [specific hs'].
        rewrite Hbubble. cbn [snd emitted]. split.
        -- intros Heq. apply app_inv_head in Heq. split; [reflexivity | congruence].
        -- intros [_ Heq]. congruence.
      * rewrite Hbubble. cbn [snd emitted]. split.
        -- intros Heq. apply app_inv_head in Heq. discriminate.
        -- intros [_ ?]. discriminate.
  - repeat (split; [reflexivity |]).
    intros ty Hty. repeat (apply elem_of_cons in Hty as [-> | Hty]; [reflexivity |]).
    by apply elem_of_nil in Hty.
Qed.

End EventsCorrect.

(** ** Setters called with the stored value *)

Lemma store_same (self : addr) (a : ClutterActor) (w : World) :
  heap w !! self = Some a -> store self a w = w.
Proof.
  intros Ha. unfold store, with_heap. rewrite insert_id by done. by destruct w.
Qed.

Lemma with_priv_same (f : ClutterActorPrivate -> ClutterActorPrivate) (a : ClutterActor) :
  f (priv a) = priv a -> with_priv f a = a.
Proof. intros Hf. unfold with_priv. rewrite Hf. by destruct a. Qed.

Lemma request_coords_same_box (self : addr) (a : ClutterActor) (w : World) :
  heap w !! self = Some a ->
  clutter_actor_request_coords self (coords (priv a)) w = w.
Proof.
  intros Ha. unfold clutter_actor_request_coords. rewrite Ha.
  by rewrite !Z.eqb_refl.
Qed.

Lemma box_eta (box : ClutterActorBox) : mkBox (x1 box) (y1 box) (x2 box) (y2 box) = box.
Proof. by destruct box. Qed.

Section SettersSameValue.

Variable CLUTTER_UNITS_FROM_INT : Z -> Z.
Variable CLUTTER_IS_CONTAINER : addr -> bool.

Lemma set_position_same (self : addr) (a : ClutterActor) (w : World) (x y : Z) :
  heap w !! self = Some a ->
  in_int32 (x2 (coords (priv a))) -> in_int32 (y2 (coords (priv a))) ->
  CLUTTER_UNITS_FROM_INT x = x1 (coords (priv a)) ->
  CLUTTER_UNITS_FROM_INT y = y1 (coords (priv a)) ->
  clutter_actor_set_position CLUTTER_UNITS_FROM_INT self x y w = w.
Proof.
  intros Ha Hx2 Hy2 Hx Hy. unfold clutter_actor_set_position. rewrite Ha.
  unfold clutter_actor_query_coords. cbn [x1 y1 x2 y2]. rewrite Hx, Hy.
  unfold add32, sub32. rewrite !Z.sub_diag. change (wrap32 0) with 0.
  rewrite !Z.add_0_r, !wrap32_small by assumption.
  rewrite box_eta. by apply request_coords_same_box.
Qed.

Lemma set_size_same (self : addr) (a : ClutterActor) (w : World) (width height : Z) :
  heap w !! self = Some a ->
  (0 < width -> add32 (x1 (coords (priv a))) (CLUTTER_UNITS_FROM_INT width)
                = x2 (coords (priv a))) ->
  (0 < height -> add32 (y1 (coords (priv a))) (CLUTTER_UNITS_FROM_INT height)
                 = y2 (coords (priv a))) ->
  clutter_actor_set_size CLUTTER_UNITS_FROM_INT self width height w = w.
Proof.
  intros Ha Hw Hh. unfold clutter_actor_set_size, clutter_actor_set_size_internal.
  rewrite Ha. unfold clutter_actor_query_coords. cbn [x1 y1 x2 y2].
  assert (Hbx : (if 0 <? width
                 then add32 (x1 (coords (priv a))) (CLUTTER_UNITS_FROM_INT width)
                 else x2 (coords (priv a))) = x2 (coords (priv a))).
  { destruct (0 <? width) eqn:E; [apply Hw; lia | reflexivity]. }
  assert (Hby : (if 0 <? height
                 then add32 (y1 (coords (priv a))) (CLUTTER_UNITS_FROM_INT height)
                 else y2 (coords (priv a))) = y2 (coords (priv a))).
  { destruct (0 <? height) eqn:E; [apply Hh; lia | reflexivity]. }
  rewrite Hbx, Hby, box_eta. by apply request_coords_same_box.
Qed.

Lemma set_depth_same (self : addr) (a : ClutterActor) (w : World) :
  heap w !! self = Some a ->
  clutter_actor_set_depth CLUTTER_IS_CONTAINER self (z (priv a)) w = w.
Proof.
  intros Ha. unfold clutter_actor_set_depth. rewrite Ha. by rewrite Z.eqb_refl.
Qed.

End SettersSameValue.

Lemma set_opacity_same (self : addr) (a : ClutterActor) (w : World) (o : Z) :
  heap w !! self = Some a ->
  wrapu8 o = opacity (priv a) ->
  clutter_actor_set_opacity self o w
  = if CLUTTER_ACTOR_IS_VISIBLE a then clutter_actor_queue_redraw self w else w.
Proof.
  intros Ha Ho. unfold clutter_actor_set_opacity. rewrite Ha. cbv zeta. rewrite Ho.
  rewrite with_priv_same by (by destruct a as [? ? ? ? ? ? []]).
  by rewrite store_same.
Qed.

Lemma set_scalex_same (self : addr) (a : ClutterActor) (w : World) :
  heap w !! self = Some a ->
  clutter_actor_set_scalex self (scale_x (priv a)) (scale_y (priv a)) w
  = let w := emit (g_object_notify self "scale-y")
                  (emit (g_object_notify self "scale-x") w) in
    if CLUTTER_ACTOR_IS_VISIBLE a then clutter_actor_queue_redraw self w else w.
Proof.
  intros Ha. unfold clutter_actor_set_scalex. rewrite Ha.
  rewrite !with_priv_same by (by destruct a as [? ? ? ? ? ? []]).
  rewrite (store_same self a w) by done.
  by rewrite store_same.
Qed.

Lemma set_rotationx_same (self : addr) (a : ClutterActor) (w : World)
    (axis : ClutterRotateAxis) :
  heap w !! self = Some a ->
  (let p := priv a in
   match axis with
   | CLUTTER_X_AXIS => clutter_actor_set_rotationx self axis (rxang p) 0 (rxy p) (rxz p) w
   | CLUTTER_Y_AXIS => clutter_actor_set_rotationx self axis (ryang p) (ryx p) 0 (ryz p) w
   | CLUTTER_Z_AXIS => clutter_actor_set_rotationx self axis (rzang p) (rzx p) (rzy p) 0 w
   end)
  = if CLUTTER_ACTOR_IS_VISIBLE a then clutter_actor_queue_redraw self w else w.
Proof.
  intros Ha. cbv zeta. unfold clutter_actor_set_rotationx.
  destruct axis; rewrite Ha;
    rewrite with_priv_same by (by destruct a as [? ? ? ? ? ? []]);
    by rewrite store_same.
Qed.

Lemma set_clip_same (self : addr) (a : ClutterActor) (w : World) :
  heap w !! self = Some a -> has_clip (priv a) = true ->
  (let c := clip (priv a) in
   clutter_actor_set_clip self (geometry_x c) (geometry_y c)
                          (geometry_width c) (geometry_height c) w)
  = emit (g_object_notify self "clip") (emit (g_object_notify self "has-clip") w).
Proof.
  intros Ha Hclip. cbv zeta. unfold clutter_actor_set_clip. rewrite Ha.
  rewrite with_priv_same.
  - by rewrite store_same.
  - destruct (priv a) as [? [] ? ? ? ? ? ? ? ? ? ? ? ? ? ? ? ? ? ? ?].
    simpl in *. by subst.
Qed.

(** C7 (as amended): called with the value the actor already stores, the
    geometry, position and size setters and the depth setter leave the
    whole state as it was, so that no redraw is scheduled and nothing is
    notified.  The other setters have no such check: the scale setter
    notifies scale-x and scale-y and the clip setter has-clip and clip in
    any case, and the scale, opacity and rotation setters ask for a redraw
    whenever the actor is visible. *)
Theorem same_value_setters
    (CLUTTER_UNITS_FROM_INT : Z -> Z) (CLUTTER_IS_CONTAINER : addr -> bool)
    (w : World) (self : addr) (a : ClutterActor) :
  heap w !! self = Some a ->
  let p := priv a in
  clutter_actor_request_coords self (coords p) w = w
  /\ (forall geometry,
        mkBox (CLUTTER_UNITS_FROM_INT (geometry_x geometry))
              (CLUTTER_UNITS_FROM_INT (geometry_y geometry))
              (CLUTTER_UNITS_FROM_INT (add32 (geometry_x geometry) (geometry_width geometry)))
              (CLUTTER_UNITS_FROM_INT (add32 (geometry_y geometry) (geometry_height geometry)))
        = coords p ->
        clutter_actor_set_geometry CLUTTER_UNITS_FROM_INT self geometry w = w)
  /\ (forall x y,
        in_int32 (x2 (coords p)) -> in_int32 (y2 (coords p)) ->
        CLUTTER_UNITS_FROM_INT x = x1 (coords p) ->
        CLUTTER_UNITS_FROM_INT y = y1 (coords p) ->
        clutter_actor_set_position CLUTTER_UNITS_FROM_INT self x y w = w)
  /\ (forall width height,
        (0 < width ->
         add32 (x1 (coords p)) (CLUTTER_UNITS_FROM_INT width) = x2 (coords p)) ->
        (0 < height ->
         add32 (y1 (coords p)) (CLUTTER_UNITS_FROM_INT height) = y2 (coords p)) ->
        clutter_actor_set_size CLUTTER_UNITS_FROM_INT self width height w = w)
  /\ clutter_actor_set_depth CLUTTER_IS_CONTAINER self (z p) w = w
  /\ clutter_actor_set_scalex self (scale_x p) (scale_y p) w
     = (let w := emit (g_object_notify self "scale-y")
                      (emit (g_object_notify self "scale-x") w) in
        if CLUTTER_ACTOR_IS_VISIBLE a then clutter_actor_queue_redraw self w else w)
  /\ (forall o,
        wrapu8 o = opacity p ->
        clutter_actor_set_opacity self o w
        = (if CLUTTER_ACTOR_IS_VISIBLE a then clutter_actor_queue_redraw self w else w))
  /\ clutter_actor_set_rotationx self CLUTTER_X_AXIS (rxang p) 0 (rxy p) (rxz p) w
     = (if CLUTTER_ACTOR_IS_VISIBLE a then clutter_actor_queue_redraw self w else w)
  /\ clutter_actor_set_rotationx self CLUTTER_Y_AXIS (ryang p) (ryx p) 0 (ryz p) w
     = (if CLUTTER_ACTOR_IS_VISIBLE a then clutter_actor_queue_redraw self w else w)
  /\ clutter_actor_set_rotationx self CLUTTER_Z_AXIS (rzang p) (rzx p) (rzy p) 0 w
     = (if CLUTTER_ACTOR_IS_VISIBLE a then clutter_actor_queue_redraw self w else w)
  /\ (has_clip p = true ->
      clutter_actor_set_clip self (geometry_x (clip p)) (geometry_y (clip p))
                             (geometry_width (clip p)) (geometry_height (clip p)) w
      = emit (g_object_notify self "clip") (emit (g_object_notify self "has-clip") w)).
Proof.
  intros Ha p. subst p.
  split; [by apply request_coords_same_box |].
  split.
  { intros geometry Hbox. unfold clutter_actor_set_geometry. rewrite Hbox.
    by apply request_coords_same_box. }
  split; [intros x y; by apply set_position_same |].
  split; [intros width height; by apply set_size_same |].
  split; [by apply set_depth_same |].
  split; [by apply set_scalex_same |].
  split; [intros o; by apply set_opacity_same |].
  split; [exact (set_rotationx_same self a w CLUTTER_X_AXIS Ha) |].
  split; [exact (set_rotationx_same self a w CLUTTER_Y_AXIS Ha) |].
  split; [exact (set_rotationx_same self a w CLUTTER_Z_AXIS Ha) |].
  intros Hclip. by apply set_clip_same.
Qed.

Lemma same_value_setters_witness :
  heap sample_world !! 3%positive = Some sample_leaf
  /\ clutter_actor_request_coords 3%positive (coords (priv sample_leaf)) sample_world
     = sample_world
  /\ clutter_actor_set_depth (fun _ => true) 3%positive (z (priv sample_leaf)) sample_world
     = sample_world.
Proof.
  pose proof (same_value_setters sample_UNITS_FROM_INT (fun _ => true) sample_world
                3%positive sample_leaf eq_refl) as H.
  split; [reflexivity |].
  split; [exact (proj1 H) | exact (proj1 (proj2 (proj2 (proj2 (proj2 H)))))].
Defined.

(** C7 (as claimed) fails: on a visible actor with no repaint pending,
    setting the opacity to the stored opacity schedules a redraw, and
    setting the scale to the stored scale notifies both scale properties
    and schedules a redraw. *)
Lemma visible_same_value_setters_not_silent :
  heap sample_world !! 3%positive = Some sample_leaf
  /\ CLUTTER_ACTOR_IS_VISIBLE sample_leaf = true
  /\ ~ silent sample_world
         (clutter_actor_set_opacity 3%positive (opacity (priv sample_leaf)) sample_world)
  /\ main_loop (clutter_actor_set_opacity 3%positive (opacity (priv sample_leaf))
                                          sample_world)
     = mkMainLoop 2 [1%positive]
  /\ ~ silent sample_world
         (clutter_actor_set_scalex 3%positive (scale_x (priv sample_leaf))
                                   (scale_y (priv sample_leaf)) sample_world)
  /\ effects (clutter_actor_set_scalex 3%positive (scale_x (priv sample_leaf))
                                       (scale_y (priv sample_leaf)) sample_world)
     = [g_object_notify 3%positive "scale-x"; g_object_notify 3%positive "scale-y"].
Proof.
  split; [reflexivity |]. split; [reflexivity |].
  split.
  { intros (_ & _ & Htoken). vm_compute in Htoken. discriminate. }
  split; [reflexivity |].
  split.
  { intros (Heff & _ & _). vm_compute in Heff. discriminate. }
  reflexivity.
Qed.

(** ** Redraw coalescing *)

Lemma queue_redraw_pending (self : addr) (w : World) :
  update_idle (context w) <> 0 -> clutter_actor_queue_redraw self w = w.
Proof.
  intros Hpending. unfold clutter_actor_queue_redraw.
  by rewrite (proj2 (Z.eqb_neq _ _) Hpending).
Qed.

Lemma queue_redraw_idle (self : addr) (w : World) :
  update_idle (context w) = 0 ->
  clutter_actor_queue_redraw self w
  = with_context (with_update_idle (Z.pos (next_source_id (main_loop w))) (context w))
      (with_main_loop
         (mkMainLoop (Pos.succ (next_source_id (main_loop w)))
                     (idle_sources (main_loop w) ++ [next_source_id (main_loop w)])) w).
Proof.
  intros Hidle. unfold clutter_actor_queue_redraw. by rewrite Hidle.
Qed.

Lemma queue_redraws_pending (actors : list addr) (w : World) :
  update_idle (context w) <> 0 -> queue_redraws actors w = w.
Proof.
  intros Hpending. induction actors as [| self actors IH]; [reflexivity |].
  unfold queue_redraws in *. simpl. by rewrite queue_redraw_pending.
Qed.

(** A burst of requests on an idle scheduler registers one callback. *)
Lemma queue_redraws_from_idle (actors : list addr) (w : World) :
  update_idle (context w) = 0 -> idle_sources (main_loop w) = [] -> actors <> [] ->
  idle_sources (main_loop (queue_redraws actors w)) = [next_source_id (main_loop w)]
  /\ update_idle (context (queue_redraws actors w)) = Z.pos (next_source_id (main_loop w))
  /\ next_source_id (main_loop (queue_redraws actors w))
     = Pos.succ (next_source_id (main_loop w)).
Proof.
  intros Hidle Hnone Hactors.
  destruct actors as [| self actors]; [done |].
  unfold queue_redraws. simpl. fold (queue_redraws actors (clutter_actor_queue_redraw self w)).
  rewrite queue_redraws_pending.
  - rewrite queue_redraw_idle by done. simpl. by rewrite Hnone.
  - rewrite queue_redraw_idle by done. simpl. discriminate.
Qed.

Lemma queue_redraw_invariant (self : addr) (w : World) :
  repaint_invariant w -> repaint_invariant (clutter_actor_queue_redraw self w).
Proof.
  intros [[Hidle Hnone] | (tag & Htoken & Hsrc & Hfresh)].
  - right. exists (next_source_id (main_loop w)).
    rewrite queue_redraw_idle by done. simpl. rewrite Hnone.
    repeat split. lia.
  - rewrite queue_redraw_pending by (rewrite Htoken; discriminate).
    right. by exists tag.
Qed.

Lemma queue_redraws_invariant (actors : list addr) (w : World) :
  repaint_invariant w -> repaint_invariant (queue_redraws actors w).
Proof.
  revert w. induction actors as [| self actors IH]; intros w Hinv; [done |].
  unfold queue_redraws. simpl. apply IH. by apply queue_redraw_invariant.
Qed.

Lemma g_source_remove_only (tag : positive) (m : GMainContext) :
  idle_sources m = [tag] -> idle_sources (g_source_remove (Z.pos tag) m) = [].
Proof.
  intros Hsrc. unfold g_source_remove. simpl. rewrite Hsrc.
  by rewrite filter_cons_False by (intros H; by apply H).
Qed.

Lemma g_source_remove_other (tag tag' : positive) (m : GMainContext) :
  tag <> tag' -> idle_sources m = [tag'] ->
  idle_sources (g_source_remove (Z.pos tag) m) = [tag'].
Proof.
  intros Hne Hsrc. unfold g_source_remove. simpl. rewrite Hsrc.
  by rewrite filter_cons_True by (intros [=]; congruence).
Qed.

Lemma g_source_remove_none (tag : Z) (m : GMainContext) :
  idle_sources m = [] -> idle_sources (g_source_remove tag m) = [].
Proof. intros Hsrc. unfold g_source_remove. simpl. by rewrite Hsrc. Qed.

Lemma dispatch_idle_invariant (during : list addr) (tag : positive) (w : World) :
  repaint_invariant w -> tag ∈ idle_sources (main_loop w) ->
  repaint_invariant (g_main_dispatch_idle (queue_redraws during) tag w).
Proof.
  intros [[_ Hnone] | (tag' & Htoken & Hsrc & Hfresh)] Htag.
  { rewrite Hnone in Htag. by apply elem_of_nil in Htag. }
  rewrite Hsrc in Htag. apply list_elem_of_singleton in Htag. subst tag'.
  unfold g_main_dispatch_idle, redraw_update_idle.
  rewrite Htoken. cbn [Z.eqb negb].
  set (w1 := with_context _ _).
  assert (Hidle1 : update_idle (context w1) = 0) by reflexivity.
  assert (Hnone1 : idle_sources (main_loop w1) = []).
  { subst w1. simpl. by apply g_source_remove_only. }
  assert (Hnext1 : next_source_id (main_loop w1) = next_source_id (main_loop w))
    by reflexivity.
  change (repaint_invariant
            (with_main_loop
               (g_source_remove (Z.pos tag) (main_loop (queue_redraws during w1)))
               (queue_redraws during w1))).
  destruct during as [| self during].
  - change (queue_redraws [] w1) with w1. left. split; [done |].
    change (idle_sources (g_source_remove (Z.pos tag) (main_loop w1)) = []).
    by apply g_source_remove_none.
  - destruct (queue_redraws_from_idle (self :: during) w1 Hidle1 Hnone1 ltac:(done))
      as (Hsrc2 & Htoken2 & Hnext2).
    set (w2 := queue_redraws (self :: during) w1) in *.
    right. exists (next_source_id (main_loop w)).
    change (update_idle (context w2) = Z.pos (next_source_id (main_loop w))
            /\ idle_sources (g_source_remove (Z.pos tag) (main_loop w2))
               = [next_source_id (main_loop w)]
            /\ (next_source_id (main_loop w) < next_source_id (main_loop w2))%positive).
    rewrite Htoken2, Hnext2, Hnext1.
    split; [done |]. split; [| lia].
    apply g_source_remove_other; [lia | by rewrite Hsrc2, Hnext1].
Qed.

Lemma reachable_invariant (w0 w : World) :
  repaint_invariant w0 -> reachable w0 w -> repaint_invariant w.
Proof.
  intros Hinv. induction 1 as [| w self _ IH | w tag during _ IH Htag].
  - done.
  - by apply queue_redraw_invariant.
  - by apply dispatch_idle_invariant.
Qed.

(** C8: from a state with no repaint pending, any non-empty burst of
    redraw requests attaches exactly one repaint callback; a request
    attaches a callback only when the remembered source id is zero; the
    callback clears the id before it repaints; and in every state that
    requests and firings can reach at most one repaint callback is
    attached, and one is attached exactly when the id is non-zero. *)
Theorem redraws_are_coalesced (w0 : World) :
  update_idle (context w0) = 0 -> idle_sources (main_loop w0) = [] ->
  (forall actors, actors <> [] ->
     idle_sources (main_loop (queue_redraws actors w0)) = [next_source_id (main_loop w0)]
     /\ next_source_id (main_loop (queue_redraws actors w0))
        = Pos.succ (next_source_id (main_loop w0)))
  /\ (forall self w,
        (update_idle (context w) = 0 ->
         idle_sources (main_loop (clutter_actor_queue_redraw self w))
         = idle_sources (main_loop w) ++ [next_source_id (main_loop w)])
        /\ (update_idle (context w) <> 0 -> clutter_actor_queue_redraw self w = w))
  /\ (forall clutter_redraw w,
        exists w',
          redraw_update_idle clutter_redraw w = (false, clutter_redraw w')
          /\ update_idle (context w') = 0
          /\ forall s, s ∈ idle_sources (main_loop w') ->
                      Z.pos s <> update_idle (context w))
  /\ (forall w, reachable w0 w ->
        (length (idle_sources (main_loop w)) <= 1)%nat
        /\ (update_idle (context w) = 0 <-> idle_sources (main_loop w) = [])).
Proof.
  intros Hidle Hnone.
  split.
  { intros actors Hactors.
    destruct (queue_redraws_from_idle actors w0 Hidle Hnone Hactors) as (? & _ & ?).
    by split. }
  split.
  { intros self w. split.
    - intros Hidle'. by rewrite queue_redraw_idle.
    - apply queue_redraw_pending. }
  split.
  { intros clutter_redraw w. unfold redraw_update_idle.
    destruct (update_idle (context w) =? 0) eqn:Htoken; cbn [negb].
    - apply Z.eqb_eq in Htoken. exists w. repeat split; [done |].
      intros s _. rewrite Htoken. discriminate.
    - eexists. split; [reflexivity |]. split; [reflexivity |].
      intros s Hs. simpl in Hs. apply list_elem_of_filter in Hs. tauto. }
  intros w Hreach.
  assert (Hinv : repaint_invariant w).
  { apply (reachable_invariant w0); [by left | done]. }
  destruct Hinv as [[Htoken Hsrc] | (tag & Htoken & Hsrc & _)]; rewrite Htoken, Hsrc.
  - simpl. split; [lia | done].
  - simpl. split; [lia |]. split; discriminate.
Qed.

Lemma redraws_are_coalesced_witness :
  update_idle (context sample_world) = 0
  /\ idle_sources (main_loop sample_world) = []
  /\ idle_sources
       (main_loop (queue_redraws [1; 2; 3; 1; 2]%positive sample_world)) = [1%positive]
  /\ next_source_id
       (main_loop (queue_redraws [1; 2; 3; 1; 2]%positive sample_world)) = 2%positive.
Proof.
  split; [reflexivity |]. split; [reflexivity |].
  apply (proj1 (redraws_are_coalesced sample_world eq_refl eq_refl)
               [1; 2; 3; 1; 2]%positive).
  discriminate.
Defined.

(** ** Rejected parent changes *)

(** C9: on an actor that already has a parent, or on a toplevel actor,
    [clutter_actor_set_parent] returns with one diagnostic logged and
    nothing else changed: the store (and with it the actor's parent link),
    the identifier table and the rest of the context, the main loop and
    the backend are as before; with a valid parent other than the actor
    itself the diagnostic is a warning. *)
Theorem set_parent_rejected (w : World) (self parent : addr) (a : ClutterActor) :
  heap w !! self = Some a ->
  parent_actor (priv a) <> None \/ CLUTTER_ACTOR_IS_TOPLEVEL a = true ->
  let w' := clutter_actor_set_parent self parent w in
  (exists e, is_diagnostic e /\ w' = emit e w)
  /\ (is_Some (heap w !! parent) -> self <> parent ->
      exists message, w' = emit (g_warning message) w)
  /\ heap w' = heap w
  /\ heap w' !! self = Some a
  /\ actor_hash (context w') = actor_hash (context w)
  /\ context w' = context w
  /\ main_loop w' = main_loop w
  /\ cogl w' = cogl w.
Proof.
  intros Ha Hrejected w'.
  assert (Hemit : (exists e, is_diagnostic e /\ w' = emit e w)
                  /\ (is_Some (heap w !! parent) -> self <> parent ->
                      exists message, w' = emit (g_warning message) w)).
  { subst w'. unfold clutter_actor_set_parent. rewrite Ha.
    destruct (heap w !! parent) as [p |] eqn:Hp.
    - destruct (bool_decide (self = parent)) eqn:Hsame.
      + apply bool_decide_eq_true in Hsame. split; [| done].
        eexists. split; [| reflexivity]. exact I.
      + destruct (bool_decide (parent_actor (priv a) ≠ None)) eqn:Hhas.
        * split; [| eauto]. eexists. split; [| reflexivity]. exact I.
        * apply bool_decide_eq_false in Hhas.
          destruct Hrejected as [Hparent | Htop]; [done |].
          rewrite Htop. split; [| eauto]. eexists. split; [| reflexivity]. exact I.
    - split; [| by intros [? ?]]. eexists. split; [| reflexivity]. exact I. }
  destruct Hemit as [(e & He & Hw') Hwarning].
  split; [by exists e |]. split; [done |].
  rewrite Hw'. by repeat split.
Qed.

Lemma set_parent_rejected_witness :
  heap sample_world !! 3%positive = Some sample_leaf
  /\ parent_actor (priv sample_leaf) = Some 2%positive
  /\ heap (clutter_actor_set_parent 3%positive 1%positive sample_world)
     = heap sample_world
  /\ context (clutter_actor_set_parent 3%positive 1%positive sample_world)
     = context sample_world.
Proof.
  assert (Hparent : parent_actor (priv sample_leaf) <> None \/
                    CLUTTER_ACTOR_IS_TOPLEVEL sample_leaf = true).
  { left. vm_compute. discriminate. }
  assert (Hself : heap sample_world !! 3%positive = Some sample_leaf) by reflexivity.
  pose proof (set_parent_rejected sample_world 3%positive 1%positive sample_leaf
                Hself Hparent) as H.
  split; [exact Hself |]. split; [reflexivity |].
  split; [exact (proj1 (proj2 (proj2 H))) |].
  exact (proj1 (proj2 (proj2 (proj2 (proj2 (proj2 H)))))).
Defined.

(** ** Anchor point *)

Lemma restore_anchor (a : ClutterActor) (ax ay : Z) :
  with_priv (with_anchor_x (anchor_x (priv a)))
    (with_priv (with_anchor_y (anchor_y (priv a)))
       (with_priv (with_anchor_y ay) (with_priv (with_anchor_x ax) a))) = a.
Proof. by destruct a as [? ? ? ? ? ? []]. Qed.

(** C10: [clutter_actor_set_anchor_point] and
    [clutter_actor_set_anchor_pointu] replace the actor by one that
    differs in [anchor_x] and [anchor_y] only (putting the old anchor back
    gives the old actor); every other actor, the effects emitted so far
    (so nothing is notified), the context and the main loop (so no redraw
    is queued) and the backend stay as they were, whatever the new anchor
    and whether or not the actor is visible. *)
Theorem set_anchor_point_frame
    (CLUTTER_UNITS_FROM_DEVICE : Z -> Z) (w : World) (self : addr) (a : ClutterActor)
    (ax ay : Z) :
  heap w !! self = Some a ->
  (let w' := clutter_actor_set_anchor_point CLUTTER_UNITS_FROM_DEVICE self ax ay w in
   exists a',
     heap w' = <[self := a']> (heap w)
     /\ anchor_x (priv a') = CLUTTER_UNITS_FROM_DEVICE ax
     /\ anchor_y (priv a') = CLUTTER_UNITS_FROM_DEVICE ay
     /\ with_priv (with_anchor_x (anchor_x (priv a)))
          (with_priv (with_anchor_y (anchor_y (priv a))) a') = a
     /\ (forall other, other <> self -> heap w' !! other = heap w !! other)
     /\ effects w' = effects w /\ context w' = context w
     /\ main_loop w' = main_loop w /\ cogl w' = cogl w)
  /\ (let w' := clutter_actor_set_anchor_pointu self ax ay w in
      exists a',
        heap w' = <[self := a']> (heap w)
        /\ anchor_x (priv a') = ax
        /\ anchor_y (priv a') = ay
        /\ with_priv (with_anchor_x (anchor_x (priv a)))
             (with_priv (with_anchor_y (anchor_y (priv a))) a') = a
        /\ (forall other, other <> self -> heap w' !! other = heap w !! other)
        /\ effects w' = effects w /\ context w' = context w
        /\ main_loop w' = main_loop w /\ cogl w' = cogl w).
Proof.
  intros Ha. split; cbv zeta.
  - unfold clutter_actor_set_anchor_point. rewrite Ha.
    eexists. split; [reflexivity |].
    split; [reflexivity |]. split; [reflexivity |].
    split; [apply restore_anchor |].
    split; [| by repeat split].
    intros other Hother. simpl. by rewrite lookup_insert_ne.
  - unfold clutter_actor_set_anchor_pointu. rewrite Ha.
    eexists. split; [reflexivity |].
    split; [reflexivity |]. split; [reflexivity |].
    split; [apply restore_anchor |].
    split; [| by repeat split].
    intros other Hother. simpl. by rewrite lookup_insert_ne.
Qed.

Lemma set_anchor_point_frame_witness :
  heap sample_world !! 3%positive = Some sample_leaf
  /\ CLUTTER_ACTOR_IS_VISIBLE sample_leaf = true
  /\ effects (clutter_actor_set_anchor_pointu 3%positive 50 25 sample_world)
     = effects sample_world
  /\ main_loop (clutter_actor_set_anchor_pointu 3%positive 50 25 sample_world)
     = main_loop sample_world.
Proof.
  destruct (proj2 (set_anchor_point_frame sample_UNITS_FROM_INT sample_world 3%positive
                     sample_leaf 50 25 eq_refl))
    as (a' & _ & _ & _ & _ & _ & Heff & _ & Hloop & _).
  split; [reflexivity |]. split; [reflexivity |]. by split.
Defined.

(** * Further properties *)

(** ** 32-bit arithmetic *)

Lemma wrap32_range (v : Z) : in_int32 (wrap32 v).
Proof.
  unfold in_int32, wrap32.
  pose proof (Z.mod_pos_bound (v + 2 ^ 31) (2 ^ 32) ltac:(lia)). lia.
Qed.

Lemma wrap32_congr (a b : Z) : a mod 2 ^ 32 = b mod 2 ^ 32 -> wrap32 a = wrap32 b.
Proof.
  intros Hab. unfold wrap32. f_equal.
  rewrite (Z.add_mod a), (Z.add_mod b), Hab by lia. reflexivity.
Qed.

Lemma wrap32_mod (a : Z) : wrap32 a mod 2 ^ 32 = a mod 2 ^ 32.
Proof.
  unfold wrap32.
  rewrite Zminus_mod, Zmod_mod, <- Zminus_mod. f_equal. lia.
Qed.

Lemma wrap32_inj (a b : Z) : in_int32 a -> in_int32 b -> wrap32 a = wrap32 b -> a = b.
Proof.
  intros Ha Hb Hab. rewrite !wrap32_small in Hab by assumption. exact Hab.
Qed.

Lemma sub32_add32_cancel (a b d : Z) : sub32 (add32 a d) (add32 b d) = sub32 a b.
Proof.
  unfold sub32, add32. apply wrap32_congr.
  rewrite Zminus_mod, !wrap32_mod, <- Zminus_mod. f_equal. lia.
Qed.

Lemma sub32_inj_l (a b c : Z) :
  in_int32 a -> in_int32 b -> sub32 a c = sub32 b c -> a = b.
Proof.
  unfold sub32, wrap32, in_int32. intros Ha Hb Heq.
  pose proof (Z.div_mod (a - c + 2 ^ 31) (2 ^ 32) ltac:(lia)) as H1.
  pose proof (Z.div_mod (b - c + 2 ^ 31) (2 ^ 32) ltac:(lia)) as H2.
  lia.
Qed.

Lemma add32_sub32_same (a b c : Z) : sub32 (add32 a (sub32 c b)) c = sub32 a b.
Proof.
  unfold sub32, add32. apply wrap32_congr.
  rewrite Zminus_mod, wrap32_mod, Zplus_mod, wrap32_mod, <- Zplus_mod, <- Zminus_mod.
  f_equal. lia.
Qed.

(** ** What the scheduler and the log leave alone *)

Lemma context_queue_redraw_frame (self : addr) (w1 w2 : World) :
  context w1 = context w2 -> main_loop w1 = main_loop w2 ->
  context (clutter_actor_queue_redraw self w1) = context (clutter_actor_queue_redraw self w2)
  /\ main_loop (clutter_actor_queue_redraw self w1)
     = main_loop (clutter_actor_queue_redraw self w2).
Proof.
  intros Hc Hm. unfold clutter_actor_queue_redraw. rewrite Hc, Hm.
  destruct (update_idle (context w2) =? 0); [| by split].
  by destruct (clutter_threads_add_idle_full (main_loop w2)).
Qed.

Lemma heap_queue_redraw (self : addr) (w : World) :
  heap (clutter_actor_queue_redraw self w) = heap w.
Proof. unfold clutter_actor_queue_redraw. by destruct (update_idle (context w) =? 0). Qed.

Lemma effects_queue_redraw (self : addr) (w : World) :
  effects (clutter_actor_queue_redraw self w) = effects w.
Proof. unfold clutter_actor_queue_redraw. by destruct (update_idle (context w) =? 0). Qed.

Lemma cogl_queue_redraw (self : addr) (w : World) :
  cogl (clutter_actor_queue_redraw self w) = cogl w.
Proof. unfold clutter_actor_queue_redraw. by destruct (update_idle (context w) =? 0). Qed.

Lemma actor_hash_queue_redraw (self : addr) (w : World) :
  actor_hash (context (clutter_actor_queue_redraw self w)) = actor_hash (context w).
Proof. unfold clutter_actor_queue_redraw. by destruct (update_idle (context w) =? 0). Qed.

Lemma queue_redraw_leaves_pending (self : addr) (w : World) :
  update_idle (context (clutter_actor_queue_redraw self w)) <> 0.
Proof.
  unfold clutter_actor_queue_redraw.
  destruct (update_idle (context w) =? 0) eqn:Hidle; simpl.
  - discriminate.
  - by apply Z.eqb_neq.
Qed.

Lemma heap_notify_if (c : bool) (self : addr) (property : string) (w : World) :
  heap (notify_if c self property w) = heap w.
Proof. by destruct c. Qed.

Lemma lookup_store (self : addr) (a : ClutterActor) (w : World) :
  heap (store self a w) !! self = Some a.
Proof. simpl. apply lookup_insert_eq. Qed.

Lemma lookup_store_ne (self other : addr) (a : ClutterActor) (w : World) :
  self <> other -> heap (store self a w) !! other = heap w !! other.
Proof. intros Hne. simpl. by apply lookup_insert_ne. Qed.

Lemma with_coords_same (a : ClutterActor) : with_priv (with_coords (coords (priv a))) a = a.
Proof. by destruct a as [? ? ? ? ? ? []]. Qed.

(** ** Geometry *)

Lemma box_eq_of_unchanged (box stored : ClutterActorBox) :
  in_int32 (x2 box) -> in_int32 (y2 box) ->
  in_int32 (x2 stored) -> in_int32 (y2 stored) ->
  negb (x1 stored =? x1 box) || negb (y1 stored =? y1 box)
  || negb (sub32 (x2 stored) (x1 stored) =? sub32 (x2 box) (x1 box))
  || negb (sub32 (y2 stored) (y1 stored) =? sub32 (y2 box) (y1 box)) = false ->
  box = stored.
Proof.
  intros Hx2 Hy2 Hsx2 Hsy2 Hflags.
  repeat (apply orb_false_elim in Hflags as [Hflags ?]).
  repeat match goal with
         | H : negb (_ =? _) = false |- _ =>
             apply negb_false_iff in H; apply Z.eqb_eq in H
         end.
  destruct box as [bx1 by1 bx2 by2], stored as [sx1 sy1 sx2 sy2]. simpl in *. subst.
  f_equal; symmetry; eapply sub32_inj_l; eauto.
Qed.

Lemma request_coords_lookup (self : addr) (a : ClutterActor) (box : ClutterActorBox)
    (w : World) :
  heap w !! self = Some a ->
  in_int32 (x2 box) -> in_int32 (y2 box) ->
  in_int32 (x2 (coords (priv a))) -> in_int32 (y2 (coords (priv a))) ->
  heap (clutter_actor_request_coords self box w) !! self
  = Some (with_priv (with_coords box) a)
  /\ (forall other, other <> self ->
        heap (clutter_actor_request_coords self box w) !! other = heap w !! other).
Proof.
  intros Ha Hx2 Hy2 Hsx2 Hsy2.
  unfold clutter_actor_request_coords. rewrite Ha.
  destruct (negb (x1 (coords (priv a)) =? x1 box) || _ || _ || _) eqn:Hflags.
  - rewrite !heap_notify_if.
    assert (Hheap : forall w0, heap (if CLUTTER_ACTOR_IS_VISIBLE a
                                     then clutter_actor_queue_redraw self w0 else w0)
                               = heap w0).
    { intros w0. destruct (CLUTTER_ACTOR_IS_VISIBLE a); [apply heap_queue_redraw | done]. }
    rewrite Hheap. unfold clutter_actor_real_request_coords. rewrite Ha.
    split; [apply lookup_store |].
    intros other Hother. by apply lookup_store_ne.
  - rewrite (box_eq_of_unchanged box (coords (priv a))) by done.
    rewrite with_coords_same. by split.
Qed.

Lemma request_coords_effects (self : addr) (a : ClutterActor) (box : ClutterActorBox)
    (w : World) :
  heap w !! self = Some a ->
  effects (clutter_actor_request_coords self box w)
  = effects w
    ++ notes (negb (x1 (coords (priv a)) =? x1 box)) self "x"
    ++ notes (negb (y1 (coords (priv a)) =? y1 box)) self "y"
    ++ notes (negb (box_width (coords (priv a)) =? box_width box)) self "width"
    ++ notes (negb (box_height (coords (priv a)) =? box_height box)) self "height".
Proof.
  intros Ha. unfold clutter_actor_request_coords, box_width, box_height. rewrite Ha.
  set (cx := negb (x1 (coords (priv a)) =? x1 box)).
  set (cy := negb (y1 (coords (priv a)) =? y1 box)).
  set (cw := negb (sub32 (x2 (coords (priv a))) (x1 (coords (priv a)))
                   =? sub32 (x2 box) (x1 box))).
  set (ch := negb (sub32 (y2 (coords (priv a))) (y1 (coords (priv a)))
                   =? sub32 (y2 box) (y1 box))).
  destruct (cx || cy || cw || ch) eqn:Hflags.
  - assert (Hbase : effects (if CLUTTER_ACTOR_IS_VISIBLE a
                             then clutter_actor_queue_redraw self
                                    (clutter_actor_real_request_coords self box w)
                             else clutter_actor_real_request_coords self box w)
                    = effects w).
    { unfold clutter_actor_real_request_coords. rewrite Ha.
      destruct (CLUTTER_ACTOR_IS_VISIBLE a); [by rewrite effects_queue_redraw | done]. }
    destruct cx, cy, cw, ch; simpl; rewrite Hbase; by rewrite <- ?app_assoc.
  - repeat (apply orb_false_elim in Hflags as [Hflags ?]). subst.
    repeat match goal with H : _ = false |- _ => rewrite H end.
    simpl. by rewrite app_nil_r.
Qed.

(** X1: a request for new coordinates is never dropped by the comparison
    that skips the virtual call: afterwards the actor stores the requested
    box (all corners being [gint32]), every other actor is as before, and
    exactly the properties that changed are notified, in the order x, y,
    width, height. *)
Theorem request_coords_round_trip (self : addr) (a : ClutterActor) (box : ClutterActorBox)
    (w : World) :
  heap w !! self = Some a ->
  box_in_range box -> box_in_range (coords (priv a)) ->
  let w' := clutter_actor_request_coords self box w in
  (exists a', heap w' !! self = Some a'
              /\ clutter_actor_query_coords a' = box
              /\ with_priv (with_coords (coords (priv a))) a' = a)
  /\ (forall other, other <> self -> heap w' !! other = heap w !! other)
  /\ effects w'
     = effects w
       ++ notes (negb (x1 (coords (priv a)) =? x1 box)) self "x"
       ++ notes (negb (y1 (coords (priv a)) =? y1 box)) self "y"
       ++ notes (negb (box_width (coords (priv a)) =? box_width box)) self "width"
       ++ notes (negb (box_height (coords (priv a)) =? box_height box)) self "height".
Proof.
  intros Ha [Hx2 Hy2] [Hsx2 Hsy2] w'. subst w'.
  destruct (request_coords_lookup self a box w Ha Hx2 Hy2 Hsx2 Hsy2) as [Hself Hother].
  split; [| split; [exact Hother | by apply request_coords_effects]].
  exists (with_priv (with_coords box) a). split; [exact Hself |].
  split; [by destruct box | by destruct a as [? ? ? ? ? ? []]].
Qed.

Lemma request_coords_round_trip_witness :
  heap sample_world !! 3%positive = Some sample_leaf
  /\ exists a',
       heap (clutter_actor_request_coords 3%positive (mkBox 0 0 65536 131072) sample_world)
       !! 3%positive = Some a'
       /\ clutter_actor_query_coords a' = mkBox 0 0 65536 131072.
Proof.
  assert (Hself : heap sample_world !! 3%positive = Some sample_leaf) by reflexivity.
  assert (Hbox : box_in_range (mkBox 0 0 65536 131072))
    by (unfold box_in_range, in_int32; simpl; lia).
  assert (Hstored : box_in_range (coords (priv sample_leaf)))
    by (unfold box_in_range, in_int32; simpl; lia).
  destruct (request_coords_round_trip 3%positive sample_leaf (mkBox 0 0 65536 131072)
              sample_world Hself Hbox Hstored) as [(a' & Ha' & Hq & _) _].
  split; [exact Hself |]. by exists a'.
Defined.

Lemma request_coords_moved (self : addr) (a : ClutterActor) (box : ClutterActorBox)
    (w : World) :
  heap w !! self = Some a ->
  box_in_range box -> box_in_range (coords (priv a)) ->
  box_width box = box_width (coords (priv a)) ->
  box_height box = box_height (coords (priv a)) ->
  heap (clutter_actor_request_coords self box w) !! self
  = Some (with_priv (with_coords box) a)
  /\ effects (clutter_actor_request_coords self box w)
     = effects w
       ++ notes (negb (x1 (coords (priv a)) =? x1 box)) self "x"
       ++ notes (negb (y1 (coords (priv a)) =? y1 box)) self "y".
Proof.
  intros Ha [Hx2 Hy2] [Hsx2 Hsy2] Hwidth Hheight.
  split; [by apply request_coords_lookup |].
  rewrite (request_coords_effects self a box w Ha), Hwidth, Hheight, !Z.eqb_refl.
  simpl. by rewrite !app_nil_r.
Qed.

Lemma move_by_effect (CLUTTER_UNITS_FROM_INT : Z -> Z) (self : addr)
    (a : ClutterActor) (w : World) (dx dy : Z) :
  heap w !! self = Some a -> box_in_range (coords (priv a)) ->
  let stored := coords (priv a) in
  let w' := clutter_actor_move_by CLUTTER_UNITS_FROM_INT self dx dy w in
  let nx := add32 (x1 stored) (CLUTTER_UNITS_FROM_INT dx) in
  let ny := add32 (y1 stored) (CLUTTER_UNITS_FROM_INT dy) in
  exists a',
    heap w' !! self = Some a'
    /\ x1 (coords (priv a')) = nx /\ y1 (coords (priv a')) = ny
    /\ box_width (coords (priv a')) = box_width stored
    /\ box_height (coords (priv a')) = box_height stored
    /\ effects w' = effects w ++ notes (negb (x1 stored =? nx)) self "x"
                              ++ notes (negb (y1 stored =? ny)) self "y".
Proof.
  intros Ha Hstored stored w' nx ny. subst w' nx ny.
  unfold clutter_actor_move_by. rewrite Ha.
  unfold clutter_actor_query_coords. cbn [x1 y1 x2 y2].
  set (box := mkBox _ _ _ _).
  assert (Hw : box_width box = box_width stored)
    by apply sub32_add32_cancel.
  assert (Hh : box_height box = box_height stored)
    by apply sub32_add32_cancel.
  destruct (request_coords_moved self a box w Ha) as [Hself Heff]; try done.
  { split; apply wrap32_range. }
  exists (with_priv (with_coords box) a). by repeat split.
Qed.

Lemma set_position_effect (CLUTTER_UNITS_FROM_INT : Z -> Z) (self : addr)
    (a : ClutterActor) (w : World) (x y : Z) :
  heap w !! self = Some a -> box_in_range (coords (priv a)) ->
  let stored := coords (priv a) in
  let w' := clutter_actor_set_position CLUTTER_UNITS_FROM_INT self x y w in
  let nx := CLUTTER_UNITS_FROM_INT x in
  let ny := CLUTTER_UNITS_FROM_INT y in
  exists a',
    heap w' !! self = Some a'
    /\ x1 (coords (priv a')) = nx /\ y1 (coords (priv a')) = ny
    /\ box_width (coords (priv a')) = box_width stored
    /\ box_height (coords (priv a')) = box_height stored
    /\ effects w' = effects w ++ notes (negb (x1 stored =? nx)) self "x"
                              ++ notes (negb (y1 stored =? ny)) self "y".
Proof.
  intros Ha Hstored stored w' nx ny. subst w' nx ny.
  unfold clutter_actor_set_position. rewrite Ha.
  unfold clutter_actor_query_coords. cbn [x1 y1 x2 y2].
  set (box := mkBox _ _ _ _).
  assert (Hw : box_width box = box_width stored)
    by apply add32_sub32_same.
  assert (Hh : box_height box = box_height stored)
    by apply add32_sub32_same.
  destruct (request_coords_moved self a box w Ha) as [Hself Heff]; try done.
  { split; apply wrap32_range. }
  exists (with_priv (with_coords box) a). by repeat split.
Qed.

(** X2: moving an actor never resizes it.  [clutter_actor_move_by] and
    [clutter_actor_set_position] store the new origin, keep the width and
    the height of the box (in 32-bit arithmetic, whatever the offsets),
    and notify x and y at most, never width or height. *)
Theorem moving_keeps_size (CLUTTER_UNITS_FROM_INT : Z -> Z) (self : addr)
    (a : ClutterActor) (w : World) :
  heap w !! self = Some a -> box_in_range (coords (priv a)) ->
  let stored := coords (priv a) in
  (forall dx dy,
     let w' := clutter_actor_move_by CLUTTER_UNITS_FROM_INT self dx dy w in
     let nx := add32 (x1 stored) (CLUTTER_UNITS_FROM_INT dx) in
     let ny := add32 (y1 stored) (CLUTTER_UNITS_FROM_INT dy) in
     exists a',
       heap w' !! self = Some a'
       /\ x1 (coords (priv a')) = nx /\ y1 (coords (priv a')) = ny
       /\ box_width (coords (priv a')) = box_width stored
       /\ box_height (coords (priv a')) = box_height stored
       /\ effects w' = effects w ++ notes (negb (x1 stored =? nx)) self "x"
                                 ++ notes (negb (y1 stored =? ny)) self "y")
  /\ (forall x y,
        let w' := clutter_actor_set_position CLUTTER_UNITS_FROM_INT self x y w in
        let nx := CLUTTER_UNITS_FROM_INT x in
        let ny := CLUTTER_UNITS_FROM_INT y in
        exists a',
          heap w' !! self = Some a'
          /\ x1 (coords (priv a')) = nx /\ y1 (coords (priv a')) = ny
          /\ box_width (coords (priv a')) = box_width stored
          /\ box_height (coords (priv a')) = box_height stored
          /\ effects w' = effects w ++ notes (negb (x1 stored =? nx)) self "x"
                                    ++ notes (negb (y1 stored =? ny)) self "y").
Proof.
  intros Ha Hstored stored. split.
  - intros dx dy. by apply move_by_effect.
  - intros x y. by apply set_position_effect.
Qed.

Lemma moving_keeps_size_witness :
  heap sample_world !! 3%positive = Some sample_leaf
  /\ exists a',
       heap (clutter_actor_move_by sample_UNITS_FROM_INT 3%positive 7 (-3) sample_world)
       !! 3%positive = Some a'
       /\ box_width (coords (priv a')) = box_width (coords (priv sample_leaf)).
Proof.
  assert (Hself : heap sample_world !! 3%positive = Some sample_leaf) by reflexivity.
  assert (Hstored : box_in_range (coords (priv sample_leaf)))
    by (unfold box_in_range, in_int32; simpl; lia).
  destruct (proj1 (moving_keeps_size sample_UNITS_FROM_INT 3%positive sample_leaf
                     sample_world Hself Hstored) 7 (-3))
    as (a' & Ha' & _ & _ & Hw & _).
  split; [exact Hself |]. by exists a'.
Defined.

(** X3: a dimension that is not positive is ignored.  [clutter_actor_set_size]
    with both dimensions zero or negative changes nothing, so an actor
    cannot be given a zero extent this way, and [clutter_actor_set_width]
    and [clutter_actor_set_height] change nothing for 0 and for a [guint]
    above [G_MAXINT], which reaches the [gint] parameter as a negative
    number. *)
Theorem non_positive_size_is_ignored (CLUTTER_UNITS_FROM_INT : Z -> Z) (self : addr)
    (a : ClutterActor) (w : World) :
  heap w !! self = Some a ->
  (forall width height, width <= 0 -> height <= 0 ->
     clutter_actor_set_size CLUTTER_UNITS_FROM_INT self width height w = w)
  /\ (forall width, width = 0 \/ 2 ^ 31 <= width < 2 ^ 32 ->
        clutter_actor_set_width CLUTTER_UNITS_FROM_INT self width w = w)
  /\ (forall height, height = 0 \/ 2 ^ 31 <= height < 2 ^ 32 ->
        clutter_actor_set_height CLUTTER_UNITS_FROM_INT self height w = w).
Proof.
  intros Ha.
  assert (Hinternal : forall width height, width <= 0 -> height <= 0 ->
            clutter_actor_set_size_internal CLUTTER_UNITS_FROM_INT self width height w = w).
  { intros width height Hw Hh. unfold clutter_actor_set_size_internal. rewrite Ha.
    rewrite (proj2 (Z.ltb_ge 0 width)), (proj2 (Z.ltb_ge 0 height)) by lia.
    unfold clutter_actor_query_coords. cbn [x1 y1 x2 y2].
    rewrite box_eta. by apply request_coords_same_box. }
  assert (Hcast : forall v, v = 0 \/ 2 ^ 31 <= v < 2 ^ 32 -> wrap32 v <= 0).
  { intros v [-> | Hv]; [vm_compute; discriminate |].
    unfold wrap32.
    replace (v + 2 ^ 31) with (v - 2 ^ 31 + 1 * 2 ^ 32) by lia.
    rewrite Z.mod_add, Z.mod_small by lia. lia. }
  split; [| split].
  - intros width height Hw Hh. unfold clutter_actor_set_size. rewrite Ha.
    by apply Hinternal.
  - intros width Hw. unfold clutter_actor_set_width. rewrite Ha.
    apply Hinternal; [by apply Hcast | lia].
  - intros height Hh. unfold clutter_actor_set_height. rewrite Ha.
    apply Hinternal; [lia | by apply Hcast].
Qed.

Lemma non_positive_size_is_ignored_witness :
  heap sample_world !! 3%positive = Some sample_leaf
  /\ clutter_actor_set_size sample_UNITS_FROM_INT 3%positive 0 0 sample_world = sample_world
  /\ clutter_actor_set_width sample_UNITS_FROM_INT 3%positive 4294967295 sample_world
     = sample_world.
Proof.
  assert (Hself : heap sample_world !! 3%positive = Some sample_leaf) by reflexivity.
  pose proof (non_positive_size_is_ignored sample_UNITS_FROM_INT 3%positive sample_leaf
                sample_world Hself) as (Hsize & Hwidth & _).
  split; [exact Hself |]. split.
  - apply Hsize; lia.
  - apply Hwidth. right. lia.
Defined.

(** X4: [clutter_actor_set_x] goes through the pixel value of y.  It
    stores the new x, and for y what [clutter_actor_get_y] reports turned
    back into units: a y between two pixels is moved onto a pixel and
    notified as changed, although only x was set.  The size is kept.
    [clutter_actor_set_y] does the same to x. *)
Theorem set_x_rounds_y (CLUTTER_UNITS_TO_INT CLUTTER_UNITS_FROM_INT : Z -> Z)
    (self : addr) (a : ClutterActor) (w : World) (v : Z) :
  heap w !! self = Some a -> box_in_range (coords (priv a)) ->
  let stored := coords (priv a) in
  (let w' := clutter_actor_set_x CLUTTER_UNITS_TO_INT CLUTTER_UNITS_FROM_INT self v w in
   let ny := CLUTTER_UNITS_FROM_INT (CLUTTER_UNITS_TO_INT (y1 stored)) in
   exists a',
     heap w' !! self = Some a'
     /\ x1 (coords (priv a')) = CLUTTER_UNITS_FROM_INT v
     /\ y1 (coords (priv a')) = ny
     /\ box_width (coords (priv a')) = box_width stored
     /\ box_height (coords (priv a')) = box_height stored
     /\ effects w'
        = effects w ++ notes (negb (x1 stored =? CLUTTER_UNITS_FROM_INT v)) self "x"
                    ++ notes (negb (y1 stored =? ny)) self "y")
  /\ (let w' := clutter_actor_set_y CLUTTER_UNITS_TO_INT CLUTTER_UNITS_FROM_INT self v w in
      let nx := CLUTTER_UNITS_FROM_INT (CLUTTER_UNITS_TO_INT (x1 stored)) in
      exists a',
        heap w' !! self = Some a'
        /\ x1 (coords (priv a')) = nx
        /\ y1 (coords (priv a')) = CLUTTER_UNITS_FROM_INT v
        /\ box_width (coords (priv a')) = box_width stored
        /\ box_height (coords (priv a')) = box_height stored
        /\ effects w'
           = effects w ++ notes (negb (x1 stored =? nx)) self "x"
                       ++ notes (negb (y1 stored =? CLUTTER_UNITS_FROM_INT v)) self "y").
Proof.
  intros Ha Hstored stored. split.
  - unfold clutter_actor_set_x. rewrite Ha.
    unfold clutter_actor_get_y, clutter_actor_query_coords. cbn [x1 y1 x2 y2].
    by apply set_position_effect.
  - unfold clutter_actor_set_y. rewrite Ha.
    unfold clutter_actor_get_x, clutter_actor_query_coords. cbn [x1 y1 x2 y2].
    by apply set_position_effect.
Qed.

Lemma set_x_rounds_y_witness :
  let a := sample_actor (with_coords (mkBox 0 98304 65536 163840) sample_private) in
  let w := store 1%positive a sample_world in
  heap w !! 1%positive = Some a
  /\ exists a',
       heap (clutter_actor_set_x sample_UNITS_TO_INT sample_UNITS_FROM_INT 1%positive 5 w)
       !! 1%positive = Some a'
       /\ y1 (coords (priv a)) = 98304 /\ y1 (coords (priv a')) = 65536.
Proof.
  intros a w.
  assert (Hself : heap w !! 1%positive = Some a) by reflexivity.
  assert (Hstored : box_in_range (coords (priv a)))
    by (unfold box_in_range, in_int32; simpl; lia).
  destruct (proj1 (set_x_rounds_y sample_UNITS_TO_INT sample_UNITS_FROM_INT 1%positive a w 5
                     Hself Hstored)) as (a' & Ha' & _ & Hy & _).
  split; [exact Hself |]. exists a'. split; [exact Ha' |]. split; [reflexivity |].
  rewrite Hy. reflexivity.
Defined.

(** ** Showing and hiding *)

Lemma heap_emit (e : Effect) (w : World) : heap (emit e w) = heap w.
Proof. reflexivity. Qed.

Lemma with_realized_same (a : ClutterActor) :
  CLUTTER_ACTOR_REALIZED a = true -> with_realized true a = a.
Proof. intros H. destruct a. simpl in *. by subst. Qed.

Lemma with_mapped_same (a : ClutterActor) (b : bool) :
  CLUTTER_ACTOR_MAPPED a = b -> with_mapped b a = a.
Proof. intros H. destruct a. simpl in *. by subst. Qed.

Lemma realize_unrealized (self : addr) (a : ClutterActor) (w : World) :
  heap w !! self = Some a ->
  clutter_actor_realize self w = store self (with_realized true a) w.
Proof.
  intros Ha. unfold clutter_actor_realize. rewrite Ha.
  destruct (CLUTTER_ACTOR_IS_REALIZED a) eqn:Hr; [| done].
  rewrite with_realized_same by done. by rewrite store_same.
Qed.

(** What [clutter_actor_real_show] does to an actor that is not visible
    and not a toplevel. *)
Lemma real_show_maps (self : addr) (a : ClutterActor) (w : World) :
  heap w !! self = Some a ->
  CLUTTER_ACTOR_IS_VISIBLE a = false -> CLUTTER_ACTOR_IS_TOPLEVEL a = false ->
  clutter_actor_real_show self w
  = clutter_actor_queue_redraw self
      (store self (with_mapped true (with_realized true a))
             (store self (with_realized true a) w)).
Proof.
  intros Ha Hvis Htop. unfold clutter_actor_real_show. rewrite Ha, Hvis. cbn [negb].
  assert (Hstep : (if negb (CLUTTER_ACTOR_IS_REALIZED a)
                   then clutter_actor_realize self w else w)
                  = store self (with_realized true a) w).
  { destruct (CLUTTER_ACTOR_IS_REALIZED a) eqn:Hr; cbn [negb].
    - rewrite with_realized_same by done. by rewrite store_same.
    - by apply realize_unrealized. }
  rewrite Hstep, lookup_store.
  change (CLUTTER_ACTOR_IS_TOPLEVEL (with_realized true a))
    with (CLUTTER_ACTOR_IS_TOPLEVEL a).
  rewrite Htop. cbn [negb]. rewrite lookup_store.
  reflexivity.
Qed.

Lemma store_store (self : addr) (a b : ClutterActor) (w : World) :
  store self b (store self a w) = store self b w.
Proof. unfold store, with_heap. simpl. by rewrite insert_insert_eq. Qed.

Lemma show_effect (self : addr) (a : ClutterActor) (w : World) :
  heap w !! self = Some a ->
  CLUTTER_ACTOR_IS_VISIBLE a = false -> CLUTTER_ACTOR_IS_TOPLEVEL a = false ->
  let w' := clutter_actor_show self w in
  let a' := with_mapped true (with_realized true a) in
  heap w' = <[self := a']> (heap w)
  /\ CLUTTER_ACTOR_IS_VISIBLE a' = true
  /\ priv a' = priv a
  /\ effects w' = effects w ++ [g_signal_emit self SHOW; g_object_notify self "visible"]
  /\ update_idle (context w') <> 0.
Proof.
  intros Ha Hvis Htop w' a'. subst w' a'.
  unfold clutter_actor_show. rewrite Ha, Hvis. cbn [negb].
  rewrite (real_show_maps self a (emit (g_signal_emit self SHOW) w)) by done.
  rewrite store_store.
  split; [by rewrite heap_emit, heap_queue_redraw |].
  split; [reflexivity |]. split; [reflexivity |].
  split.
  - cbn [effects emit]. rewrite effects_queue_redraw. simpl. by rewrite <- app_assoc.
  - apply queue_redraw_leaves_pending.
Qed.

(** X5: showing an actor that is not visible and is not a toplevel makes
    it visible: afterwards it is realized and mapped with everything else
    of it as before, the [show] signal has been emitted and then
    [visible] notified, and a repaint is pending. *)
Theorem show_makes_visible (self : addr) (a : ClutterActor) (w : World) :
  heap w !! self = Some a ->
  CLUTTER_ACTOR_IS_VISIBLE a = false -> CLUTTER_ACTOR_IS_TOPLEVEL a = false ->
  let w' := clutter_actor_show self w in
  let a' := with_mapped true (with_realized true a) in
  heap w' = <[self := a']> (heap w)
  /\ CLUTTER_ACTOR_IS_VISIBLE a' = true
  /\ priv a' = priv a
  /\ effects w' = effects w ++ [g_signal_emit self SHOW; g_object_notify self "visible"]
  /\ update_idle (context w') <> 0.
Proof. exact (show_effect self a w). Qed.

Lemma show_makes_visible_witness :
  let a := mkActor false false false false false false sample_private in
  let w := store 1%positive a sample_world in
  heap w !! 1%positive = Some a
  /\ CLUTTER_ACTOR_IS_VISIBLE a = false
  /\ effects (clutter_actor_show 1%positive w)
     = [g_signal_emit 1%positive SHOW; g_object_notify 1%positive "visible"]
  /\ update_idle (context (clutter_actor_show 1%positive w)) <> 0.
Proof.
  intros a w.
  assert (Hself : heap w !! 1%positive = Some a) by reflexivity.
  destruct (show_makes_visible 1%positive a w Hself eq_refl eq_refl)
    as (_ & _ & _ & Heff & Hidle).
  by repeat split.
Defined.

Lemma hide_effect (self : addr) (a : ClutterActor) (w : World) :
  heap w !! self = Some a ->
  CLUTTER_ACTOR_IS_VISIBLE a = true -> CLUTTER_ACTOR_IS_TOPLEVEL a = false ->
  let w' := clutter_actor_hide self w in
  heap w' = <[self := with_mapped false a]> (heap w)
  /\ effects w' = effects w ++ [g_signal_emit self HIDE; g_object_notify self "visible"]
  /\ update_idle (context w') <> 0.
Proof.
  intros Ha Hvis Htop w'. subst w'.
  unfold clutter_actor_hide. rewrite Ha, Hvis.
  unfold clutter_actor_real_hide. rewrite !heap_emit, Ha, Hvis, Htop. cbn [negb].
  split; [by rewrite heap_queue_redraw |].
  split.
  - cbn [effects emit]. rewrite effects_queue_redraw. simpl. by rewrite <- app_assoc.
  - apply queue_redraw_leaves_pending.
Qed.

(** X6: hiding a visible actor that is not a toplevel clears its mapped
    flag only (it stays realized) and asks for a repaint; showing it again
    gives back the store as it was before the hide, with [hide],
    [visible], [show], [visible] emitted in this order. *)
Theorem hide_then_show_restores (self : addr) (a : ClutterActor) (w : World) :
  heap w !! self = Some a ->
  CLUTTER_ACTOR_IS_VISIBLE a = true -> CLUTTER_ACTOR_IS_TOPLEVEL a = false ->
  heap (clutter_actor_hide self w) = <[self := with_mapped false a]> (heap w)
  /\ CLUTTER_ACTOR_IS_REALIZED (with_mapped false a) = true
  /\ update_idle (context (clutter_actor_hide self w)) <> 0
  /\ heap (clutter_actor_show self (clutter_actor_hide self w)) = heap w
  /\ effects (clutter_actor_show self (clutter_actor_hide self w))
     = effects w ++ [g_signal_emit self HIDE; g_object_notify self "visible";
                     g_signal_emit self SHOW; g_object_notify self "visible"].
Proof.
  intros Ha Hvis Htop.
  destruct (hide_effect self a w Ha Hvis Htop) as (Hheap & Heff & Hidle).
  assert (Hflags : CLUTTER_ACTOR_MAPPED a = true /\ CLUTTER_ACTOR_REALIZED a = true).
  { unfold CLUTTER_ACTOR_IS_VISIBLE, CLUTTER_ACTOR_IS_MAPPED, CLUTTER_ACTOR_IS_REALIZED
      in Hvis. by apply andb_true_iff in Hvis. }
  destruct Hflags as [Hmapped Hrealized].
  assert (Hhidden : heap (clutter_actor_hide self w) !! self = Some (with_mapped false a)).
  { rewrite Hheap. apply lookup_insert_eq. }
  destruct (show_effect self (with_mapped false a) (clutter_actor_hide self w) Hhidden)
    as (Hheap' & _ & _ & Heff' & _); [reflexivity | exact Htop |].
  split; [exact Hheap |]. split; [exact Hrealized |]. split; [exact Hidle |].
  split.
  - rewrite Hheap', Hheap, insert_insert_eq.
    apply insert_id. rewrite Ha. f_equal.
    destruct a. simpl in *. by subst.
  - rewrite Heff', Heff. by rewrite <- app_assoc.
Qed.

Lemma hide_then_show_restores_witness :
  heap sample_world !! 3%positive = Some sample_leaf
  /\ CLUTTER_ACTOR_IS_VISIBLE sample_leaf = true
  /\ heap (clutter_actor_show 3%positive (clutter_actor_hide 3%positive sample_world))
     = heap sample_world.
Proof.
  assert (Hself : heap sample_world !! 3%positive = Some sample_leaf) by reflexivity.
  destruct (hide_then_show_restores 3%positive sample_leaf sample_world Hself
              eq_refl eq_refl) as (_ & _ & _ & Hheap & _).
  by repeat split.
Defined.

(** X7: the mapped flag of a toplevel actor is left to the backend.
    Showing a toplevel never sets the flag and hiding one never clears it
    (the store is not changed by the hide at all); an unmapped toplevel is
    therefore still not visible after [clutter_actor_show], although
    [show] has been emitted and [visible] notified, and no repaint has
    been asked for. *)
Theorem toplevel_mapping_is_not_set (self : addr) (a : ClutterActor) (w : World) :
  heap w !! self = Some a -> CLUTTER_ACTOR_IS_TOPLEVEL a = true ->
  heap (clutter_actor_hide self w) = heap w
  /\ (exists a', heap (clutter_actor_show self w) !! self = Some a'
                 /\ CLUTTER_ACTOR_MAPPED a' = CLUTTER_ACTOR_MAPPED a)
  /\ (CLUTTER_ACTOR_MAPPED a = false ->
      let w' := clutter_actor_show self w in
      heap w' !! self = Some (with_realized true a)
      /\ CLUTTER_ACTOR_IS_VISIBLE (with_realized true a) = false
      /\ effects w' = effects w ++ [g_signal_emit self SHOW; g_object_notify self "visible"]
      /\ main_loop w' = main_loop w
      /\ update_idle (context w') = update_idle (context w)).
Proof.
  intros Ha Htop.
  assert (Hstep : forall w0, heap w0 !! self = Some a ->
            (if negb (CLUTTER_ACTOR_IS_REALIZED a)
             then clutter_actor_realize self w0 else w0)
            = store self (with_realized true a) w0).
  { intros w0 Ha0. destruct (CLUTTER_ACTOR_IS_REALIZED a) eqn:Hr; cbn [negb].
    - rewrite with_realized_same by done. by rewrite store_same.
    - by apply realize_unrealized. }
  assert (Hshow : CLUTTER_ACTOR_IS_VISIBLE a = false ->
            clutter_actor_show self w
            = emit (g_object_notify self "visible")
                (let w1 := store self (with_realized true a)
                                 (emit (g_signal_emit self SHOW) w) in
                 if CLUTTER_ACTOR_IS_VISIBLE (with_realized true a)
                 then clutter_actor_queue_redraw self w1 else w1)).
  { intros Hvis. unfold clutter_actor_show. rewrite Ha, Hvis. cbn [negb].
    unfold clutter_actor_real_show.
    change (heap (emit (g_signal_emit self SHOW) w)) with (heap w).
    rewrite Ha, Hvis. cbn [negb].
    rewrite (Hstep (emit (g_signal_emit self SHOW) w) Ha), lookup_store.
    change (CLUTTER_ACTOR_IS_TOPLEVEL (with_realized true a))
      with (CLUTTER_ACTOR_IS_TOPLEVEL a).
    rewrite Htop. cbn [negb]. by rewrite lookup_store. }
  split; [| split].
  - unfold clutter_actor_hide. rewrite Ha.
    destruct (CLUTTER_ACTOR_IS_VISIBLE a) eqn:Hvis; [| done].
    unfold clutter_actor_real_hide.
    change (heap (emit (g_signal_emit self HIDE) w)) with (heap w).
    rewrite Ha, Hvis, Htop. cbn [negb].
    by rewrite heap_emit, heap_queue_redraw.
  - destruct (CLUTTER_ACTOR_IS_VISIBLE a) eqn:Hvis.
    + exists a. unfold clutter_actor_show. by rewrite Ha, Hvis.
    + exists (with_realized true a). rewrite (Hshow eq_refl). cbv zeta.
      rewrite heap_emit.
      destruct (CLUTTER_ACTOR_IS_VISIBLE (with_realized true a));
        rewrite ?heap_queue_redraw, lookup_store; by split.
  - intros Hmapped w'. subst w'.
    assert (Hvis : CLUTTER_ACTOR_IS_VISIBLE a = false).
    { unfold CLUTTER_ACTOR_IS_VISIBLE, CLUTTER_ACTOR_IS_MAPPED. by rewrite Hmapped. }
    assert (Hstill : CLUTTER_ACTOR_IS_VISIBLE (with_realized true a) = false).
    { unfold CLUTTER_ACTOR_IS_VISIBLE, CLUTTER_ACTOR_IS_MAPPED. simpl. by rewrite Hmapped. }
    rewrite (Hshow Hvis). cbv zeta. rewrite Hstill.
    split; [by rewrite heap_emit, lookup_store |].
    split; [reflexivity |].
    split; [simpl; by rewrite <- app_assoc |]. by split.
Qed.

Lemma toplevel_mapping_is_not_set_witness :
  let stage := mkActor false false true false true false sample_private in
  let w := store 1%positive stage sample_world in
  heap w !! 1%positive = Some stage
  /\ CLUTTER_ACTOR_IS_TOPLEVEL stage = true
  /\ heap (clutter_actor_show 1%positive w) !! 1%positive
     = Some (with_realized true stage)
  /\ CLUTTER_ACTOR_IS_VISIBLE (with_realized true stage) = false.
Proof.
  intros stage w.
  assert (Hself : heap w !! 1%positive = Some stage) by reflexivity.
  destruct (toplevel_mapping_is_not_set 1%positive stage w Hself eq_refl)
    as (_ & _ & Hshow).
  destruct (Hshow eq_refl) as (Hheap & Hvis & _).
  by repeat split.
Defined.

(** ** Taking and leaving a parent *)

Lemma set_parent_effect (self parent : addr) (a p : ClutterActor) (w : World) :
  heap w !! self = Some a -> heap w !! parent = Some p -> self <> parent ->
  parent_actor (priv a) = None -> CLUTTER_ACTOR_IS_TOPLEVEL a = false ->
  let w' := clutter_actor_set_parent self parent w in
  heap w' = <[self := adopted parent p a]> (heap w)
  /\ actor_hash (context w') = <[clutter_actor_get_gid a := self]> (actor_hash (context w))
  /\ effects w' = effects w ++ [g_signal_emit self PARENT_SET]
  /\ (CLUTTER_ACTOR_IS_VISIBLE p && CLUTTER_ACTOR_IS_VISIBLE (adopted parent p a) = true ->
      update_idle (context w') <> 0)
  /\ (CLUTTER_ACTOR_IS_VISIBLE p && CLUTTER_ACTOR_IS_VISIBLE (adopted parent p a) = false ->
      main_loop w' = main_loop w
      /\ update_idle (context w') = update_idle (context w)).
Proof.
  intros Ha Hp Hne Hnone Htop w'. subst w'.
  unfold clutter_actor_set_parent. rewrite Ha, Hp.
  rewrite bool_decide_eq_false_2 by done.
  rewrite bool_decide_eq_false_2 by (rewrite Hnone; naive_solver).
  rewrite Htop.
  set (a1 := with_priv (with_parent_actor (Some parent)) a).
  set (w1 := emit _ (store self a1 _)).
  assert (Hp1 : heap w1 !! parent = Some p).
  { subst w1. rewrite heap_emit, lookup_store_ne by done. exact Hp. }
  assert (Ha1 : heap w1 !! self = Some a1).
  { subst w1. by rewrite heap_emit, lookup_store. }
  rewrite Hp1.
  set (w2 := if CLUTTER_ACTOR_IS_REALIZED p then clutter_actor_realize self w1 else w1).
  assert (Hw2 : w2 = store self (adopted parent p a) w1).
  { subst w2. unfold adopted. fold a1.
    destruct (CLUTTER_ACTOR_IS_REALIZED p).
    - by apply realize_unrealized.
    - by rewrite store_same. }
  rewrite Hw2, lookup_store_ne, Hp1, lookup_store by done.
  assert (Hheap : heap (store self (adopted parent p a) w1)
                  = <[self := adopted parent p a]> (heap w)).
  { subst w1. simpl. by rewrite insert_insert_eq. }
  destruct (CLUTTER_ACTOR_IS_VISIBLE p && CLUTTER_ACTOR_IS_VISIBLE (adopted parent p a))
    eqn:Hvis.
  - rewrite heap_queue_redraw, actor_hash_queue_redraw, effects_queue_redraw.
    split; [exact Hheap |]. split; [reflexivity |]. split; [reflexivity |].
    split; [intros _; apply queue_redraw_leaves_pending | discriminate].
  - split; [exact Hheap |]. split; [reflexivity |]. split; [reflexivity |].
    split; [discriminate | by intros _].
Qed.

(** X8: [clutter_actor_set_parent] on an actor without parent that is not
    a toplevel, with another actor as parent, links the actor to the
    parent, enters it in the identifier table under its own id, emits
    [parent-set], realizes it when the parent is realized, and asks for a
    repaint exactly when parent and actor are then both visible; every
    other actor is as before. *)
Theorem set_parent_links (self parent : addr) (a p : ClutterActor) (w : World) :
  heap w !! self = Some a -> heap w !! parent = Some p -> self <> parent ->
  parent_actor (priv a) = None -> CLUTTER_ACTOR_IS_TOPLEVEL a = false ->
  let w' := clutter_actor_set_parent self parent w in
  exists a',
    heap w' !! self = Some a'
    /\ parent_actor (priv a') = Some parent
    /\ with_priv (with_parent_actor None) a'
       = (if CLUTTER_ACTOR_IS_REALIZED p then with_realized true a else a)
    /\ (forall other, other <> self -> heap w' !! other = heap w !! other)
    /\ actor_hash (context w') !! clutter_actor_get_gid a = Some self
    /\ (forall gid, gid <> clutter_actor_get_gid a ->
          actor_hash (context w') !! gid = actor_hash (context w) !! gid)
    /\ effects w' = effects w ++ [g_signal_emit self PARENT_SET]
    /\ (update_idle (context w) = 0 ->
        (update_idle (context w') <> 0
         <-> CLUTTER_ACTOR_IS_VISIBLE p && CLUTTER_ACTOR_IS_VISIBLE a' = true)).
Proof.
  intros Ha Hp Hne Hnone Htop w'.
  destruct (set_parent_effect self parent a p w Ha Hp Hne Hnone Htop)
    as (Hheap & Hhash & Heff & Hqueued & Hnot).
  fold w' in Hheap, Hhash, Heff, Hqueued, Hnot.
  exists (adopted parent p a).
  split; [rewrite Hheap; apply lookup_insert_eq |].
  split; [unfold adopted; by destruct (CLUTTER_ACTOR_IS_REALIZED p) |].
  split.
  { unfold adopted. destruct a as [? ? ? ? ? ? []]. simpl in Hnone. subst.
    by destruct (CLUTTER_ACTOR_IS_REALIZED p). }
  split; [intros other Hother; rewrite Hheap; by apply lookup_insert_ne |].
  split; [rewrite Hhash; apply lookup_insert_eq |].
  split; [intros gid Hgid; rewrite Hhash; by apply lookup_insert_ne |].
  split; [exact Heff |].
  intros Hidle.
  destruct (CLUTTER_ACTOR_IS_VISIBLE p && CLUTTER_ACTOR_IS_VISIBLE (adopted parent p a))
    eqn:Hvis.
  - split; [done | intros _; by apply Hqueued].
  - destruct (Hnot eq_refl) as [_ Hsame]. rewrite Hsame, Hidle. split; [done | discriminate].
Qed.

Lemma set_parent_links_witness :
  let orphan := mkActor false false false false false false sample_private in
  let w := store 4%positive orphan sample_world in
  heap w !! 4%positive = Some orphan
  /\ heap w !! 1%positive = Some sample_root
  /\ exists a',
       heap (clutter_actor_set_parent 4%positive 1%positive w) !! 4%positive = Some a'
       /\ parent_actor (priv a') = Some 1%positive
       /\ actor_hash (context (clutter_actor_set_parent 4%positive 1%positive w)) !! 0
          = Some 4%positive.
Proof.
  intros orphan w.
  assert (Hself : heap w !! 4%positive = Some orphan) by reflexivity.
  assert (Hparent : heap w !! 1%positive = Some sample_root) by reflexivity.
  assert (Hne : 4%positive <> 1%positive) by discriminate.
  destruct (set_parent_links 4%positive 1%positive orphan sample_root w
              Hself Hparent Hne eq_refl eq_refl)
    as (a' & Ha' & Hlink & _ & _ & Hhash & _).
  split; [exact Hself |]. split; [exact Hparent |].
  exists a'. by repeat split.
Defined.

Lemma actor_hash_emit (e : Effect) (w : World) :
  actor_hash (context (emit e w)) = actor_hash (context w).
Proof. reflexivity. Qed.

(** The first step of [clutter_actor_unparent]: a realized actor is hidden
    during a reparent and unrealized otherwise. *)
Lemma unparent_first_step (self : addr) (a : ClutterActor) (w : World) :
  heap w !! self = Some a ->
  let w1 := if CLUTTER_ACTOR_IS_REALIZED a then
              if CLUTTER_ACTOR_IN_REPARENT a then clutter_actor_hide self w
              else clutter_actor_unrealize self w
            else w in
  exists a1,
    heap w1 = <[self := a1]> (heap w)
    /\ priv a1 = priv a
    /\ actor_hash (context w1) = actor_hash (context w)
    /\ (CLUTTER_ACTOR_IN_REPARENT a = false ->
        a1 = with_realized false a /\ effects w1 = effects w)
    /\ (CLUTTER_ACTOR_IN_REPARENT a = true ->
        CLUTTER_ACTOR_IS_REALIZED a1 = CLUTTER_ACTOR_IS_REALIZED a).
Proof.
  intros Ha w1. subst w1.
  destruct (CLUTTER_ACTOR_IS_REALIZED a) eqn:Hr.
  - destruct (CLUTTER_ACTOR_IN_REPARENT a) eqn:Hrep.
    + unfold clutter_actor_hide. rewrite Ha.
      destruct (CLUTTER_ACTOR_IS_VISIBLE a) eqn:Hvis.
      * unfold clutter_actor_real_hide.
        change (heap (emit (g_signal_emit self HIDE) w)) with (heap w).
        rewrite Ha, Hvis.
        destruct (CLUTTER_ACTOR_IS_TOPLEVEL a) eqn:Htop; cbn [negb].
        -- exists a. rewrite heap_emit, heap_queue_redraw, heap_emit.
           rewrite actor_hash_emit, actor_hash_queue_redraw, actor_hash_emit.
           split; [by rewrite insert_id |]. by repeat split.
        -- exists (with_mapped false a).
           rewrite heap_emit, heap_queue_redraw.
           rewrite actor_hash_emit, actor_hash_queue_redraw.
           by repeat split.
      * exists a. split; [by rewrite insert_id |]. by repeat split.
    + unfold clutter_actor_unrealize. rewrite Ha.
      unfold CLUTTER_ACTOR_IS_REALIZED in *. rewrite Hr. cbn [negb].
      exists (with_realized false a). by repeat split.
  - exists a. split; [by rewrite insert_id |].
    split; [done |]. split; [done |]. split; [| done].
    intros _. split; [| done].
    destruct a. unfold CLUTTER_ACTOR_IS_REALIZED in Hr. simpl in *. by subst.
Qed.

Lemma unparent_effect (self old_parent : addr) (a : ClutterActor) (w : World) :
  heap w !! self = Some a -> parent_actor (priv a) = Some old_parent ->
  let w' := clutter_actor_unparent self w in
  exists a1,
    priv a1 = priv a
    /\ heap w' = <[self := with_priv (with_parent_actor None) a1]> (heap w)
    /\ actor_hash (context w') = delete (clutter_actor_get_gid a) (actor_hash (context w))
    /\ (CLUTTER_ACTOR_IN_REPARENT a = false ->
        a1 = with_realized false a
        /\ effects w' = effects w ++ [g_signal_emit self PARENT_SET])
    /\ (CLUTTER_ACTOR_IN_REPARENT a = true ->
        CLUTTER_ACTOR_IS_REALIZED a1 = CLUTTER_ACTOR_IS_REALIZED a).
Proof.
  intros Ha Hparent w'. subst w'.
  unfold clutter_actor_unparent. rewrite Ha, Hparent.
  destruct (unparent_first_step self a w Ha) as (a1 & Hheap & Hpriv & Hhash & Hout & Hin).
  set (w1 := if CLUTTER_ACTOR_IS_REALIZED a then _ else w) in *.
  assert (Ha1 : heap w1 !! self = Some a1) by (rewrite Hheap; apply lookup_insert_eq).
  rewrite Ha1.
  exists a1. split; [exact Hpriv |].
  split.
  { change (heap (store self (with_priv (with_parent_actor None) a1) w1)
            = <[self := with_priv (with_parent_actor None) a1]> (heap w)).
    simpl. by rewrite Hheap, insert_insert_eq. }
  split.
  { change (delete (clutter_actor_get_gid a) (actor_hash (context w1))
            = delete (clutter_actor_get_gid a) (actor_hash (context w))).
    by rewrite Hhash. }
  split; [| exact Hin].
  intros Hrep. destruct (Hout Hrep) as [-> Heff]. split; [done |].
  change (effects w1 ++ [g_signal_emit self PARENT_SET]
          = effects w ++ [g_signal_emit self PARENT_SET]).
  by rewrite Heff.
Qed.

(** X9: [clutter_actor_unparent] changes nothing for an actor without
    parent.  Otherwise it clears the parent link, removes the actor's id
    from the identifier table and leaves the rest of the private data
    alone; outside a reparent the actor ends up unrealized and only
    [parent-set] is emitted, while during a reparent its realized flag is
    kept (the actor is only hidden). *)
Theorem unparent_unlinks (self : addr) (a : ClutterActor) (w : World) :
  heap w !! self = Some a ->
  let w' := clutter_actor_unparent self w in
  (parent_actor (priv a) = None -> w' = w)
  /\ (forall old_parent, parent_actor (priv a) = Some old_parent ->
      exists a',
        heap w' !! self = Some a'
        /\ parent_actor (priv a') = None
        /\ with_parent_actor (Some old_parent) (priv a') = priv a
        /\ (forall other, other <> self -> heap w' !! other = heap w !! other)
        /\ actor_hash (context w') !! clutter_actor_get_gid a = None
        /\ (CLUTTER_ACTOR_IN_REPARENT a = false ->
            CLUTTER_ACTOR_IS_REALIZED a' = false
            /\ effects w' = effects w ++ [g_signal_emit self PARENT_SET])
        /\ (CLUTTER_ACTOR_IN_REPARENT a = true ->
            CLUTTER_ACTOR_IS_REALIZED a' = CLUTTER_ACTOR_IS_REALIZED a)).
Proof.
  intros Ha w'. split.
  - intros Hnone. subst w'. unfold clutter_actor_unparent. by rewrite Ha, Hnone.
  - intros old_parent Hparent.
    destruct (unparent_effect self old_parent a w Ha Hparent)
      as (a1 & Hpriv & Hheap & Hhash & Hout & Hin).
    fold w' in Hheap, Hhash, Hout, Hin.
    exists (with_priv (with_parent_actor None) a1).
    split; [rewrite Hheap; apply lookup_insert_eq |].
    split; [reflexivity |].
    split.
    { cbn [priv with_priv]. rewrite Hpriv.
      destruct (priv a). simpl in Hparent. by subst. }
    split; [intros other Hother; rewrite Hheap; by apply lookup_insert_ne |].
    split; [rewrite Hhash; apply lookup_delete_eq |].
    split.
    + intros Hrep. destruct (Hout Hrep) as [-> Heff]. by split.
    + intros Hrep. by apply Hin.
Qed.

Lemma unparent_unlinks_witness :
  heap sample_world !! 3%positive = Some sample_leaf
  /\ parent_actor (priv sample_leaf) = Some 2%positive
  /\ exists a',
       heap (clutter_actor_unparent 3%positive sample_world) !! 3%positive = Some a'
       /\ parent_actor (priv a') = None
       /\ CLUTTER_ACTOR_IS_REALIZED a' = false.
Proof.
  assert (Hself : heap sample_world !! 3%positive = Some sample_leaf) by reflexivity.
  destruct (proj2 (unparent_unlinks 3%positive sample_leaf sample_world Hself)
              2%positive eq_refl)
    as (a' & Ha' & Hnone & _ & _ & _ & Hout & _).
  split; [exact Hself |]. split; [reflexivity |].
  exists a'. split; [exact Ha' |]. split; [exact Hnone |].
  by destruct (Hout eq_refl).
Defined.

(** X10: giving an actor a parent and taking it away again restores the
    store, for an actor that was neither realized nor in a reparent; the
    identifier table ends up without the actor's id, so it is as before
    when the id was not in it. *)
Theorem set_parent_then_unparent (self parent : addr) (a p : ClutterActor) (w : World) :
  heap w !! self = Some a -> heap w !! parent = Some p -> self <> parent ->
  parent_actor (priv a) = None -> CLUTTER_ACTOR_IS_TOPLEVEL a = false ->
  CLUTTER_ACTOR_IS_REALIZED a = false -> CLUTTER_ACTOR_IN_REPARENT a = false ->
  let w' := clutter_actor_unparent self (clutter_actor_set_parent self parent w) in
  heap w' = heap w
  /\ actor_hash (context w')
     = delete (clutter_actor_get_gid a) (actor_hash (context w))
  /\ (actor_hash (context w) !! clutter_actor_get_gid a = None ->
      actor_hash (context w') = actor_hash (context w))
  /\ effects w' = effects w ++ [g_signal_emit self PARENT_SET; g_signal_emit self PARENT_SET].
Proof.
  intros Ha Hp Hne Hnone Htop Hr Hrep w'.
  destruct (set_parent_effect self parent a p w Ha Hp Hne Hnone Htop)
    as (Hheap & Hhash & Heff & _).
  set (w1 := clutter_actor_set_parent self parent w) in *.
  assert (Ha1 : heap w1 !! self = Some (adopted parent p a))
    by (rewrite Hheap; apply lookup_insert_eq).
  assert (Hlink : parent_actor (priv (adopted parent p a)) = Some parent).
  { unfold adopted. by destruct (CLUTTER_ACTOR_IS_REALIZED p). }
  assert (Hrep1 : CLUTTER_ACTOR_IN_REPARENT (adopted parent p a) = false).
  { unfold adopted. by destruct (CLUTTER_ACTOR_IS_REALIZED p). }
  assert (Hgid : clutter_actor_get_gid (adopted parent p a) = clutter_actor_get_gid a).
  { unfold adopted. by destruct (CLUTTER_ACTOR_IS_REALIZED p). }
  destruct (unparent_effect self parent (adopted parent p a) w1 Ha1 Hlink)
    as (a1 & _ & Hheap' & Hhash' & Hout & _).
  fold w' in Hheap', Hhash', Hout.
  destruct (Hout Hrep1) as [-> Heff'].
  assert (Hback : with_priv (with_parent_actor None) (with_realized false (adopted parent p a))
                  = a).
  { unfold adopted. destruct a as [? ? ? ? ? ? []].
    unfold CLUTTER_ACTOR_IS_REALIZED in Hr. simpl in *. subst.
    by destruct (CLUTTER_ACTOR_IS_REALIZED p). }
  assert (Hdel : actor_hash (context w')
                 = delete (clutter_actor_get_gid a) (actor_hash (context w))).
  { rewrite Hhash', Hgid, Hhash. apply delete_insert_eq. }
  split.
  { rewrite Hheap', Hback, Hheap, insert_insert_eq. by apply insert_id. }
  split; [exact Hdel |].
  split; [intros Hfree; rewrite Hdel; by apply delete_id |].
  rewrite Heff', Heff. by rewrite <- app_assoc.
Qed.

Lemma set_parent_then_unparent_witness :
  let orphan := mkActor false false false false false false sample_private in
  let w := store 4%positive orphan sample_world in
  heap w !! 4%positive = Some orphan
  /\ heap (clutter_actor_unparent 4%positive
             (clutter_actor_set_parent 4%positive 1%positive w)) = heap w
  /\ actor_hash (context (clutter_actor_unparent 4%positive
                            (clutter_actor_set_parent 4%positive 1%positive w)))
     = actor_hash (context w).
Proof.
  intros orphan w.
  assert (Hself : heap w !! 4%positive = Some orphan) by reflexivity.
  assert (Hparent : heap w !! 1%positive = Some sample_root) by reflexivity.
  assert (Hne : 4%positive <> 1%positive) by discriminate.
  destruct (set_parent_then_unparent 4%positive 1%positive orphan sample_root w
              Hself Hparent Hne eq_refl eq_refl eq_refl eq_refl)
    as (Hheap & _ & Hhash & _).
  split; [exact Hself |]. split; [exact Hheap |].
  apply Hhash. reflexivity.
Defined.

(** ** Cycles *)

Lemma opacity_on_two_cycle (h : gmap addr ClutterActor) (s q : addr) (a b : ClutterActor) :
  h !! s = Some a -> parent_actor (priv a) = Some q ->
  h !! q = Some b -> parent_actor (priv b) = Some s ->
  forall fuel,
    clutter_actor_get_opacity fuel h s = None /\ clutter_actor_get_opacity fuel h q = None.
Proof.
  intros Ha Hpa Hb Hpb. induction fuel as [| fuel [IHs IHq]]; [done |].
  split; simpl.
  - rewrite Ha. simpl. by rewrite Hpa, IHq.
  - rewrite Hb. simpl. by rewrite Hpb, IHs.
Qed.

Lemma accumulate_on_two_cycle (CFX_ONE : Z) (CLUTTER_UNITS_TO_INT : Z -> Z)
    (h : gmap addr ClutterActor) (s q : addr) (a b : ClutterActor) :
  h !! s = Some a -> parent_actor (priv a) = Some q ->
  h !! q = Some b -> parent_actor (priv b) = Some s ->
  forall fuel gl,
    _clutter_actor_apply_modelview_transform_recursive
      CFX_ONE CLUTTER_UNITS_TO_INT fuel h s gl = None
    /\ _clutter_actor_apply_modelview_transform_recursive
         CFX_ONE CLUTTER_UNITS_TO_INT fuel h q gl = None.
Proof.
  intros Ha Hpa Hb Hpb. induction fuel as [| fuel IH]; [done |].
  intros gl. destruct (IH gl) as [IHs IHq].
  split; simpl.
  - rewrite Ha. simpl. unfold clutter_actor_get_parent. by rewrite Hpa, IHq.
  - rewrite Hb. simpl. unfold clutter_actor_get_parent. by rewrite Hpb, IHs.
Qed.

(** X11: [clutter_actor_set_parent] does not look at the ancestors of the
    new parent.  It accepts a parent that is a child of the actor itself,
    and in the store it leaves the recursion of
    [clutter_actor_get_opacity] and of the transform accumulator never
    reaches an actor without parent: no amount of fuel gives a result. *)
Theorem set_parent_can_close_a_cycle (CFX_ONE : Z) (CLUTTER_UNITS_TO_INT : Z -> Z)
    (self parent : addr) (a p : ClutterActor) (w : World) :
  heap w !! self = Some a -> heap w !! parent = Some p -> self <> parent ->
  parent_actor (priv a) = None -> CLUTTER_ACTOR_IS_TOPLEVEL a = false ->
  parent_actor (priv p) = Some self ->
  let h' := heap (clutter_actor_set_parent self parent w) in
  (exists a', h' !! self = Some a' /\ parent_actor (priv a') = Some parent)
  /\ h' !! parent = Some p
  /\ forall fuel gl,
       clutter_actor_get_opacity fuel h' self = None
       /\ clutter_actor_get_opacity fuel h' parent = None
       /\ _clutter_actor_apply_modelview_transform_recursive
            CFX_ONE CLUTTER_UNITS_TO_INT fuel h' self gl = None.
Proof.
  intros Ha Hp Hne Hnone Htop Hchild h'.
  destruct (set_parent_effect self parent a p w Ha Hp Hne Hnone Htop) as (Hheap & _).
  assert (Hself : h' !! self = Some (adopted parent p a)).
  { subst h'. rewrite Hheap. apply lookup_insert_eq. }
  assert (Hparent : h' !! parent = Some p).
  { subst h'. rewrite Hheap, lookup_insert_ne by done. exact Hp. }
  assert (Hlink : parent_actor (priv (adopted parent p a)) = Some parent).
  { unfold adopted. by destruct (CLUTTER_ACTOR_IS_REALIZED p). }
  split; [by exists (adopted parent p a) |]. split; [exact Hparent |].
  intros fuel gl.
  destruct (opacity_on_two_cycle h' self parent _ _ Hself Hlink Hparent Hchild fuel)
    as [Ho1 Ho2].
  destruct (accumulate_on_two_cycle CFX_ONE CLUTTER_UNITS_TO_INT h' self parent _ _
              Hself Hlink Hparent Hchild fuel gl) as [Hacc _].
  by repeat split.
Qed.

Lemma set_parent_can_close_a_cycle_witness :
  heap sample_world !! 1%positive = Some sample_root
  /\ heap sample_world !! 2%positive = Some sample_middle
  /\ parent_actor (priv sample_middle) = Some 1%positive
  /\ clutter_actor_get_opacity 100
       (heap (clutter_actor_set_parent 1%positive 2%positive sample_world)) 1%positive
     = None.
Proof.
  assert (Hself : heap sample_world !! 1%positive = Some sample_root) by reflexivity.
  assert (Hparent : heap sample_world !! 2%positive = Some sample_middle) by reflexivity.
  assert (Hne : 1%positive <> 2%positive) by discriminate.
  destruct (set_parent_can_close_a_cycle sample_CFX_ONE sample_UNITS_TO_INT
              1%positive 2%positive sample_root sample_middle sample_world
              Hself Hparent Hne eq_refl eq_refl eq_refl) as (_ & _ & Hloop).
  split; [exact Hself |]. split; [exact Hparent |]. split; [reflexivity |].
  exact (proj1 (Hloop 100%nat [])).
Defined.

(** ** Reparenting *)

Section ReparentCorrect.

Variable CLUTTER_IS_CONTAINER : addr -> bool.
Variable clutter_container_remove_actor : addr -> addr -> World -> World.
Variable clutter_container_add_actor : addr -> addr -> World -> World.

Local Abbreviation reparent :=
  (clutter_actor_reparent CLUTTER_IS_CONTAINER clutter_container_remove_actor
                          clutter_container_add_actor).

Lemma set_parent_actor_field_store (self : addr) (a : ClutterActor) (q : option addr)
    (w : World) :
  heap w !! self = Some a ->
  set_parent_actor_field self q w = store self (with_priv (with_parent_actor q) a) w.
Proof. intros Ha. unfold set_parent_actor_field. by rewrite Ha. Qed.

(** X12: [clutter_actor_reparent] refuses a toplevel actor with a warning
    and does nothing when the new parent is the current one.  Between
    parents that are not containers it rewrites the parent link directly:
    the identifier table is not touched and [parent-set] is not emitted
    (unlike [clutter_actor_set_parent]), the reparent flag is cleared
    again, and a repaint is asked for exactly when actor and new parent
    are both realized. *)
Theorem reparent_without_containers (self new_parent : addr) (a np : ClutterActor)
    (w : World) :
  heap w !! self = Some a -> heap w !! new_parent = Some np -> self <> new_parent ->
  (CLUTTER_ACTOR_IS_TOPLEVEL a = true ->
   reparent self new_parent w
   = emit (g_warning "Cannot set a parent on a toplevel actor\n") w)
  /\ (CLUTTER_ACTOR_IS_TOPLEVEL a = false -> parent_actor (priv a) = Some new_parent ->
      reparent self new_parent w = w)
  /\ (CLUTTER_ACTOR_IS_TOPLEVEL a = false -> parent_actor (priv a) <> Some new_parent ->
      CLUTTER_ACTOR_IN_REPARENT a = false ->
      CLUTTER_IS_CONTAINER new_parent = false ->
      (forall old, parent_actor (priv a) = Some old -> CLUTTER_IS_CONTAINER old = false) ->
      let w' := reparent self new_parent w in
      heap w' = <[self := with_priv (with_parent_actor (Some new_parent)) a]> (heap w)
      /\ actor_hash (context w') = actor_hash (context w)
      /\ effects w' = effects w
      /\ (CLUTTER_ACTOR_IS_REALIZED a && CLUTTER_ACTOR_IS_REALIZED np = true ->
          update_idle (context w') <> 0)
      /\ (CLUTTER_ACTOR_IS_REALIZED a && CLUTTER_ACTOR_IS_REALIZED np = false ->
          main_loop w' = main_loop w
          /\ update_idle (context w') = update_idle (context w))).
Proof.
  intros Ha Hnp Hne.
  split; [| split].
  - intros Htop. unfold clutter_actor_reparent. rewrite Ha, Hnp.
    rewrite bool_decide_eq_false_2 by done. by rewrite Htop.
  - intros Htop Hsame. unfold clutter_actor_reparent. rewrite Ha, Hnp.
    rewrite bool_decide_eq_false_2 by done. rewrite Htop.
    by rewrite bool_decide_eq_false_2 by (intros H; by apply H).
  - intros Htop Hother Hflag Hnew Hold w'. subst w'.
    unfold clutter_actor_reparent. rewrite Ha, Hnp.
    rewrite bool_decide_eq_false_2 by done. rewrite Htop.
    rewrite bool_decide_eq_true_2 by done.
    rewrite Hnew.
    set (both := CLUTTER_ACTOR_IS_REALIZED a && CLUTTER_ACTOR_IS_REALIZED np).
    set (a0 := if both then with_in_reparent true a else a).
    set (w0 := if both then store self (with_in_reparent true a) w else w).
    assert (Hw0 : w0 = store self a0 w).
    { subst w0 a0. destruct both; [done | by rewrite store_same]. }
    assert (Hdetach :
      match parent_actor (priv a) with
      | Some old =>
          if CLUTTER_IS_CONTAINER old
          then clutter_container_remove_actor old self w0
          else set_parent_actor_field self None w0
      | None => set_parent_actor_field self None w0
      end = store self (with_priv (with_parent_actor None) a0) w).
    { assert (Hfield : set_parent_actor_field self None w0
                       = store self (with_priv (with_parent_actor None) a0) w).
      { rewrite Hw0, (set_parent_actor_field_store self a0) by apply lookup_store.
        apply store_store. }
      destruct (parent_actor (priv a)) as [old |] eqn:Hp; [| exact Hfield].
      by rewrite (Hold old eq_refl). }
    rewrite Hdetach.
    rewrite (set_parent_actor_field_store self (with_priv (with_parent_actor None) a0))
      by apply lookup_store.
    rewrite store_store, lookup_store.
    assert (Hfinal : with_in_reparent false
                       (with_priv (with_parent_actor (Some new_parent))
                          (with_priv (with_parent_actor None) a0))
                     = with_priv (with_parent_actor (Some new_parent)) a).
    { subst a0. destruct a as [? ? ? ? ? ? []]. simpl in Hflag. subst. by destruct both. }
    destruct both eqn:Hboth; subst a0.
    + cbn [CLUTTER_ACTOR_IN_REPARENT with_priv with_in_reparent].
      rewrite store_store, Hfinal.
      rewrite heap_queue_redraw, actor_hash_queue_redraw, effects_queue_redraw.
      split; [done |]. split; [done |]. split; [done |].
      split; [intros _; apply queue_redraw_leaves_pending | discriminate].
    + cbn [CLUTTER_ACTOR_IN_REPARENT with_priv]. rewrite Hflag.
      split.
      { simpl. f_equal; by destruct a as [? ? ? ? ? ? []]. }
      split; [done |]. split; [done |]. split; [discriminate | by intros _].
Qed.

End ReparentCorrect.

Lemma reparent_without_containers_witness :
  heap sample_world !! 3%positive = Some sample_leaf
  /\ heap sample_world !! 1%positive = Some sample_root
  /\ heap (clutter_actor_reparent (fun _ => false) (fun _ _ w => w) (fun _ _ w => w)
             3%positive 1%positive sample_world)
     = <[3%positive := with_priv (with_parent_actor (Some 1%positive)) sample_leaf]>
         (heap sample_world)
  /\ actor_hash (context (clutter_actor_reparent (fun _ => false) (fun _ _ w => w)
                            (fun _ _ w => w) 3%positive 1%positive sample_world))
     = actor_hash (context sample_world).
Proof.
  assert (Hself : heap sample_world !! 3%positive = Some sample_leaf) by reflexivity.
  assert (Hparent : heap sample_world !! 1%positive = Some sample_root) by reflexivity.
  assert (Hne : 3%positive <> 1%positive) by discriminate.
  assert (Hother : parent_actor (priv sample_leaf) <> Some 1%positive)
    by (vm_compute; discriminate).
  destruct (reparent_without_containers (fun _ => false) (fun _ _ w => w) (fun _ _ w => w)
              3%positive 1%positive sample_leaf sample_root sample_world
              Hself Hparent Hne) as (_ & _ & Hmove).
  destruct (Hmove eq_refl Hother eq_refl eq_refl (fun _ _ => eq_refl))
    as (Hheap & Hhash & _).
  by repeat split.
Defined.

(** ** Rotation *)

Lemma heap_if_queue_redraw (c : bool) (self : addr) (w : World) :
  heap (if c then clutter_actor_queue_redraw self w else w) = heap w.
Proof. destruct c; [apply heap_queue_redraw | done]. Qed.

(** X13: the angle and centre stored for an axis by
    [clutter_actor_set_rotationx] are what [clutter_actor_get_rotationx]
    returns for that axis; the coordinate the axis does not use is dropped
    by the setter and left untouched in the caller by the getter.  The
    actor changes in the angle and centre of that axis only: putting the
    old ones back gives the old actor, flags, name and id included.  Every
    other actor is as before, nothing is notified, and a repaint is
    scheduled exactly when the actor is visible. *)
Theorem rotation_round_trip (self : addr) (a : ClutterActor) (w : World)
    (axis : ClutterRotateAxis) (angle px py pz : Z) :
  heap w !! self = Some a ->
  let w' := clutter_actor_set_rotationx self axis angle px py pz w in
  let redrawn := if CLUTTER_ACTOR_IS_VISIBLE a then clutter_actor_queue_redraw self w
                 else w in
  exists a',
    heap w' !! self = Some a'
    /\ (forall x0 y0 z0,
          clutter_actor_get_rotationx a' axis x0 y0 z0
          = match axis with
            | CLUTTER_X_AXIS => (angle, x0, py, pz)
            | CLUTTER_Y_AXIS => (angle, px, y0, pz)
            | CLUTTER_Z_AXIS => (angle, px, py, z0)
            end)
    /\ (forall other x0 y0 z0, other <> axis ->
          clutter_actor_get_rotationx a' other x0 y0 z0
          = clutter_actor_get_rotationx a other x0 y0 z0)
    /\ coords (priv a') = coords (priv a)
    /\ (scale_x (priv a'), scale_y (priv a')) = (scale_x (priv a), scale_y (priv a))
    /\ (anchor_x (priv a'), anchor_y (priv a')) = (anchor_x (priv a), anchor_y (priv a))
    /\ z (priv a') = z (priv a)
    /\ opacity (priv a') = opacity (priv a)
    /\ parent_actor (priv a') = parent_actor (priv a)
    /\ (has_clip (priv a'), clip (priv a')) = (has_clip (priv a), clip (priv a))
    /\ with_priv
         match axis with
         | CLUTTER_X_AXIS =>
             with_rotation_x (rxang (priv a)) (rxy (priv a)) (rxz (priv a))
         | CLUTTER_Y_AXIS =>
             with_rotation_y (ryang (priv a)) (ryx (priv a)) (ryz (priv a))
         | CLUTTER_Z_AXIS =>
             with_rotation_z (rzang (priv a)) (rzx (priv a)) (rzy (priv a))
         end a' = a
    /\ (forall other, other <> self -> heap w' !! other = heap w !! other)
    /\ effects w' = effects w /\ cogl w' = cogl w
    /\ context w' = context redrawn /\ main_loop w' = main_loop redrawn.
Proof.
  intros Ha w' redrawn. subst w' redrawn.
  unfold clutter_actor_set_rotationx. rewrite Ha. cbv zeta.
  set (a' := match axis with
             | CLUTTER_X_AXIS => with_priv (with_rotation_x angle py pz) a
             | CLUTTER_Y_AXIS => with_priv (with_rotation_y angle px pz) a
             | CLUTTER_Z_AXIS => with_priv (with_rotation_z angle px py) a
             end).
  assert (Hvisible : CLUTTER_ACTOR_IS_VISIBLE a' = CLUTTER_ACTOR_IS_VISIBLE a)
    by (subst a'; by destruct axis).
  rewrite Hvisible. exists a'.
  split; [rewrite heap_if_queue_redraw; apply lookup_store |].
  split; [subst a'; by destruct axis |].
  split; [subst a'; intros [] x0 y0 z0 Hother; by destruct axis |].
  do 7 (split; [subst a'; by destruct axis |]).
  split; [subst a'; destruct axis; by destruct a as [? ? ? ? ? ? []] |].
  split.
  { intros other Hother. rewrite heap_if_queue_redraw. by apply lookup_store_ne. }
  destruct (CLUTTER_ACTOR_IS_VISIBLE a); [| by repeat split].
  rewrite effects_queue_redraw, cogl_queue_redraw.
  destruct (context_queue_redraw_frame self (store self a' w) w eq_refl eq_refl)
    as [-> ->].
  by repeat split.
Qed.

Lemma rotation_round_trip_witness :
  heap sample_world !! 3%positive = Some sample_leaf
  /\ exists a',
       heap (clutter_actor_set_rotationx 3%positive CLUTTER_Y_AXIS 2949120 50 99 7
                                         sample_world) !! 3%positive = Some a'
       /\ clutter_actor_get_rotationx a' CLUTTER_Y_AXIS 0 (-1) 0 = (2949120, 50, -1, 7).
Proof.
  assert (Hself : heap sample_world !! 3%positive = Some sample_leaf) by reflexivity.
  destruct (rotation_round_trip 3%positive sample_leaf sample_world CLUTTER_Y_AXIS
              2949120 50 99 7 Hself) as (a' & Ha' & Hget & _).
  split; [exact Hself |]. exists a'. split; [exact Ha' |]. apply Hget.
Defined.

(** ** Clip *)

Lemma composer_calls (CFX_ONE : Z) (CLUTTER_UNITS_TO_INT : Z -> Z)
    (self : ClutterActor) (gl : Cogl) :
  _clutter_actor_apply_modelview_transform CFX_ONE CLUTTER_UNITS_TO_INT self gl
  = gl ++ composer_sequence CFX_ONE CLUTTER_UNITS_TO_INT self.
Proof.
  unfold _clutter_actor_apply_modelview_transform, composer_sequence,
    composer_sequence_with, clutter_actor_get_parent, has_parent.
  cbv zeta. rewrite !when_issue3, !when_issue. by rewrite <- !app_assoc.
Qed.

Lemma clip_set_in_opt (c : bool) (calls : list CoglCall) (g : ClutterGeometry) :
  cogl_clip_set g ∈ opt c calls -> cogl_clip_set g ∈ calls.
Proof. destruct c; simpl; [done |]. by intros ?%elem_of_nil. Qed.

Lemma composer_sequence_clip (CFX_ONE : Z) (CLUTTER_UNITS_TO_INT : Z -> Z)
    (a : ClutterActor) (g : ClutterGeometry) :
  cogl_clip_set g ∈ composer_sequence CFX_ONE CLUTTER_UNITS_TO_INT a
  <-> has_clip (priv a) = true /\ g = clip (priv a).
Proof.
  unfold composer_sequence, composer_sequence_with. split.
  - intros Hin.
    repeat (apply elem_of_app in Hin as [Hin | Hin];
            [apply clip_set_in_opt in Hin;
             repeat (apply elem_of_cons in Hin as [Hin | Hin]; [discriminate |]);
             by apply elem_of_nil in Hin |]).
    destruct (has_clip (priv a)); simpl in Hin.
    + apply list_elem_of_singleton in Hin. by inversion Hin.
    + by apply elem_of_nil in Hin.
  - intros [Hclip ->]. rewrite Hclip.
    rewrite !elem_of_app. do 7 right. simpl. by apply list_elem_of_singleton.
Qed.

(** X14: the rectangle given to [clutter_actor_set_clip] is what
    [clutter_actor_get_clip] returns.  [clutter_actor_remove_clip] only
    clears the flag: the rectangle stays stored, but [clutter_actor_get_clip]
    writes nothing and the composer sets no clip.  Neither function asks
    for a repaint, whether or not the actor is visible. *)
Theorem clip_round_trip (CFX_ONE : Z) (CLUTTER_UNITS_TO_INT : Z -> Z)
    (self : addr) (a : ClutterActor) (w : World) (xoff yoff width height : Z) :
  heap w !! self = Some a ->
  let w1 := clutter_actor_set_clip self xoff yoff width height w in
  let w2 := clutter_actor_remove_clip self w1 in
  (exists a1,
     heap w1 !! self = Some a1
     /\ clutter_actor_has_clip a1 = true
     /\ clutter_actor_get_clip a1 = Some (xoff, yoff, width, height)
     /\ cogl_clip_set (mkGeometry xoff yoff width height)
        ∈ _clutter_actor_apply_modelview_transform CFX_ONE CLUTTER_UNITS_TO_INT a1 [])
  /\ (exists a2,
        heap w2 !! self = Some a2
        /\ clutter_actor_has_clip a2 = false
        /\ clutter_actor_get_clip a2 = None
        /\ clip (priv a2) = mkGeometry xoff yoff width height
        /\ forall g,
             cogl_clip_set g
             ∉ _clutter_actor_apply_modelview_transform CFX_ONE CLUTTER_UNITS_TO_INT a2 [])
  /\ main_loop w2 = main_loop w
  /\ update_idle (context w2) = update_idle (context w)
  /\ effects w2 = effects w ++ [g_object_notify self "has-clip"; g_object_notify self "clip";
                                g_object_notify self "has-clip"].
Proof.
  intros Ha w1 w2.
  assert (Hw1 : w1 = emit (g_object_notify self "clip")
                       (emit (g_object_notify self "has-clip")
                          (store self
                             (with_priv (with_clip (mkGeometry xoff yoff width height) true) a)
                             w))).
  { subst w1. unfold clutter_actor_set_clip. by rewrite Ha. }
  set (a1 := with_priv (with_clip (mkGeometry xoff yoff width height) true) a) in *.
  assert (Ha1 : heap w1 !! self = Some a1).
  { rewrite Hw1. rewrite !heap_emit. apply lookup_store. }
  assert (Hw2 : w2 = emit (g_object_notify self "has-clip")
                       (store self (with_priv (with_clip (clip (priv a1)) false) a1) w1)).
  { subst w2. unfold clutter_actor_remove_clip. by rewrite Ha1. }
  set (a2 := with_priv (with_clip (clip (priv a1)) false) a1) in *.
  split; [| split].
  - exists a1. split; [exact Ha1 |]. split; [reflexivity |]. split; [reflexivity |].
    rewrite composer_calls. simpl. by apply composer_sequence_clip.
  - exists a2. split; [rewrite Hw2, heap_emit; apply lookup_store |].
    split; [reflexivity |]. split; [reflexivity |]. split; [reflexivity |].
    intros g Hin. rewrite composer_calls in Hin. simpl in Hin.
    apply composer_sequence_clip in Hin as [Hclip _]. discriminate.
  - rewrite Hw2, Hw1. split; [reflexivity |]. split; [reflexivity |].
    simpl. by rewrite <- !app_assoc.
Qed.

Lemma clip_round_trip_witness :
  heap sample_world !! 3%positive = Some sample_leaf
  /\ CLUTTER_ACTOR_IS_VISIBLE sample_leaf = true
  /\ main_loop (clutter_actor_remove_clip 3%positive
                  (clutter_actor_set_clip 3%positive 1 2 30 40 sample_world))
     = main_loop sample_world.
Proof.
  assert (Hself : heap sample_world !! 3%positive = Some sample_leaf) by reflexivity.
  destruct (clip_round_trip sample_CFX_ONE sample_UNITS_TO_INT 3%positive sample_leaf
              sample_world 1 2 30 40 Hself) as (_ & _ & Hloop & _).
  by repeat split.
Defined.

(** ** Painting *)

Section PaintCorrect.

Variable CFX_ONE : Z.
Variable CLUTTER_UNITS_TO_INT : Z -> Z.
Variable cogl_get_bitmasks : Cogl -> Z * Z * Z.

Local Abbreviation paint :=
  (clutter_actor_paint CFX_ONE CLUTTER_UNITS_TO_INT cogl_get_bitmasks).
Local Abbreviation calls := (paint_calls CFX_ONE CLUTTER_UNITS_TO_INT cogl_get_bitmasks).

Lemma composer_sequence_realized (a : ClutterActor) :
  composer_sequence CFX_ONE CLUTTER_UNITS_TO_INT (with_realized true a)
  = composer_sequence CFX_ONE CLUTTER_UNITS_TO_INT a.
Proof. reflexivity. Qed.

Lemma paint_effect (self : addr) (a : ClutterActor) (w : World) :
  heap w !! self = Some a ->
  paint self w
  = with_cogl (cogl w ++ calls (context w) (cogl w) a)
              (store self (with_realized true a) w).
Proof.
  intros Ha. unfold clutter_actor_paint. rewrite Ha.
  assert (Hstep : (if negb (CLUTTER_ACTOR_IS_REALIZED a)
                   then clutter_actor_realize self w else w)
                  = store self (with_realized true a) w).
  { destruct (CLUTTER_ACTOR_IS_REALIZED a) eqn:Hr; cbn [negb].
    - rewrite with_realized_same by done. by rewrite store_same.
    - by apply realize_unrealized. }
  rewrite Hstep, lookup_store.
  change (CLUTTER_ACTOR_IS_REALIZED (with_realized true a)) with true. cbn [negb].
  cbv zeta. f_equal.
  rewrite composer_calls, composer_sequence_realized.
  change (context (store self (with_realized true a) w)) with (context w).
  change (cogl (store self (with_realized true a) w)) with (cogl w).
  change (has_clip (priv (with_realized true a))) with (has_clip (priv a)).
  rewrite when_issue.
  unfold paint_calls, silhouette, issue. cbv zeta.
  rewrite <- !app_assoc.
  destruct (cogl_get_bitmasks (cogl w ++ [cogl_push_matrix]
                                 ++ composer_sequence CFX_ONE CLUTTER_UNITS_TO_INT a))
    as [[r g] b].
  unfold clutter_actor_pick, clutter_actor_real_pick, issue.
  change (clutter_actor_should_pick_paint (context w) (with_realized true a))
    with (clutter_actor_should_pick_paint (context w) a).
  destruct (bool_decide (pick_mode (context w) ≠ CLUTTER_PICK_NONE));
    [destruct (clutter_actor_should_pick_paint (context w) a) |];
    cbn [andb]; rewrite <- ?app_assoc; reflexivity.
Qed.

Lemma drawing_in_opt (c : bool) (l : list CoglCall) (call : CoglCall) :
  call ∈ opt c l -> call ∈ l.
Proof. destruct c; simpl; [done |]. by intros ?%elem_of_nil. Qed.

Lemma composer_sequence_never_draws (a : ClutterActor) (call : CoglCall) :
  call ∈ composer_sequence CFX_ONE CLUTTER_UNITS_TO_INT a ->
  ~ is_drawing call /\ call <> cogl_clip_unset /\ call <> cogl_push_matrix
  /\ call <> cogl_pop_matrix.
Proof.
  unfold composer_sequence, composer_sequence_with. intros Hin.
  repeat (apply elem_of_app in Hin as [Hin | Hin];
          [apply drawing_in_opt in Hin;
           repeat (apply elem_of_cons in Hin as [-> | Hin];
                   [split; [intros H; exact H | repeat split; discriminate] |]);
           by apply elem_of_nil in Hin |]).
  apply drawing_in_opt in Hin. apply list_elem_of_singleton in Hin as ->.
  split; [intros H; exact H | repeat split; discriminate].
Qed.

(** X15: what painting one actor of the base class sends to the backend.
    The calls are a push, the composer's sequence, the silhouette in pick
    mode, the removal of the clip when the actor has one, and a pop, after
    everything the backend had received.  So every clip the composer sets
    is unset again, and a colour or rectangle is sent only in pick mode
    and only for a mapped actor that is reactive or picked in the
    "all" mode.  Painting realizes the actor and touches neither the
    effects nor the scheduling of repaints. *)
Theorem paint_is_bracketed (self : addr) (a : ClutterActor) (w : World) :
  heap w !! self = Some a ->
  let w' := paint self w in
  let sent := calls (context w) (cogl w) a in
  cogl w' = cogl w ++ sent
  /\ head sent = Some cogl_push_matrix /\ last sent = Some cogl_pop_matrix
  /\ ((exists g, cogl_clip_set g ∈ sent) <-> cogl_clip_unset ∈ sent)
  /\ ((exists call, call ∈ sent /\ is_drawing call)
      <-> pick_mode (context w) <> CLUTTER_PICK_NONE
          /\ CLUTTER_ACTOR_IS_MAPPED a = true
          /\ (pick_mode (context w) = CLUTTER_PICK_ALL
              \/ CLUTTER_ACTOR_IS_REACTIVE a = true))
  /\ heap w' = <[self := with_realized true a]> (heap w)
  /\ effects w' = effects w /\ context w' = context w /\ main_loop w' = main_loop w.
Proof.
  intros Ha w' sent. subst w'. rewrite (paint_effect self a w Ha). fold sent.
  split; [reflexivity |].
  split; [reflexivity |].
  split.
  { subst sent. unfold paint_calls. cbv zeta.
    rewrite !app_assoc. apply last_snoc. }
  assert (Hsil : forall bits call,
            call ∈ silhouette CLUTTER_UNITS_TO_INT (context w) a bits -> is_drawing call).
  { intros [[r g] b] call. unfold silhouette.
    destruct (_ && _); [| by intros ?%elem_of_nil].
    intros Hin. repeat (apply elem_of_cons in Hin as [-> | Hin]; [exact I |]).
    by apply elem_of_nil in Hin. }
  assert (Hpick : forall bits,
            silhouette CLUTTER_UNITS_TO_INT (context w) a bits <> []
            <-> pick_mode (context w) <> CLUTTER_PICK_NONE
                /\ CLUTTER_ACTOR_IS_MAPPED a = true
                /\ (pick_mode (context w) = CLUTTER_PICK_ALL
                    \/ CLUTTER_ACTOR_IS_REACTIVE a = true)).
  { intros [[r g] b]. unfold silhouette, clutter_actor_should_pick_paint.
    destruct (bool_decide (pick_mode (context w) ≠ CLUTTER_PICK_NONE)) eqn:Hmode;
      [apply bool_decide_eq_true in Hmode | apply bool_decide_eq_false in Hmode].
    - destruct (CLUTTER_ACTOR_IS_MAPPED a); cbn [andb].
      + destruct (bool_decide (pick_mode (context w) = CLUTTER_PICK_ALL)) eqn:Hall;
          [apply bool_decide_eq_true in Hall | apply bool_decide_eq_false in Hall].
        * cbn [orb]. split; [by auto | discriminate].
        * cbn [orb]. destruct (CLUTTER_ACTOR_IS_REACTIVE a).
          -- split; [by auto | discriminate].
          -- split; [done | intros (_ & _ & [? | ?]); done].
      + split; [done | intros (_ & ? & _); done].
    - cbn [andb]. split; [done | intros [? _]; by destruct Hmode]. }
  split; [| split; [| by repeat split]].
  - subst sent. unfold paint_calls. cbv zeta. split.
    + intros [g Hin].
      rewrite !elem_of_app in Hin. rewrite !elem_of_app.
      destruct Hin as [[Hin | Hin] | [Hin | [Hin | Hin]]].
      * apply list_elem_of_singleton in Hin. discriminate.
      * apply composer_sequence_clip in Hin as [Hclip _].
        right. right. left. rewrite Hclip. simpl. by apply list_elem_of_singleton.
      * by apply Hsil in Hin.
      * apply drawing_in_opt, list_elem_of_singleton in Hin. discriminate.
      * apply list_elem_of_singleton in Hin. discriminate.
    + intros Hin. rewrite !elem_of_app in Hin.
      destruct Hin as [[Hin | Hin] | [Hin | [Hin | Hin]]].
      * apply list_elem_of_singleton in Hin. discriminate.
      * apply composer_sequence_never_draws in Hin. by destruct Hin as (_ & ? & _).
      * by apply Hsil in Hin.
      * destruct (has_clip (priv a)) eqn:Hclip; [| by apply elem_of_nil in Hin].
        exists (clip (priv a)). rewrite !elem_of_app. left. right.
        by apply composer_sequence_clip.
      * apply list_elem_of_singleton in Hin. discriminate.
  - subst sent. unfold paint_calls. cbv zeta.
    set (bits := cogl_get_bitmasks _).
    rewrite <- (Hpick bits). split.
    + intros (call & Hin & Hdraw). rewrite !elem_of_app in Hin.
      destruct Hin as [[Hin | Hin] | [Hin | [Hin | Hin]]].
      * apply list_elem_of_singleton in Hin. by subst.
      * apply composer_sequence_never_draws in Hin. by destruct Hin.
      * intros Hnil. rewrite Hnil in Hin. by apply elem_of_nil in Hin.
      * apply drawing_in_opt, list_elem_of_singleton in Hin. by subst.
      * apply list_elem_of_singleton in Hin. by subst.
    + intros Hne.
      destruct (silhouette CLUTTER_UNITS_TO_INT (context w) a bits) as [| call rest] eqn:Hs;
        [done |].
      exists call. split.
      * rewrite !elem_of_app. right. left. apply list_elem_of_here.
      * apply (Hsil bits). rewrite Hs. apply list_elem_of_here.
Qed.

End PaintCorrect.

Lemma paint_is_bracketed_witness :
  heap sample_world !! 3%positive = Some sample_leaf
  /\ cogl (clutter_actor_paint sample_CFX_ONE sample_UNITS_TO_INT sample_bitmasks
             3%positive sample_world)
     = cogl sample_world
       ++ paint_calls sample_CFX_ONE sample_UNITS_TO_INT sample_bitmasks
            (context sample_world) (cogl sample_world) sample_leaf.
Proof.
  assert (Hself : heap sample_world !! 3%positive = Some sample_leaf) by reflexivity.
  destruct (paint_is_bracketed sample_CFX_ONE sample_UNITS_TO_INT sample_bitmasks
              3%positive sample_leaf sample_world Hself) as (Hcogl & _).
  by split.
Defined.

(** ** Absolute position and size *)

Section AbsoluteCorrect.

Variable CFX_ONE : Z.
Variable CLUTTER_UNITS_TO_INT : Z -> Z.
Variable CFX_QMUL : Z -> Z -> Z.
Variable CFX_MUL : Z -> Z -> Z.
Variable CFX_DIV : Z -> Z -> Z.
Variable cogl_get_modelview_matrix : Cogl -> list Z.
Variable cogl_get_projection_matrix : Cogl -> list Z.
Variable cogl_get_viewport : Cogl -> list Z.

Local Abbreviation get_vertices :=
  (clutter_actor_get_vertices CFX_ONE CLUTTER_UNITS_TO_INT CFX_QMUL CFX_MUL CFX_DIV
     cogl_get_modelview_matrix cogl_get_projection_matrix cogl_get_viewport).
Local Abbreviation apply_transform_to_point :=
  (clutter_actor_apply_transform_to_point CFX_ONE CLUTTER_UNITS_TO_INT CFX_QMUL CFX_MUL
     CFX_DIV cogl_get_modelview_matrix cogl_get_projection_matrix cogl_get_viewport).
Local Abbreviation get_abs_position_units :=
  (clutter_actor_get_abs_position_units CFX_ONE CLUTTER_UNITS_TO_INT CFX_QMUL CFX_MUL
     CFX_DIV cogl_get_modelview_matrix cogl_get_projection_matrix cogl_get_viewport).
Local Abbreviation get_abs_position :=
  (clutter_actor_get_abs_position CFX_ONE CLUTTER_UNITS_TO_INT CFX_QMUL CFX_MUL
     CFX_DIV cogl_get_modelview_matrix cogl_get_projection_matrix cogl_get_viewport).
Local Abbreviation accumulate :=
  (_clutter_actor_apply_modelview_transform_recursive CFX_ONE CLUTTER_UNITS_TO_INT).
Local Abbreviation compose_chain := (compose_chain CFX_ONE CLUTTER_UNITS_TO_INT).

(** [clutter_actor_apply_transform_to_point] in one piece, whatever the
    fuel. *)
Lemma apply_transform_to_point_unfold fuel h self point gl :
  apply_transform_to_point fuel h self point gl
  = _ ← h !! self;
    gl_m ← accumulate fuel h self (gl ++ [cogl_push_matrix]);
    let gl' := gl_m ++ [cogl_pop_matrix] in
    let p := to_clip CFX_QMUL (cogl_get_modelview_matrix gl_m)
               (cogl_get_projection_matrix gl')
               (vertex_x point, vertex_y point, vertex_z point, CFX_ONE) in
    if clip_w p =? 0 then None
    else Some (clip_xyz p, to_device CFX_ONE CFX_MUL CFX_DIV (cogl_get_viewport gl') p, gl').
Proof.
  unfold clutter_actor_apply_transform_to_point, clutter_actor_transform_point.
  destruct (h !! self) as [a |]; [| reflexivity]. cbn [mbind option_bind].
  change (issue cogl_push_matrix gl) with (gl ++ [cogl_push_matrix]).
  destruct (accumulate fuel h self (gl ++ [cogl_push_matrix])) as [gl_m |];
    [| reflexivity].
  cbn [mbind option_bind]. cbv zeta. unfold issue, to_clip.
  rewrite !mtx_transform_spec.
  destruct (transformPoint CFX_QMUL (cogl_get_modelview_matrix gl_m) _)
    as [[[x0 y0] z0] w0].
  cbn [mbind option_bind]. rewrite mtx_transform_spec.
  destruct (transformPoint CFX_QMUL
              (cogl_get_projection_matrix (gl_m ++ [cogl_pop_matrix])) (x0, y0, z0, w0))
    as [[[px py] pz] pw].
  cbn [vertex_x vertex_y vertex_z clip_w snd clip_xyz to_device].
  unfold MTX_GL_SCALE_Z. rewrite !MTX_GL_SCALE_X_spec, MTX_GL_SCALE_Y_spec.
  by destruct (pw =? 0).
Qed.

(** The same along a chain of parents that ends, with fuel for it. *)
Lemma apply_transform_along_lineage h self chain a fuel point gl :
  lineage h self chain -> h !! self = Some a -> (length chain <= fuel)%nat ->
  let gl_m := compose_chain chain (gl ++ [cogl_push_matrix]) in
  let gl' := gl_m ++ [cogl_pop_matrix] in
  let p := to_clip CFX_QMUL (cogl_get_modelview_matrix gl_m)
             (cogl_get_projection_matrix gl')
             (vertex_x point, vertex_y point, vertex_z point, CFX_ONE) in
  apply_transform_to_point fuel h self point gl
  = if clip_w p =? 0 then None
    else Some (clip_xyz p, to_device CFX_ONE CFX_MUL CFX_DIV (cogl_get_viewport gl') p, gl').
Proof.
  intros Hl Ha Hfuel. rewrite apply_transform_to_point_unfold, Ha.
  cbn [mbind option_bind].
  change (gl ++ [cogl_push_matrix]) with (issue cogl_push_matrix gl).
  by rewrite (accumulate_along_lineage CFX_ONE CLUTTER_UNITS_TO_INT h self chain Hl
                fuel (issue cogl_push_matrix gl) Hfuel).
Qed.

(** What a returning [clutter_actor_get_vertices] has returned. *)
Lemma get_vertices_found h self chain a fuel verts gl vs gl'' :
  lineage h self chain -> h !! self = Some a -> (length chain <= fuel)%nat ->
  length verts = 4%nat ->
  get_vertices fuel h self verts gl = Some (vs, gl'') ->
  let gl_m := compose_chain chain (gl ++ [cogl_push_matrix]) in
  let gl' := gl_m ++ [cogl_pop_matrix] in
  let clip := clip_corners CFX_ONE CFX_QMUL (cogl_get_modelview_matrix gl_m)
                (cogl_get_projection_matrix gl') a in
  gl'' = gl'
  /\ vs = map (to_device CFX_ONE CFX_MUL CFX_DIV (cogl_get_viewport gl')) clip
  /\ Forall (fun p => clip_w p <> 0) clip.
Proof.
  intros Hl Ha Hfuel Hv Hfound gl_m gl' clip.
  rewrite (get_vertices_unfold CFX_ONE CLUTTER_UNITS_TO_INT CFX_QMUL CFX_MUL CFX_DIV
             cogl_get_modelview_matrix cogl_get_projection_matrix cogl_get_viewport
             fuel h self verts gl Hv), Ha in Hfound.
  cbn [mbind option_bind] in Hfound.
  change (gl ++ [cogl_push_matrix]) with (issue cogl_push_matrix gl) in Hfound.
  rewrite (accumulate_along_lineage CFX_ONE CLUTTER_UNITS_TO_INT h self chain Hl
             fuel (issue cogl_push_matrix gl) Hfuel) in Hfound.
  cbn [mbind option_bind] in Hfound. cbv zeta in Hfound.
  change (issue cogl_push_matrix gl) with (gl ++ [cogl_push_matrix]) in Hfound.
  fold gl_m in Hfound. fold gl' in Hfound. fold clip in Hfound.
  destruct (all_rescalable clip) eqn:Hall; [| discriminate].
  injection Hfound as <- <-.
  split; [reflexivity |]. split; [reflexivity |].
  by apply all_rescalable_Forall.
Qed.

(** X16: the absolute position of an actor is its local origin taken
    through the accumulated modelview matrix, the projection matrix and
    the device rescale, which is corner 0 of its transformed box.  Along a
    chain of parents that ends, [clutter_actor_get_abs_position_units]
    returns the x and y of that vertex whenever the projected fourth
    coordinate of the origin is not zero, and does not come back when it
    is zero; the pixel variant converts both coordinates from units.
    Whenever [clutter_actor_get_vertices] returns, the position is
    returned too, it is the x and y of vertex 0, and the backend has
    received the same calls.  (The position needs the origin alone to be
    rescalable, the vertices all four corners.) *)
Theorem abs_position_is_first_vertex fuel h self chain a gl :
  lineage h self chain -> h !! self = Some a -> (length chain <= fuel)%nat ->
  let gl_m := compose_chain chain (gl ++ [cogl_push_matrix]) in
  let gl' := gl_m ++ [cogl_pop_matrix] in
  let origin := to_clip CFX_QMUL (cogl_get_modelview_matrix gl_m)
                  (cogl_get_projection_matrix gl') (0, 0, 0, CFX_ONE) in
  let v0 := to_device CFX_ONE CFX_MUL CFX_DIV (cogl_get_viewport gl') origin in
  let position :=
    clutter_actor_get_abs_position_units CFX_ONE CLUTTER_UNITS_TO_INT CFX_QMUL CFX_MUL
      CFX_DIV cogl_get_modelview_matrix cogl_get_projection_matrix cogl_get_viewport
      fuel h self gl in
  let pixels :=
    clutter_actor_get_abs_position CFX_ONE CLUTTER_UNITS_TO_INT CFX_QMUL CFX_MUL
      CFX_DIV cogl_get_modelview_matrix cogl_get_projection_matrix cogl_get_viewport
      fuel h self gl in
  (clip_w origin <> 0 ->
   position = Some (vertex_x v0, vertex_y v0, gl')
   /\ pixels = Some (CLUTTER_UNITS_TO_INT (vertex_x v0),
                    CLUTTER_UNITS_TO_INT (vertex_y v0), gl'))
  /\ (clip_w origin = 0 -> position = None /\ pixels = None)
  /\ (forall verts vs gl'',
        length verts = 4%nat ->
        clutter_actor_get_vertices CFX_ONE CLUTTER_UNITS_TO_INT CFX_QMUL CFX_MUL CFX_DIV
          cogl_get_modelview_matrix cogl_get_projection_matrix cogl_get_viewport
          fuel h self verts gl = Some (vs, gl'') ->
        position = Some (vertex_x (vs !!! 0%nat), vertex_y (vs !!! 0%nat), gl'')).
Proof.
  intros Hl Ha Hfuel gl_m gl' origin v0 position pixels.
  assert (Hposition : position
                      = if clip_w origin =? 0 then None
                        else Some (vertex_x v0, vertex_y v0, gl')).
  { subst position. unfold clutter_actor_get_abs_position_units. rewrite Ha.
    cbn [mbind option_bind].
    rewrite (apply_transform_along_lineage h self chain a fuel (mkVertex 0 0 0) gl
               Hl Ha Hfuel).
    cbn [vertex_x vertex_y vertex_z]. fold gl_m. fold gl'. fold origin. fold v0.
    by destruct (clip_w origin =? 0). }
  assert (Hpixels : pixels
                    = '(xu, yu, gl) ← position;
                      Some (CLUTTER_UNITS_TO_INT xu, CLUTTER_UNITS_TO_INT yu, gl)).
  { subst pixels. unfold clutter_actor_get_abs_position. by rewrite Ha. }
  rewrite Hpixels, Hposition.
  split; [| split].
  - intros Hw. by rewrite (proj2 (Z.eqb_neq _ _) Hw).
  - intros Hw. by rewrite (proj2 (Z.eqb_eq _ _) Hw).
  - intros verts vs gl'' Hv Hfound.
    destruct (get_vertices_found h self chain a fuel verts gl vs gl'' Hl Ha Hfuel Hv
                Hfound) as (-> & -> & Hall).
    unfold clip_corners, local_corners in Hall |- *. cbn [map] in Hall |- *.
    apply Forall_cons in Hall as [Hw _]. fold gl_m gl' in Hw. fold origin in Hw.
    rewrite (proj2 (Z.eqb_neq _ _) Hw). reflexivity.
Qed.

End AbsoluteCorrect.

Lemma abs_position_is_first_vertex_witness :
  lineage sample_pixel_heap 1%positive [sample_pixel]
  /\ sample_pixel_heap !! 1%positive = Some sample_pixel
  /\ clutter_actor_get_abs_position_units sample_CFX_ONE sample_UNITS_TO_INT
       sample_CFX_QMUL sample_CFX_MUL sample_CFX_DIV sample_matrix sample_skew_projection
       sample_viewport 1 sample_pixel_heap 1%positive []
     = Some (26214400, 19660800, [cogl_push_matrix; cogl_pop_matrix])
  /\ clutter_actor_get_vertices sample_CFX_ONE sample_UNITS_TO_INT
       sample_CFX_QMUL sample_CFX_MUL sample_CFX_DIV sample_matrix sample_skew_projection
       sample_viewport 1 sample_pixel_heap 1%positive (replicate 4 (mkVertex 0 0 0)) []
     = None.
Proof.
  assert (Hself : sample_pixel_heap !! 1%positive = Some sample_pixel) by reflexivity.
  assert (Hl : lineage sample_pixel_heap 1%positive [sample_pixel])
    by (by apply lineage_root).
  assert (Hfuel : (length [sample_pixel] <= 1)%nat) by (simpl; lia).
  destruct (abs_position_is_first_vertex sample_CFX_ONE sample_UNITS_TO_INT
              sample_CFX_QMUL sample_CFX_MUL sample_CFX_DIV sample_matrix
              sample_skew_projection sample_viewport 1 sample_pixel_heap 1%positive
              [sample_pixel] sample_pixel [] Hl Hself Hfuel) as (Hreturns & _ & _).
  assert (Hw : clip_w (to_clip sample_CFX_QMUL (sample_matrix [cogl_push_matrix])
                         (sample_skew_projection [cogl_push_matrix; cogl_pop_matrix])
                         (0, 0, 0, sample_CFX_ONE)) <> 0)
    by (vm_compute; discriminate).
  destruct (Hreturns Hw) as [Hposition _].
  split; [exact Hl |]. split; [exact Hself |].
  split; [rewrite Hposition; vm_compute; reflexivity |].
  vm_compute. reflexivity.
Defined.

Lemma min_step (a v : Z) : (if v <? a then v else a) = Z.min a v.
Proof. destruct (Z.ltb_spec v a); lia. Qed.

Lemma max_step (a v : Z) : (if a <? v then v else a) = Z.max a v.
Proof. destruct (Z.ltb_spec a v); lia. Qed.

Lemma abs_size_of_four (v0 v1 v2 v3 : ClutterVertex) :
  abs_size_of_vertices [v0; v1; v2; v3]
  = (envelope (vertex_x <$> [v0; v1; v2; v3]), envelope (vertex_y <$> [v0; v1; v2; v3])).
Proof.
  unfold abs_size_of_vertices, envelope, abs_size_step.
  cbn [seq foldl fmap list_fmap lookup_total list_lookup_total].
  by rewrite !min_step, !max_step.
Qed.

Lemma foldl_max_bounds (zs : list Z) (z0 : Z) :
  (forall z, z ∈ z0 :: zs -> z <= foldl Z.max z0 zs)
  /\ foldl Z.max z0 zs ∈ z0 :: zs.
Proof.
  revert z0. induction zs as [| z zs IH]; intros z0; cbn [foldl].
  - split; [| apply list_elem_of_here].
    intros z' Hin. apply list_elem_of_singleton in Hin. lia.
  - destruct (IH (Z.max z0 z)) as [Hge Hin]. split.
    + intros z' Hz'.
      pose proof (Hge (Z.max z0 z) (list_elem_of_here _ _)) as Hhead.
      apply elem_of_cons in Hz' as [-> | Hz']; [lia |].
      apply elem_of_cons in Hz' as [-> | Hz']; [lia |].
      apply Hge. by apply list_elem_of_further.
    + apply elem_of_cons in Hin as [Hin | Hin].
      * rewrite Hin. destruct (Z.max_spec z0 z) as [[_ ->] | [_ ->]].
        -- apply list_elem_of_further, list_elem_of_here.
        -- apply list_elem_of_here.
      * by do 2 apply list_elem_of_further.
Qed.

Lemma foldl_min_bounds (zs : list Z) (z0 : Z) :
  (forall z, z ∈ z0 :: zs -> foldl Z.min z0 zs <= z)
  /\ foldl Z.min z0 zs ∈ z0 :: zs.
Proof.
  revert z0. induction zs as [| z zs IH]; intros z0; cbn [foldl].
  - split; [| apply list_elem_of_here].
    intros z' Hin. apply list_elem_of_singleton in Hin. lia.
  - destruct (IH (Z.min z0 z)) as [Hle Hin]. split.
    + intros z' Hz'.
      pose proof (Hle (Z.min z0 z) (list_elem_of_here _ _)) as Hhead.
      apply elem_of_cons in Hz' as [-> | Hz']; [lia |].
      apply elem_of_cons in Hz' as [-> | Hz']; [lia |].
      apply Hle. by apply list_elem_of_further.
    + apply elem_of_cons in Hin as [Hin | Hin].
      * rewrite Hin. destruct (Z.min_spec z0 z) as [[_ ->] | [_ ->]].
        -- apply list_elem_of_here.
        -- apply list_elem_of_further, list_elem_of_here.
      * by do 2 apply list_elem_of_further.
Qed.

(** The envelope reaches from the least to the greatest coordinate. *)
Lemma envelope_covers (zs : list Z) :
  Forall half_range zs ->
  forall a b, a ∈ zs -> b ∈ zs -> a - b <= envelope zs.
Proof.
  intros Hall a b Ha Hb. destruct zs as [| z0 zs]; [by apply elem_of_nil in Ha |].
  unfold envelope.
  destruct (foldl_max_bounds zs z0) as [Hge Hmax].
  destruct (foldl_min_bounds zs z0) as [Hle Hmin].
  rewrite Forall_forall in Hall.
  pose proof (Hall _ Hmax) as Hrmax. pose proof (Hall _ Hmin) as Hrmin.
  pose proof (Hge _ Ha). pose proof (Hle _ Hb).
  pose proof (Hge _ Hmin) as Horder.
  unfold half_range in *. unfold sub32.
  rewrite wrap32_small by (unfold in_int32; lia). lia.
Qed.


Section AbsoluteSize.

Variable CFX_ONE : Z.
Variable CLUTTER_UNITS_TO_INT : Z -> Z.
Variable CFX_QMUL : Z -> Z -> Z.
Variable CFX_MUL : Z -> Z -> Z.
Variable CFX_DIV : Z -> Z -> Z.
Variable cogl_get_modelview_matrix : Cogl -> list Z.
Variable cogl_get_projection_matrix : Cogl -> list Z.
Variable cogl_get_viewport : Cogl -> list Z.

Local Abbreviation get_vertices :=
  (clutter_actor_get_vertices CFX_ONE CLUTTER_UNITS_TO_INT CFX_QMUL CFX_MUL CFX_DIV
     cogl_get_modelview_matrix cogl_get_projection_matrix cogl_get_viewport).
Local Abbreviation get_abs_size_units :=
  (clutter_actor_get_abs_size_units CFX_ONE CLUTTER_UNITS_TO_INT CFX_QMUL CFX_MUL
     CFX_DIV cogl_get_modelview_matrix cogl_get_projection_matrix cogl_get_viewport).
Local Abbreviation get_abs_size :=
  (clutter_actor_get_abs_size CFX_ONE CLUTTER_UNITS_TO_INT CFX_QMUL CFX_MUL
     CFX_DIV cogl_get_modelview_matrix cogl_get_projection_matrix cogl_get_viewport).

(** A returning [clutter_actor_get_vertices] has written four vertices. *)
Lemma get_vertices_four fuel h self gl vs gl' :
  get_vertices fuel h self (replicate 4 (mkVertex 0 0 0)) gl = Some (vs, gl') ->
  exists v0 v1 v2 v3, vs = [v0; v1; v2; v3].
Proof.
  intros Hfound.
  rewrite (get_vertices_unfold CFX_ONE CLUTTER_UNITS_TO_INT CFX_QMUL CFX_MUL CFX_DIV
             cogl_get_modelview_matrix cogl_get_projection_matrix cogl_get_viewport)
    in Hfound by reflexivity.
  destruct (h !! self) as [a |]; [| discriminate]. cbn [mbind option_bind] in Hfound.
  destruct (_clutter_actor_apply_modelview_transform_recursive _ _ _ _ _ _)
    as [gl_m |]; [| discriminate].
  cbn [mbind option_bind] in Hfound. cbv zeta in Hfound.
  destruct (all_rescalable _); [| discriminate].
  injection Hfound as <- _.
  unfold clip_corners, local_corners. cbn [map]. by eexists _, _, _, _.
Qed.

(** X17: the absolute size of an actor is the envelope of its four
    transformed vertices: the greatest minus the least x, and the same in
    y, as 32-bit differences.  The function fails exactly when
    [clutter_actor_get_vertices] does and issues the same backend calls.
    When the vertices stay within half the 32-bit range, the width and the
    height bound the distance between any two of the vertices, so they
    are not negative; the pixel variant converts each from units into a
    [guint]. *)
Theorem abs_size_is_envelope fuel h self gl :
  let found := get_vertices fuel h self (replicate 4 (mkVertex 0 0 0)) gl in
  get_abs_size_units fuel h self gl
  = ('(vs, gl') ← found;
     Some (envelope (vertex_x <$> vs), envelope (vertex_y <$> vs), gl'))
  /\ get_abs_size fuel h self gl
     = ('(vs, gl') ← found;
        Some (wrapu32 (CLUTTER_UNITS_TO_INT (envelope (vertex_x <$> vs))),
              wrapu32 (CLUTTER_UNITS_TO_INT (envelope (vertex_y <$> vs))), gl'))
  /\ (forall vs gl', found = Some (vs, gl') ->
        length vs = 4%nat
        /\ (Forall (fun v => half_range (vertex_x v) /\ half_range (vertex_y v)) vs ->
            forall u v, u ∈ vs -> v ∈ vs ->
              vertex_x u - vertex_x v <= envelope (vertex_x <$> vs)
              /\ vertex_y u - vertex_y v <= envelope (vertex_y <$> vs))).
Proof.
  intros found.
  assert (Hunits : get_abs_size_units fuel h self gl
                   = ('(vs, gl') ← found;
                      Some (envelope (vertex_x <$> vs), envelope (vertex_y <$> vs), gl'))).
  { unfold clutter_actor_get_abs_size_units. fold found.
    destruct found as [[vs gl'] |] eqn:Hfound; [| reflexivity].
    destruct (get_vertices_four fuel h self gl vs gl' Hfound) as (v0 & v1 & v2 & v3 & ->).
    cbn [mbind option_bind]. by rewrite abs_size_of_four. }
  split; [exact Hunits |]. split.
  { unfold clutter_actor_get_abs_size. rewrite Hunits.
    destruct found as [[vs gl'] |]; reflexivity. }
  intros vs gl' Hfound. subst found.
  destruct (get_vertices_four fuel h self gl vs gl' Hfound) as (v0 & v1 & v2 & v3 & ->).
  split; [reflexivity |].
  intros Hall u v Hu Hv. split.
  - apply envelope_covers; [| by apply list_elem_of_fmap_2 ..].
    apply Forall_fmap. eapply Forall_impl; [exact Hall |]. by intros ? [? _].
  - apply envelope_covers; [| by apply list_elem_of_fmap_2 ..].
    apply Forall_fmap. eapply Forall_impl; [exact Hall |]. by intros ? [_ ?].
Qed.

End AbsoluteSize.

Lemma abs_size_is_envelope_witness :
  exists vs gl',
    clutter_actor_get_vertices sample_CFX_ONE sample_UNITS_TO_INT sample_CFX_QMUL
      sample_CFX_MUL sample_CFX_DIV sample_matrix sample_matrix sample_viewport
      1 sample_pixel_heap 1%positive (replicate 4 (mkVertex 0 0 0)) [] = Some (vs, gl')
    /\ Forall (fun v => half_range (vertex_x v) /\ half_range (vertex_y v)) vs
    /\ 26214400 <= envelope (vertex_x <$> vs)
    /\ 19660800 <= envelope (vertex_y <$> vs).
Proof.
  set (v0 := mkVertex 26214400 19660800 26214400).
  set (v1 := mkVertex 52428800 19660800 26214400).
  set (v2 := mkVertex 26214400 0 26214400).
  set (v3 := mkVertex 52428800 0 26214400).
  exists [v0; v1; v2; v3], [cogl_push_matrix; cogl_pop_matrix].
  assert (Hfound : clutter_actor_get_vertices sample_CFX_ONE sample_UNITS_TO_INT
                     sample_CFX_QMUL sample_CFX_MUL sample_CFX_DIV sample_matrix
                     sample_matrix sample_viewport 1 sample_pixel_heap 1%positive
                     (replicate 4 (mkVertex 0 0 0)) []
                   = Some ([v0; v1; v2; v3], [cogl_push_matrix; cogl_pop_matrix]))
    by (vm_compute; reflexivity).
  assert (Hall : Forall (fun v => half_range (vertex_x v) /\ half_range (vertex_y v))
                        [v0; v1; v2; v3]).
  { repeat (constructor; [unfold half_range; simpl; lia |]). constructor. }
  split; [exact Hfound |]. split; [exact Hall |].
  destruct (abs_size_is_envelope sample_CFX_ONE sample_UNITS_TO_INT sample_CFX_QMUL
              sample_CFX_MUL sample_CFX_DIV sample_matrix sample_matrix sample_viewport
              1 sample_pixel_heap 1%positive []) as (_ & _ & Hcover).
  destruct (Hcover _ _ Hfound) as [_ Hpair].
  assert (H1 : v1 ∈ [v0; v1; v2; v3]) by (apply list_elem_of_further, list_elem_of_here).
  assert (H2 : v2 ∈ [v0; v1; v2; v3])
    by (do 2 apply list_elem_of_further; apply list_elem_of_here).
  destruct (Hpair Hall v1 v2 H1 H2) as [Hx Hy].
  split; [exact Hx | exact Hy].
Defined.

(** ** Bounds on the effective opacity *)

Lemma opacity_step_bounds (po o : Z) :
  0 <= po <= 255 -> 0 <= o <= 255 ->
  0 <= po * o / 255 /\ po * o / 255 <= po /\ po * o / 255 <= o.
Proof.
  intros Hpo Ho. repeat split.
  - apply Z.div_pos; nia.
  - apply Z.div_le_upper_bound; nia.
  - apply Z.div_le_upper_bound; nia.
Qed.

Lemma get_opacity_step (h : gmap addr ClutterActor) (fuel : nat) (self : addr)
    (a : ClutterActor) (o : Z) :
  map_Forall (fun _ b => opacity_in_range b) h ->
  (forall parent po, clutter_actor_get_opacity fuel h parent = Some po -> 0 <= po <= 255) ->
  h !! self = Some a ->
  clutter_actor_get_opacity (S fuel) h self = Some o ->
  match parent_actor (priv a) with
  | None => o = opacity (priv a)
  | Some parent =>
      exists po, clutter_actor_get_opacity fuel h parent = Some po
                 /\ o = po * opacity (priv a) / 255
  end.
Proof.
  intros Hall Hparent Ha Ho. cbn [clutter_actor_get_opacity] in Ho.
  rewrite Ha in Ho. cbn [mbind option_bind] in Ho.
  pose proof (map_Forall_lookup_1 _ _ _ _ Hall Ha) as Hown. unfold opacity_in_range in Hown.
  destruct (parent_actor (priv a)) as [parent |]; [| congruence].
  destruct (clutter_actor_get_opacity fuel h parent) as [po |] eqn:Hpo; [| discriminate].
  cbn [mbind option_bind] in Ho. exists po. split; [reflexivity |].
  pose proof (Hparent _ _ Hpo) as Hrange.
  destruct (po =? 255) eqn:Hfull; cbn [negb] in Ho.
  - apply Z.eqb_eq in Hfull. injection Ho as <-. subst po.
    by rewrite Z.mul_comm, Z.div_mul.
  - injection Ho as <-. by apply opacity_step_machine.
Qed.

Lemma get_opacity_in_range (h : gmap addr ClutterActor) (fuel : nat) :
  map_Forall (fun _ b => opacity_in_range b) h ->
  forall self o, clutter_actor_get_opacity fuel h self = Some o -> 0 <= o <= 255.
Proof.
  intros Hall. induction fuel as [| fuel IH]; intros self o Ho; [discriminate |].
  destruct (h !! self) as [a |] eqn:Ha;
    [| cbn [clutter_actor_get_opacity] in Ho; rewrite Ha in Ho; discriminate].
  pose proof (map_Forall_lookup_1 _ _ _ _ Hall Ha) as Hown. unfold opacity_in_range in Hown.
  pose proof (get_opacity_step h fuel self a o Hall IH Ha Ho) as Hstep.
  destruct (parent_actor (priv a)) as [parent |]; [| lia].
  destruct Hstep as (po & Hpo & ->).
  pose proof (opacity_step_bounds po (opacity (priv a)) (IH _ _ Hpo) Hown). lia.
Qed.

(** What a result of [clutter_actor_get_opacity] is bounded by. *)
Lemma get_opacity_bounds (h : gmap addr ClutterActor) (fuel : nat) (self : addr)
    (a : ClutterActor) (o : Z) :
  map_Forall (fun _ b => opacity_in_range b) h ->
  h !! self = Some a ->
  clutter_actor_get_opacity fuel h self = Some o ->
  0 <= o <= opacity (priv a)
  /\ (parent_actor (priv a) = None -> o = opacity (priv a))
  /\ (forall parent, parent_actor (priv a) = Some parent ->
      exists po, clutter_actor_get_opacity (pred fuel) h parent = Some po
                 /\ o = po * opacity (priv a) / 255
                 /\ o <= po
                 /\ (po = 0 -> o = 0)).
Proof.
  intros Hall Ha Ho. destruct fuel as [| fuel]; [discriminate |]. cbn [pred].
  pose proof (map_Forall_lookup_1 _ _ _ _ Hall Ha) as Hown. unfold opacity_in_range in Hown.
  pose proof (get_opacity_step h fuel self a o Hall (get_opacity_in_range h fuel Hall)
                Ha Ho) as Hstep.
  destruct (parent_actor (priv a)) as [parent |].
  - destruct Hstep as (po & Hpo & ->).
    pose proof (opacity_step_bounds po (opacity (priv a))
                  (get_opacity_in_range h fuel Hall _ _ Hpo) Hown) as (? & ? & ?).
    split; [lia |]. split; [discriminate |].
    intros parent' [= <-]. exists po. repeat split; [exact Hpo | lia |].
    intros ->. reflexivity.
  - subst o. split; [lia |]. split; [reflexivity | discriminate].
Qed.

(** Along a chain of parents that ends, with fuel for it, a result is
    produced. *)
Lemma get_opacity_produces (h : gmap addr ClutterActor) (self : addr)
    (chain : list ClutterActor) :
  lineage h self chain ->
  map_Forall (fun _ b => opacity_in_range b) h ->
  forall fuel, (length chain <= fuel)%nat ->
    is_Some (clutter_actor_get_opacity fuel h self).
Proof.
  intros Hl Hall.
  induction Hl as [self a Ha Hp | self a parent chain Ha Hp Hl IH]; intros fuel Hfuel.
  - destruct fuel as [| fuel]; [simpl in Hfuel; lia |].
    cbn [clutter_actor_get_opacity]. rewrite Ha. cbn [mbind option_bind]. rewrite Hp.
    by eexists.
  - rewrite length_app in Hfuel. simpl in Hfuel.
    destruct fuel as [| fuel]; [lia |].
    destruct (IH fuel ltac:(lia)) as [po Hpo].
    cbn [clutter_actor_get_opacity]. rewrite Ha. cbn [mbind option_bind].
    rewrite Hp, Hpo. cbn [mbind option_bind].
    destruct (negb (po =? 255)); by eexists.
Qed.

(** X18: with every stored opacity a [guint8], along a chain of parents
    that ends and with fuel for it, [clutter_actor_get_opacity] returns an
    effective opacity that is never above the actor's own stored opacity
    nor above the parent's effective opacity, and never negative: going
    down the tree can only make an actor more transparent.  It is the
    stored opacity for an actor without parent, and the parent's effective
    opacity times the stored one over 255 otherwise, so a fully
    transparent parent makes the actor fully transparent. *)
Theorem opacity_never_exceeds (h : gmap addr ClutterActor) (fuel : nat) (self : addr)
    (chain : list ClutterActor) (a : ClutterActor) :
  lineage h self chain ->
  map_Forall (fun _ b => opacity_in_range b) h ->
  h !! self = Some a ->
  (length chain <= fuel)%nat ->
  exists o,
    clutter_actor_get_opacity fuel h self = Some o
    /\ 0 <= o <= opacity (priv a)
    /\ (parent_actor (priv a) = None -> o = opacity (priv a))
    /\ (forall parent, parent_actor (priv a) = Some parent ->
        exists po, clutter_actor_get_opacity (pred fuel) h parent = Some po
                   /\ o = po * opacity (priv a) / 255
                   /\ o <= po
                   /\ (po = 0 -> o = 0)).
Proof.
  intros Hl Hall Ha Hfuel.
  destruct (get_opacity_produces h self chain Hl Hall fuel Hfuel) as [o Ho].
  exists o. split; [exact Ho |].
  exact (get_opacity_bounds h fuel self a o Hall Ha Ho).
Qed.

Lemma opacity_never_exceeds_witness :
  lineage sample_heap 3%positive [sample_root; sample_middle; sample_leaf]
  /\ map_Forall (fun _ b => opacity_in_range b) sample_heap
  /\ sample_heap !! 3%positive = Some sample_leaf
  /\ exists o,
       clutter_actor_get_opacity 3 sample_heap 3%positive = Some o
       /\ 0 <= o <= opacity (priv sample_leaf).
Proof.
  assert (Hall : map_Forall (fun _ b => opacity_in_range b) sample_heap).
  { unfold sample_heap.
    repeat (apply map_Forall_insert_2; [unfold opacity_in_range; simpl; lia |]).
    apply map_Forall_empty. }
  assert (Hself : sample_heap !! 3%positive = Some sample_leaf) by reflexivity.
  assert (Hfuel : (length [sample_root; sample_middle; sample_leaf] <= 3)%nat)
    by (simpl; lia).
  destruct (opacity_never_exceeds sample_heap 3 3%positive
              [sample_root; sample_middle; sample_leaf] sample_leaf
              sample_lineage Hall Hself Hfuel) as (o & Ho & Hbound & _).
  split; [exact sample_lineage |]. split; [exact Hall |]. split; [exact Hself |].
  exists o. split; [exact Ho | exact Hbound].
Defined.

(** ** Anchor points from a gravity *)

Lemma from_gravity_effect (self : addr) (a : ClutterActor) (g : ClutterGravity)
    (w : World) :
  heap w !! self = Some a ->
  let anchor := gravity_anchor g (box_width (coords (priv a)))
                               (box_height (coords (priv a))) in
  clutter_actor_set_anchor_point_from_gravity self g w
  = store self (with_priv (with_anchor_y (snd anchor))
                  (with_priv (with_anchor_x (fst anchor)) a)) w.
Proof.
  intros Ha anchor. unfold clutter_actor_set_anchor_point_from_gravity. rewrite Ha.
  unfold clutter_actor_query_coords. cbn [x1 x2 y1 y2].
  subst anchor. unfold box_width, box_height.
  by destruct (gravity_anchor g _ _).
Qed.

Lemma gravity_anchor_inside (g : ClutterGravity) (w h : Z) :
  (0 <= w -> 0 <= fst (gravity_anchor g w h) <= w)
  /\ (0 <= h -> 0 <= snd (gravity_anchor g w h) <= h).
Proof.
  split; intros Hpos.
  - pose proof (Z.quot_pos w 2 Hpos ltac:(lia)).
    pose proof (Z.quot_le_upper_bound w 2 w ltac:(lia) ltac:(lia)).
    destruct g; simpl; lia.
  - pose proof (Z.quot_pos h 2 Hpos ltac:(lia)).
    pose proof (Z.quot_le_upper_bound h 2 h ltac:(lia) ltac:(lia)).
    destruct g; simpl; lia.
Qed.

(** X19: [clutter_actor_set_anchor_point_from_gravity] puts the anchor at
    the point of the actor's box the gravity names, from the extents of
    the box: inside the box whenever the extents are not negative, at the
    far corner for south-east, within one unit of the middle for centre,
    and at (0,0) for north-west and also for no gravity at all, which
    therefore resets an anchor set before.  Nothing but the anchor
    changes, no signal is emitted and no repaint is scheduled. *)
Theorem gravity_anchor_in_box (self : addr) (a : ClutterActor) (g : ClutterGravity)
    (w : World) :
  heap w !! self = Some a ->
  let w' := clutter_actor_set_anchor_point_from_gravity self g w in
  let width := box_width (coords (priv a)) in
  let height := box_height (coords (priv a)) in
  exists a',
    heap w' !! self = Some a'
    /\ clutter_actor_get_anchor_pointu a' = gravity_anchor g width height
    /\ (0 <= width -> 0 <= anchor_x (priv a') <= width)
    /\ (0 <= height -> 0 <= anchor_y (priv a') <= height)
    /\ (g = CLUTTER_GRAVITY_NONE \/ g = CLUTTER_GRAVITY_NORTH_WEST ->
        clutter_actor_get_anchor_pointu a' = (0, 0))
    /\ (g = CLUTTER_GRAVITY_SOUTH_EAST ->
        clutter_actor_get_anchor_pointu a' = (width, height))
    /\ (g = CLUTTER_GRAVITY_CENTER -> 0 <= width -> 0 <= height ->
        0 <= width - 2 * anchor_x (priv a') <= 1
        /\ 0 <= height - 2 * anchor_y (priv a') <= 1)
    /\ with_priv (with_anchor_y (anchor_y (priv a)))
         (with_priv (with_anchor_x (anchor_x (priv a))) a') = a
    /\ (forall other, other <> self -> heap w' !! other = heap w !! other)
    /\ effects w' = effects w /\ context w' = context w
    /\ main_loop w' = main_loop w /\ cogl w' = cogl w.
Proof.
  intros Ha w' width height. subst w'.
  rewrite (from_gravity_effect self a g w Ha). fold width height.
  pose proof (gravity_anchor_inside g width height) as [Hx Hy].
  eexists. split; [apply lookup_store |].
  split; [by destruct (gravity_anchor g width height) |].
  split; [exact Hx |]. split; [exact Hy |].
  split; [by intros [-> | ->] |].
  split; [by intros -> |].
  split.
  { intros -> Hw Hh. cbn [priv with_priv anchor_x anchor_y with_anchor_x with_anchor_y
                           gravity_anchor fst snd].
    pose proof (Z.quot_rem' width 2). pose proof (Z.rem_bound_pos width 2 Hw ltac:(lia)).
    pose proof (Z.quot_rem' height 2). pose proof (Z.rem_bound_pos height 2 Hh ltac:(lia)).
    lia. }
  split; [by destruct a as [? ? ? ? ? ? []] |].
  split; [intros other Hother; by apply lookup_store_ne |].
  by repeat split.
Qed.

Lemma gravity_anchor_in_box_witness :
  heap sample_world !! 3%positive = Some sample_leaf
  /\ exists a',
       heap (clutter_actor_set_anchor_point_from_gravity 3%positive CLUTTER_GRAVITY_CENTER
               sample_world) !! 3%positive = Some a'
       /\ clutter_actor_get_anchor_pointu a' = (3276800, 1638400).
Proof.
  assert (Hself : heap sample_world !! 3%positive = Some sample_leaf) by reflexivity.
  split; [exact Hself |].
  destruct (gravity_anchor_in_box 3%positive sample_leaf CLUTTER_GRAVITY_CENTER
              sample_world Hself) as (a' & Ha' & Hanchor & _).
  exists a'. split; [exact Ha' |]. rewrite Hanchor. reflexivity.
Defined.

(** ** The scale behaviour *)

Lemma set_scalex_effect (self : addr) (a : ClutterActor) (sx sy : Z) (w : World) :
  heap w !! self = Some a ->
  let w' := clutter_actor_set_scalex self sx sy w in
  let redrawn := if CLUTTER_ACTOR_IS_VISIBLE a then clutter_actor_queue_redraw self w
                 else w in
  heap w' = <[self := with_priv (with_scale_y sy) (with_priv (with_scale_x sx) a)]> (heap w)
  /\ effects w' = effects w ++ [g_object_notify self "scale-x"; g_object_notify self "scale-y"]
  /\ context w' = context redrawn /\ main_loop w' = main_loop redrawn
  /\ cogl w' = cogl w.
Proof.
  intros Ha w' redrawn. subst w' redrawn. unfold clutter_actor_set_scalex. rewrite Ha.
  cbv zeta.
  change (CLUTTER_ACTOR_IS_VISIBLE
            (with_priv (with_scale_y sy) (with_priv (with_scale_x sx) a)))
    with (CLUTTER_ACTOR_IS_VISIBLE a).
  set (stored := emit _ (store self _ (emit _ (store self _ w)))).
  assert (Hheap : heap stored
                  = <[self := with_priv (with_scale_y sy) (with_priv (with_scale_x sx) a)]>
                      (heap w)).
  { subst stored. unfold emit, store, with_heap. simpl. by rewrite insert_insert_eq. }
  assert (Heff : effects stored
                 = effects w ++ [g_object_notify self "scale-x";
                                 g_object_notify self "scale-y"]).
  { subst stored. unfold emit, store, with_heap. simpl. by rewrite <- app_assoc. }
  destruct (CLUTTER_ACTOR_IS_VISIBLE a).
  - rewrite heap_queue_redraw, effects_queue_redraw, cogl_queue_redraw.
    destruct (context_queue_redraw_frame self stored w eq_refl eq_refl) as [-> ->].
    by repeat split.
  - by repeat split.
Qed.

Lemma scale_frame_effect (behaviour : ClutterBehaviourScalePrivate) (actor : addr)
    (a : ClutterActor) (data : Z) (w : World) :
  heap w !! actor = Some a ->
  let w' := scale_frame_foreach behaviour actor data w in
  let redrawn := if CLUTTER_ACTOR_IS_VISIBLE a then clutter_actor_queue_redraw actor w
                 else w in
  heap w' = <[actor := scaled behaviour (wrap32 data) a]> (heap w)
  /\ effects w'
     = effects w ++ [g_object_notify actor "scale-x"; g_object_notify actor "scale-y"]
  /\ context w' = context redrawn /\ main_loop w' = main_loop redrawn
  /\ cogl w' = cogl w.
Proof.
  intros Ha w' redrawn. subst w' redrawn. unfold scale_frame_foreach. cbv zeta.
  unfold scaled.
  destruct (bool_decide (gravity behaviour ≠ CLUTTER_GRAVITY_NONE)).
  - rewrite (from_gravity_effect actor a (gravity behaviour) w Ha). cbv zeta.
    set (anchored := with_priv _ (with_priv _ a)).
    destruct (set_scalex_effect actor anchored (wrap32 data) (wrap32 data)
                (store actor anchored w) (lookup_store actor anchored w))
      as (Hheap & Heff & Hctx & Hloop & Hcogl).
    rewrite Hheap, Heff, Hctx, Hloop, Hcogl.
    change (CLUTTER_ACTOR_IS_VISIBLE anchored) with (CLUTTER_ACTOR_IS_VISIBLE a).
    split; [unfold store, with_heap; simpl; by rewrite insert_insert_eq |].
    split; [reflexivity |].
    destruct (CLUTTER_ACTOR_IS_VISIBLE a); [| by repeat split].
    destruct (context_queue_redraw_frame actor (store actor anchored w) w eq_refl eq_refl)
      as [-> ->].
    by repeat split.
  - destruct (set_scalex_effect actor a (wrap32 data) (wrap32 data) w Ha)
      as (Hheap & Heff & Hctx & Hloop & Hcogl).
    rewrite Hheap, Heff, Hctx, Hloop, Hcogl. cbn [fst snd].
    by repeat split.
Qed.

(** X20: one frame of the scale behaviour on an actor sets both scale
    factors to the value carried in the pointer, read back as a 32-bit
    integer.  With a gravity it first moves the anchor to the point the
    gravity names; with no gravity the anchor stays where it was.  The
    box and every other actor are untouched; "scale-x" and "scale-y" are
    notified each time, also when the scale did not change, and a repaint
    is scheduled exactly when the actor is visible. *)
Theorem scale_frame_sets_both_factors (behaviour : ClutterBehaviourScalePrivate)
    (actor : addr) (a : ClutterActor) (data : Z) (w : World) :
  heap w !! actor = Some a ->
  let w' := scale_frame_foreach behaviour actor data w in
  let redrawn := if CLUTTER_ACTOR_IS_VISIBLE a then clutter_actor_queue_redraw actor w
                 else w in
  exists a',
    heap w' !! actor = Some a'
    /\ clutter_actor_get_scalex a' = (wrap32 data, wrap32 data)
    /\ (gravity behaviour = CLUTTER_GRAVITY_NONE ->
        clutter_actor_get_anchor_pointu a' = clutter_actor_get_anchor_pointu a)
    /\ (gravity behaviour <> CLUTTER_GRAVITY_NONE ->
        clutter_actor_get_anchor_pointu a'
        = gravity_anchor (gravity behaviour) (box_width (coords (priv a)))
                         (box_height (coords (priv a))))
    /\ coords (priv a') = coords (priv a)
    /\ (forall other, other <> actor -> heap w' !! other = heap w !! other)
    /\ effects w'
       = effects w ++ [g_object_notify actor "scale-x"; g_object_notify actor "scale-y"]
    /\ context w' = context redrawn /\ main_loop w' = main_loop redrawn.
Proof.
  intros Ha w' redrawn.
  destruct (scale_frame_effect behaviour actor a data w Ha)
    as (Hheap & Heff & Hctx & Hloop & _).
  fold w' in Hheap, Heff, Hctx, Hloop. fold redrawn in Hctx, Hloop.
  exists (scaled behaviour (wrap32 data) a).
  split; [rewrite Hheap; apply lookup_insert_eq |].
  split; [reflexivity |].
  split.
  { intros Hnone. unfold scaled. rewrite Hnone.
    rewrite bool_decide_eq_false_2 by (intros Hne; by apply Hne). reflexivity. }
  split.
  { intros Hsome. unfold scaled. rewrite bool_decide_eq_true_2 by exact Hsome.
    unfold clutter_actor_get_anchor_pointu. cbn [priv with_priv anchor_x anchor_y
      with_scale_x with_scale_y with_anchor_x with_anchor_y].
    by destruct (gravity_anchor _ _ _). }
  split; [reflexivity |].
  split; [intros other Hother; rewrite Hheap; by apply lookup_insert_ne |].
  by repeat split.
Qed.

Lemma scale_frame_sets_both_factors_witness :
  heap sample_world !! 3%positive = Some sample_leaf
  /\ exists a',
       heap (scale_frame_foreach
               (clutter_behaviour_scale_newx 65536 131072 CLUTTER_GRAVITY_CENTER)
               3%positive 98304 sample_world) !! 3%positive = Some a'
       /\ clutter_actor_get_scalex a' = (98304, 98304).
Proof.
  assert (Hself : heap sample_world !! 3%positive = Some sample_leaf) by reflexivity.
  split; [exact Hself |].
  destruct (scale_frame_sets_both_factors
              (clutter_behaviour_scale_newx 65536 131072 CLUTTER_GRAVITY_CENTER)
              3%positive sample_leaf 98304 sample_world Hself)
    as (a' & Ha' & Hscale & _).
  exists a'. split; [exact Ha' | exact Hscale].
Defined.

Lemma scaled_idempotent (behaviour : ClutterBehaviourScalePrivate) (s : Z)
    (a : ClutterActor) :
  scaled behaviour s (scaled behaviour s a) = scaled behaviour s a.
Proof.
  unfold scaled.
  by destruct (bool_decide (gravity behaviour ≠ CLUTTER_GRAVITY_NONE)).
Qed.

Lemma wrap32_wrapu32 (v : Z) : wrap32 (wrapu32 v) = wrap32 v.
Proof. apply wrap32_congr. unfold wrapu32. by rewrite Z.mod_mod. Qed.

(** The frames of one notification, over the list of actors. *)
Lemma scale_frames_effect (behaviour : ClutterBehaviourScalePrivate) (data : Z)
    (actors : list addr) :
  forall w,
    (forall actor, actor ∈ actors -> is_Some (heap w !! actor)) ->
    let w' := foldl (fun w actor => scale_frame_foreach behaviour actor data w) w actors in
    (forall actor,
        heap w' !! actor
        = if bool_decide (actor ∈ actors)
          then scaled behaviour (wrap32 data) <$> heap w !! actor
          else heap w !! actor)
    /\ effects w'
       = effects w
         ++ flat_map (fun actor => [g_object_notify actor "scale-x";
                                    g_object_notify actor "scale-y"]) actors
    /\ cogl w' = cogl w.
Proof.
  induction actors as [| x rest IH]; intros w Hall; cbn [foldl flat_map].
  - split; [| split; [by rewrite app_nil_r | reflexivity]].
    intros actor. rewrite bool_decide_eq_false_2; [reflexivity |].
    by intros ?%elem_of_nil.
  - destruct (Hall x (list_elem_of_here _ _)) as [a Ha].
    destruct (scale_frame_effect behaviour x a data w Ha)
      as (Hheap & Heff & _ & _ & Hcogl).
    set (w1 := scale_frame_foreach behaviour x data w) in *.
    assert (Hrest : forall actor, actor ∈ rest -> is_Some (heap w1 !! actor)).
    { intros actor Hin. rewrite Hheap.
      destruct (decide (x = actor)) as [-> | Hne].
      - rewrite lookup_insert_eq. by eexists.
      - rewrite lookup_insert_ne by exact Hne.
        apply Hall. by apply list_elem_of_further. }
    destruct (IH w1 Hrest) as (IHheap & IHeff & IHcogl).
    split; [| split].
    + intros actor. rewrite IHheap, Hheap.
      destruct (decide (x = actor)) as [<- | Hne].
      * rewrite lookup_insert_eq, Ha.
        rewrite (bool_decide_eq_true_2 (x ∈ x :: rest)) by apply list_elem_of_here.
        destruct (bool_decide (x ∈ rest)); cbn [fmap option_fmap option_map];
          by rewrite ?scaled_idempotent.
      * rewrite lookup_insert_ne by exact Hne.
        destruct (decide (actor ∈ rest)) as [Hin | Hout].
        -- rewrite !bool_decide_eq_true_2;
             [reflexivity | by apply list_elem_of_further | exact Hin].
        -- rewrite !bool_decide_eq_false_2; [reflexivity | | exact Hout].
           intros [-> | ?]%elem_of_cons; [by apply Hne | by apply Hout].
    + rewrite IHeff, Heff. by rewrite <- !app_assoc.
    + by rewrite IHcogl, Hcogl.
Qed.

Section BehaviourScaleCorrect.

Variable CLUTTER_INT_TO_FIXED : Z -> Z.
Variable CLUTTER_FIXED_MUL : Z -> Z -> Z.
Variable CLUTTER_ALPHA_MAX_ALPHA : Z.

Local Abbreviation alpha_notify :=
  (clutter_behaviour_scale_alpha_notify CLUTTER_INT_TO_FIXED CLUTTER_FIXED_MUL
     CLUTTER_ALPHA_MAX_ALPHA).
Local Abbreviation interpolated :=
  (interpolated_scale CLUTTER_INT_TO_FIXED CLUTTER_FIXED_MUL CLUTTER_ALPHA_MAX_ALPHA).

(** X21: a notification of the scale behaviour gives every actor it is
    applied to the same scale in x and in y, the start scale plus the
    alpha fraction of the distance to the end scale in 32-bit fixed
    point, which survives the passage through a pointer; each of them ends as
    one frame leaves it (the anchor moved when the behaviour has a
    gravity), an actor listed twice ends as one listed once, and the
    actors not listed are untouched.  Each frame
    notifies "scale-x" and "scale-y", in the order of the list.  When the
    alpha fraction is zero and the product with zero is zero, the scale
    is the start scale. *)
Theorem alpha_notify_scales_every_actor (behaviour : ClutterBehaviourScalePrivate)
    (actors : list addr) (alpha_value : Z) (w : World) :
  (forall actor, actor ∈ actors -> is_Some (heap w !! actor)) ->
  let scale := interpolated behaviour alpha_value in
  let w' := alpha_notify behaviour actors alpha_value w in
  (forall actor a, actor ∈ actors -> heap w !! actor = Some a ->
     heap w' !! actor = Some (scaled behaviour scale a))
  /\ (forall actor a', actor ∈ actors -> heap w' !! actor = Some a' ->
        clutter_actor_get_scalex a' = (scale, scale))
  /\ (forall other, other ∉ actors -> heap w' !! other = heap w !! other)
  /\ effects w'
     = effects w
       ++ flat_map (fun actor => [g_object_notify actor "scale-x";
                                  g_object_notify actor "scale-y"]) actors
  /\ cogl w' = cogl w
  /\ (CLUTTER_INT_TO_FIXED alpha_value ÷ CLUTTER_ALPHA_MAX_ALPHA = 0 ->
      CLUTTER_FIXED_MUL 0 (sub32 (scale_end behaviour) (scale_start behaviour)) = 0 ->
      in_int32 (scale_start behaviour) ->
      scale = scale_start behaviour).
Proof.
  intros Hall scale w'.
  assert (Hdata : wrap32 (wrapu32 scale) = scale).
  { rewrite wrap32_wrapu32. apply wrap32_small. subst scale.
    unfold interpolated_scale, add32. apply wrap32_range. }
  destruct (scale_frames_effect behaviour (wrapu32 scale) actors w Hall)
    as (Hheap & Heff & Hcogl).
  rewrite Hdata in Hheap.
  change (foldl _ w actors) with w' in Hheap, Heff, Hcogl.
  split; [| split; [| split; [| split; [| split]]]].
  - intros actor a Hin Ha. rewrite Hheap, Ha.
    by rewrite bool_decide_eq_true_2 by exact Hin.
  - intros actor a' Hin Ha'. rewrite Hheap in Ha'.
    rewrite bool_decide_eq_true_2 in Ha' by exact Hin.
    destruct (heap w !! actor) as [a |]; [| discriminate].
    injection Ha' as <-. reflexivity.
  - intros other Hout. rewrite Hheap.
    by rewrite bool_decide_eq_false_2 by exact Hout.
  - exact Heff.
  - exact Hcogl.
  - intros Hzero Hmul Hstart. subst scale. unfold interpolated_scale.
    rewrite Hzero. change (wrap32 0) with 0. rewrite Hmul.
    change (wrap32 0) with 0. unfold add32. rewrite Z.add_0_l.
    by apply wrap32_small.
Qed.

End BehaviourScaleCorrect.

Lemma alpha_notify_scales_every_actor_witness :
  (forall actor, actor ∈ [3%positive; 2%positive] ->
     is_Some (heap sample_world !! actor))
  /\ effects (clutter_behaviour_scale_alpha_notify sample_INT_TO_FIXED sample_CFX_MUL
                sample_ALPHA_MAX_ALPHA
                (clutter_behaviour_scale_newx 65536 131072 CLUTTER_GRAVITY_CENTER)
                [3%positive; 2%positive] 32768 sample_world)
     = [g_object_notify 3%positive "scale-x"; g_object_notify 3%positive "scale-y";
        g_object_notify 2%positive "scale-x"; g_object_notify 2%positive "scale-y"].
Proof.
  assert (Hall : forall actor, actor ∈ [3%positive; 2%positive] ->
                   is_Some (heap sample_world !! actor)).
  { intros actor Hin.
    apply elem_of_cons in Hin as [-> | Hin]; [by eexists |].
    apply list_elem_of_singleton in Hin as ->. by eexists. }
  split; [exact Hall |].
  destruct (alpha_notify_scales_every_actor sample_INT_TO_FIXED sample_CFX_MUL
              sample_ALPHA_MAX_ALPHA
              (clutter_behaviour_scale_newx 65536 131072 CLUTTER_GRAVITY_CENTER)
              [3%positive; 2%positive] 32768 sample_world Hall)
    as (_ & _ & _ & Heff & _).
  exact Heff.
Defined.

(** ** Size round trip *)

Lemma sub32_add32_same_l (a b : Z) : sub32 (add32 a b) a = wrap32 b.
Proof.
  unfold sub32, add32. apply wrap32_congr.
  rewrite Zminus_mod, wrap32_mod, <- Zminus_mod. f_equal. lia.
Qed.

Lemma wrapu32_small (v : Z) : 0 <= v < 2 ^ 32 -> wrapu32 v = v.
Proof. intros Hv. unfold wrapu32. by apply Z.mod_small. Qed.

Section SizeRoundTrip.

Variable CLUTTER_UNITS_TO_INT : Z -> Z.
Variable CLUTTER_UNITS_FROM_INT : Z -> Z.

Local Abbreviation set_size := (clutter_actor_set_size CLUTTER_UNITS_FROM_INT).
Local Abbreviation get_size := (clutter_actor_get_size CLUTTER_UNITS_TO_INT).
Local Abbreviation get_width := (clutter_actor_get_width CLUTTER_UNITS_TO_INT).
Local Abbreviation get_height := (clutter_actor_get_height CLUTTER_UNITS_TO_INT).
Local Abbreviation get_position := (clutter_actor_get_position CLUTTER_UNITS_TO_INT).

Local Abbreviation exact_pixels :=
  (exact_pixels CLUTTER_UNITS_TO_INT CLUTTER_UNITS_FROM_INT).

Lemma set_size_lookup (self : addr) (a : ClutterActor) (w : World) (width height : Z) :
  heap w !! self = Some a -> box_in_range (coords (priv a)) ->
  let stored := coords (priv a) in
  let box :=
    mkBox (x1 stored) (y1 stored)
          (if 0 <? width then add32 (x1 stored) (CLUTTER_UNITS_FROM_INT width)
           else x2 stored)
          (if 0 <? height then add32 (y1 stored) (CLUTTER_UNITS_FROM_INT height)
           else y2 stored) in
  heap (set_size self width height w) !! self = Some (with_priv (with_coords box) a)
  /\ effects (set_size self width height w)
     = effects w
       ++ notes (negb (box_width stored =? box_width box)) self "width"
       ++ notes (negb (box_height stored =? box_height box)) self "height".
Proof.
  intros Ha [Hx2 Hy2] stored box.
  unfold clutter_actor_set_size, clutter_actor_set_size_internal. rewrite Ha.
  unfold clutter_actor_query_coords. cbn [x1 y1 x2 y2]. fold stored. fold box.
  assert (Hbx : in_int32 (x2 box)).
  { subst box. cbn [x2]. destruct (0 <? width); [apply wrap32_range | exact Hx2]. }
  assert (Hby : in_int32 (y2 box)).
  { subst box. cbn [y2]. destruct (0 <? height); [apply wrap32_range | exact Hy2]. }
  destruct (request_coords_lookup self a box w Ha Hbx Hby Hx2 Hy2) as [Hlook _].
  split; [exact Hlook |].
  rewrite (request_coords_effects self a box w Ha). fold stored.
  change (x1 box) with (x1 stored). change (y1 box) with (y1 stored).
  by rewrite !Z.eqb_refl.
Qed.

(** X22: a size set in pixels is the size read back.  For a positive
    width that survives the passage through units,
    [clutter_actor_set_size] leaves the actor with that width, as
    [clutter_actor_get_width] and [clutter_actor_get_size] report it, and
    does not move it; a height that is zero or negative leaves the height
    alone, so one dimension can be set without the other, which is what
    [clutter_actor_set_width] does.  Only "width" and "height" are
    notified, and only when they changed. *)
Theorem size_round_trip (self : addr) (a : ClutterActor) (w : World) (width height : Z) :
  heap w !! self = Some a -> box_in_range (coords (priv a)) ->
  exact_pixels width ->
  let w' := set_size self width height w in
  exists a',
    heap w' !! self = Some a'
    /\ get_width a' = width /\ fst (get_size a') = width
    /\ get_position a' = get_position a
    /\ (height <= 0 -> get_height a' = get_height a)
    /\ (exact_pixels height -> get_size a' = (width, height))
    /\ clutter_actor_set_width CLUTTER_UNITS_FROM_INT self width w
       = set_size self width (-1) w
    /\ effects w'
       = effects w
         ++ notes (negb (box_width (coords (priv a)) =? box_width (coords (priv a'))))
                  self "width"
         ++ notes (negb (box_height (coords (priv a)) =? box_height (coords (priv a'))))
                  self "height".
Proof.
  intros Ha Hbox (Hwidth & Hrange & Hback) w'.
  destruct (set_size_lookup self a w width height Ha Hbox) as [Hlook Heff].
  fold w' in Hlook, Heff.
  eexists. split; [exact Hlook |].
  assert (Hpos : (0 <? width) = true) by (apply Z.ltb_lt; lia).
  assert (Hw : wrapu32 (CLUTTER_UNITS_TO_INT
                          (sub32 (add32 (x1 (coords (priv a)))
                                        (CLUTTER_UNITS_FROM_INT width))
                                 (x1 (coords (priv a))))) = width).
  { rewrite sub32_add32_same_l, wrap32_small by exact Hrange.
    rewrite Hback. apply wrapu32_small. lia. }
  split.
  { unfold clutter_actor_get_width, clutter_actor_query_coords.
    cbn [priv with_priv coords with_coords x1 x2]. by rewrite Hpos. }
  split.
  { unfold clutter_actor_get_size, clutter_actor_query_coords.
    cbn [priv with_priv coords with_coords x1 x2 y1 y2 fst]. by rewrite Hpos. }
  split; [reflexivity |].
  split.
  { intros Hneg. unfold clutter_actor_get_height, clutter_actor_query_coords.
    cbn [priv with_priv coords with_coords y1 y2].
    by rewrite (proj2 (Z.ltb_ge 0 height)) by lia. }
  split.
  { intros (Hheight & Hhrange & Hhback).
    unfold clutter_actor_get_size, clutter_actor_query_coords.
    cbn [priv with_priv coords with_coords x1 x2 y1 y2].
    rewrite Hpos, Hw. rewrite (proj2 (Z.ltb_lt 0 height)) by lia.
    rewrite sub32_add32_same_l, wrap32_small by exact Hhrange.
    rewrite Hhback, wrapu32_small by lia. reflexivity. }
  split.
  { unfold clutter_actor_set_width, clutter_actor_set_size. rewrite Ha.
    rewrite wrap32_small by (unfold in_int32; lia). reflexivity. }
  exact Heff.
Qed.

End SizeRoundTrip.

Lemma size_round_trip_witness :
  heap sample_world !! 3%positive = Some sample_leaf
  /\ box_in_range (coords (priv sample_leaf))
  /\ exact_pixels sample_UNITS_TO_INT sample_UNITS_FROM_INT 40
  /\ exists a',
       heap (clutter_actor_set_size sample_UNITS_FROM_INT 3%positive 40 0 sample_world)
         !! 3%positive = Some a'
       /\ clutter_actor_get_width sample_UNITS_TO_INT a' = 40.
Proof.
  assert (Hself : heap sample_world !! 3%positive = Some sample_leaf) by reflexivity.
  assert (Hbox : box_in_range (coords (priv sample_leaf))).
  { unfold box_in_range, in_int32. simpl. lia. }
  assert (Hexact : exact_pixels sample_UNITS_TO_INT sample_UNITS_FROM_INT 40).
  { split; [lia |]. split; [| reflexivity].
    unfold in_int32. vm_compute. split; [discriminate | reflexivity]. }
  split; [exact Hself |]. split; [exact Hbox |]. split; [exact Hexact |].
  destruct (size_round_trip sample_UNITS_TO_INT sample_UNITS_FROM_INT 3%positive
              sample_leaf sample_world 40 0 Hself Hbox Hexact) as (a' & Ha' & Hwidth & _).
  exists a'. split; [exact Ha' | exact Hwidth].
Defined.

(** ** Reactive actors *)

Lemma with_reactive_same (a : ClutterActor) :
  with_reactive (CLUTTER_ACTOR_IS_REACTIVE a) a = a.
Proof. by destruct a. Qed.

Lemma set_reactive_effect (actor : addr) (a : ClutterActor) (reactive : bool) (w : World) :
  heap w !! actor = Some a ->
  clutter_actor_set_reactive actor reactive w
  = if bool_decide (reactive = CLUTTER_ACTOR_IS_REACTIVE a) then w
    else store actor (with_reactive reactive a) w.
Proof.
  intros Ha. unfold clutter_actor_set_reactive. rewrite Ha.
  destruct (bool_decide (reactive = CLUTTER_ACTOR_IS_REACTIVE a)); [reflexivity |].
  by destruct reactive.
Qed.

(** X23: [clutter_actor_set_reactive] decides whether the actor can be
    picked.  Afterwards [clutter_actor_get_reactive] returns the value
    set, and the actor draws its silhouette in pick mode exactly when it
    is mapped and either everything is picked or the value is true.
    Setting the value it already has changes nothing at all; otherwise
    only this flag of this actor changes.  No signal is emitted and no
    repaint is scheduled. *)
Theorem set_reactive_controls_picking (actor : addr) (a : ClutterActor) (reactive : bool)
    (w : World) :
  heap w !! actor = Some a ->
  let w' := clutter_actor_set_reactive actor reactive w in
  exists a',
    heap w' !! actor = Some a'
    /\ clutter_actor_get_reactive a' = reactive
    /\ a' = with_reactive reactive a
    /\ (forall ctx,
          clutter_actor_should_pick_paint ctx a'
          = CLUTTER_ACTOR_IS_MAPPED a
            && (bool_decide (pick_mode ctx = CLUTTER_PICK_ALL) || reactive))
    /\ (reactive = clutter_actor_get_reactive a -> w' = w)
    /\ (forall other, other <> actor -> heap w' !! other = heap w !! other)
    /\ effects w' = effects w /\ context w' = context w
    /\ main_loop w' = main_loop w /\ cogl w' = cogl w.
Proof.
  intros Ha w'. subst w'. rewrite (set_reactive_effect actor a reactive w Ha).
  exists (with_reactive reactive a).
  destruct (bool_decide (reactive = CLUTTER_ACTOR_IS_REACTIVE a)) eqn:Hsame.
  - apply bool_decide_eq_true in Hsame. rewrite Hsame, with_reactive_same.
    rewrite Ha. by repeat split.
  - apply bool_decide_eq_false in Hsame.
    split; [apply lookup_store |]. split; [reflexivity |]. split; [reflexivity |].
    split; [reflexivity |].
    split; [intros Heq; by destruct Hsame |].
    split; [intros other Hother; by apply lookup_store_ne |].
    by repeat split.
Qed.

Lemma set_reactive_controls_picking_witness :
  heap sample_world !! 3%positive = Some sample_leaf
  /\ exists a',
       heap (clutter_actor_set_reactive 3%positive true sample_world) !! 3%positive
       = Some a'
       /\ clutter_actor_get_reactive a' = true.
Proof.
  assert (Hself : heap sample_world !! 3%positive = Some sample_leaf) by reflexivity.
  split; [exact Hself |].
  destruct (set_reactive_controls_picking 3%positive sample_leaf true sample_world Hself)
    as (a' & Ha' & Hget & _).
  exists a'. split; [exact Ha' | exact Hget].
Defined.

(** ** Opacity set and read back *)

Lemma wrapu8_small (v : Z) : 0 <= v <= 255 -> wrapu8 v = v.
Proof. intros Hv. unfold wrapu8. apply Z.mod_small. lia. Qed.

Lemma set_opacity_effect (self : addr) (a : ClutterActor) (o : Z) (w : World) :
  heap w !! self = Some a ->
  let w' := clutter_actor_set_opacity self o w in
  let redrawn := if CLUTTER_ACTOR_IS_VISIBLE a then clutter_actor_queue_redraw self w
                 else w in
  heap w' = <[self := with_priv (with_opacity (wrapu8 o)) a]> (heap w)
  /\ effects w' = effects w
  /\ context w' = context redrawn /\ main_loop w' = main_loop redrawn
  /\ cogl w' = cogl w.
Proof.
  intros Ha w' redrawn. subst w' redrawn. unfold clutter_actor_set_opacity.
  cbv zeta. rewrite Ha.
  change (CLUTTER_ACTOR_IS_VISIBLE (with_priv (with_opacity (wrapu8 o)) a))
    with (CLUTTER_ACTOR_IS_VISIBLE a).
  destruct (CLUTTER_ACTOR_IS_VISIBLE a); [| by repeat split].
  rewrite heap_queue_redraw, effects_queue_redraw, cogl_queue_redraw.
  destruct (context_queue_redraw_frame self
              (store self (with_priv (with_opacity (wrapu8 o)) a) w) w eq_refl eq_refl)
    as [-> ->].
  by repeat split.
Qed.

(** X24: the opacity read back is the effective one, not the one set.
    [clutter_actor_set_opacity] stores the value, notifies nothing and
    schedules a repaint exactly when the actor is visible.  For an actor
    without parent [clutter_actor_get_opacity] then returns the value set;
    under a parent it returns the parent's effective opacity times the
    value over 255, which is the value itself under an opaque parent and
    is never above it. *)
Theorem opacity_read_back_is_effective (self : addr) (a : ClutterActor) (o : Z)
    (w : World) :
  heap w !! self = Some a ->
  map_Forall (fun _ b => opacity_in_range b) (heap w) ->
  0 <= o <= 255 ->
  let w' := clutter_actor_set_opacity self o w in
  let redrawn := if CLUTTER_ACTOR_IS_VISIBLE a then clutter_actor_queue_redraw self w
                 else w in
  heap w' = <[self := with_priv (with_opacity o) a]> (heap w)
  /\ effects w' = effects w
  /\ context w' = context redrawn /\ main_loop w' = main_loop redrawn
  /\ (parent_actor (priv a) = None ->
      forall fuel, clutter_actor_get_opacity (S fuel) (heap w') self = Some o)
  /\ (forall parent po fuel,
        parent_actor (priv a) = Some parent ->
        clutter_actor_get_opacity fuel (heap w') parent = Some po ->
        clutter_actor_get_opacity (S fuel) (heap w') self = Some (po * o / 255)
        /\ po * o / 255 <= o
        /\ (po = 255 -> po * o / 255 = o)).
Proof.
  intros Ha Hall Ho w' redrawn.
  destruct (set_opacity_effect self a o w Ha) as (Hheap & Heff & Hctx & Hloop & _).
  fold w' in Hheap, Heff, Hctx, Hloop. fold redrawn in Hctx, Hloop.
  rewrite (wrapu8_small o) in Hheap by lia.
  split; [exact Hheap |]. split; [exact Heff |].
  split; [exact Hctx |]. split; [exact Hloop |].
  assert (Hall' : map_Forall (fun _ b => opacity_in_range b) (heap w')).
  { rewrite Hheap. apply map_Forall_insert_2; [exact Ho | exact Hall]. }
  assert (Hself : heap w' !! self = Some (with_priv (with_opacity o) a)).
  { rewrite Hheap. apply lookup_insert_eq. }
  split.
  - intros Hroot fuel. cbn [clutter_actor_get_opacity]. rewrite Hself.
    cbn [mbind option_bind priv with_priv parent_actor with_opacity opacity].
    by rewrite Hroot.
  - intros parent po fuel Hparent Hpo.
    pose proof (get_opacity_in_range (heap w') fuel Hall' parent po Hpo) as Hrange.
    pose proof (opacity_step_bounds po o Hrange Ho) as (_ & _ & Hle).
    split; [| split; [exact Hle |]].
    + cbn [clutter_actor_get_opacity]. rewrite Hself.
      cbn [mbind option_bind priv with_priv parent_actor with_opacity opacity].
      rewrite Hparent, Hpo. cbn [mbind option_bind].
      destruct (po =? 255) eqn:Hfull; cbn [negb].
      * apply Z.eqb_eq in Hfull. subst po. by rewrite Z.mul_comm, Z.div_mul.
      * by rewrite opacity_step_machine.
    + intros ->. by rewrite Z.mul_comm, Z.div_mul.
Qed.

Lemma opacity_read_back_is_effective_witness :
  heap sample_world !! 3%positive = Some sample_leaf
  /\ map_Forall (fun _ b => opacity_in_range b) (heap sample_world)
  /\ 0 <= 200 <= 255
  /\ clutter_actor_get_opacity 3
       (heap (clutter_actor_set_opacity 3%positive 200 sample_world)) 3%positive
     = Some (128 * 200 / 255).
Proof.
  assert (Hself : heap sample_world !! 3%positive = Some sample_leaf) by reflexivity.
  assert (Hall : map_Forall (fun _ b => opacity_in_range b) (heap sample_world)).
  { unfold sample_world, sample_heap. cbn [heap].
    repeat (apply map_Forall_insert_2; [unfold opacity_in_range; simpl; lia |]).
    apply map_Forall_empty. }
  assert (Ho : 0 <= 200 <= 255) by lia.
  split; [exact Hself |]. split; [exact Hall |]. split; [exact Ho |].
  destruct (opacity_read_back_is_effective 3%positive sample_leaf 200 sample_world
              Hself Hall Ho) as (_ & _ & _ & _ & _ & Hchild).
  assert (Hparent : clutter_actor_get_opacity 2
                      (heap (clutter_actor_set_opacity 3%positive 200 sample_world))
                      2%positive = Some 128) by (vm_compute; reflexivity).
  destruct (Hchild 2%positive 128 2%nat eq_refl Hparent) as [Hget _].
  exact Hget.
Defined.

(** ** Depth *)

(** X25: a new depth is stored, read back by [clutter_actor_get_depth],
    and nothing else of the actor changes.  The parent is asked to re-sort
    its children when it is a container, before the "depth" notification,
    and an actor without parent or under a parent that is no container
    causes no sort.  A repaint is scheduled exactly when the actor is
    visible, and the composer then lifts the actor by the new depth, when
    it is not zero, as its last step before the clip. *)
Theorem depth_round_trip (CLUTTER_IS_CONTAINER : addr -> bool) (self : addr)
    (a : ClutterActor) (depth : Z) (w : World) :
  heap w !! self = Some a -> depth <> z (priv a) ->
  let w' := clutter_actor_set_depth CLUTTER_IS_CONTAINER self depth w in
  let redrawn := if CLUTTER_ACTOR_IS_VISIBLE a then clutter_actor_queue_redraw self w
                 else w in
  exists a',
    heap w' !! self = Some a'
    /\ clutter_actor_get_depth a' = depth
    /\ a' = with_priv (with_z depth) a
    /\ (forall other, other <> self -> heap w' !! other = heap w !! other)
    /\ effects w'
       = effects w ++ depth_sort CLUTTER_IS_CONTAINER a ++ [g_object_notify self "depth"]
    /\ context w' = context redrawn /\ main_loop w' = main_loop redrawn
    /\ (forall CFX_ONE CLUTTER_UNITS_TO_INT, exists before,
          composer_sequence CFX_ONE CLUTTER_UNITS_TO_INT a'
          = before ++ opt (nonzero depth) [cogl_translate 0 0 depth]
                   ++ opt (has_clip (priv a)) [cogl_clip_set (clip (priv a))]).
Proof.
  intros Ha Hnew w' redrawn. subst w' redrawn.
  unfold clutter_actor_set_depth. rewrite Ha.
  rewrite (proj2 (Z.eqb_neq (z (priv a)) depth)) by (intros Heq; by apply Hnew).
  cbn [negb]. cbv zeta.
  change (parent_actor (priv (with_priv (with_z depth) a))) with (parent_actor (priv a)).
  change (CLUTTER_ACTOR_IS_VISIBLE (with_priv (with_z depth) a))
    with (CLUTTER_ACTOR_IS_VISIBLE a).
  set (stored := store self (with_priv (with_z depth) a) w).
  set (sorted := match parent_actor (priv a) with
                 | Some parent =>
                     if CLUTTER_IS_CONTAINER parent
                     then emit (clutter_container_sort_depth_order parent) stored
                     else stored
                 | None => stored
                 end).
  assert (Hsorted : heap sorted = heap stored
                    /\ effects sorted = effects w ++ depth_sort CLUTTER_IS_CONTAINER a
                    /\ context sorted = context w /\ main_loop sorted = main_loop w).
  { subst sorted. unfold depth_sort.
    destruct (parent_actor (priv a)) as [parent |];
      [destruct (CLUTTER_IS_CONTAINER parent) |];
      repeat split; try reflexivity; simpl; by rewrite app_nil_r. }
  destruct Hsorted as (Hheap & Heff & Hctx & Hloop).
  exists (with_priv (with_z depth) a).
  rewrite heap_emit, heap_if_queue_redraw, Hheap.
  split; [apply lookup_store |]. split; [reflexivity |]. split; [reflexivity |].
  split; [intros other Hother; by apply lookup_store_ne |].
  split.
  { destruct (CLUTTER_ACTOR_IS_VISIBLE a); unfold emit; cbn [effects];
      rewrite ?effects_queue_redraw, Heff; by rewrite <- app_assoc. }
  split; [| split].
  - destruct (CLUTTER_ACTOR_IS_VISIBLE a); unfold emit; cbn [context]; [| exact Hctx].
    by destruct (context_queue_redraw_frame self sorted w Hctx Hloop).
  - destruct (CLUTTER_ACTOR_IS_VISIBLE a); unfold emit; cbn [main_loop]; [| exact Hloop].
    by destruct (context_queue_redraw_frame self sorted w Hctx Hloop).
  - intros CFX_ONE CLUTTER_UNITS_TO_INT.
    unfold composer_sequence, composer_sequence_with. cbv zeta.
    cbn [priv with_priv with_z z has_clip clip].
    eexists. rewrite !app_assoc. reflexivity.
Qed.

Lemma depth_round_trip_witness :
  heap sample_world !! 3%positive = Some sample_leaf
  /\ 9 <> z (priv sample_leaf)
  /\ exists a',
       heap (clutter_actor_set_depth (fun _ => true) 3%positive 9 sample_world)
         !! 3%positive = Some a'
       /\ clutter_actor_get_depth a' = 9.
Proof.
  assert (Hself : heap sample_world !! 3%positive = Some sample_leaf) by reflexivity.
  assert (Hnew : 9 <> z (priv sample_leaf)) by (simpl; lia).
  split; [exact Hself |]. split; [exact Hnew |].
  destruct (depth_round_trip (fun _ => true) 3%positive sample_leaf 9 sample_world
              Hself Hnew) as (a' & Ha' & Hget & _).
  exists a'. split; [exact Ha' | exact Hget].
Defined.

(** ** Points and vertices *)

Section PointsAndVertices.

Variable CFX_ONE : Z.
Variable CLUTTER_UNITS_TO_INT : Z -> Z.
Variable CFX_QMUL : Z -> Z -> Z.
Variable CFX_MUL : Z -> Z -> Z.
Variable CFX_DIV : Z -> Z -> Z.
Variable cogl_get_modelview_matrix : Cogl -> list Z.
Variable cogl_get_projection_matrix : Cogl -> list Z.
Variable cogl_get_viewport : Cogl -> list Z.

Local Abbreviation compose_chain := (compose_chain CFX_ONE CLUTTER_UNITS_TO_INT).

(** X26: [clutter_actor_apply_transform_to_point] takes a point of an
    actor through the accumulated modelview matrix, the projection matrix
    and the device rescale.  Along a chain of parents that ends, it
    returns the projected point and its place on the device whenever the
    projected fourth coordinate of the point is not zero, and does not
    come back when it is zero.  The two ways to take a corner of the box
    to the screen agree: whenever [clutter_actor_get_vertices] returns,
    the vertex written for the corner of index [i] of (0,0), (w,0), (0,h),
    (w,h) is entry [i] of its result, after the same backend calls.  (The
    point needs its own fourth coordinate alone to be non-zero, the
    vertices those of all four corners.) *)
Theorem transformed_corner_is_vertex fuel h self chain a gl (x y z : Z) :
  lineage h self chain -> h !! self = Some a -> (length chain <= fuel)%nat ->
  let gl_m := compose_chain chain (gl ++ [cogl_push_matrix]) in
  let gl' := gl_m ++ [cogl_pop_matrix] in
  let p := to_clip CFX_QMUL (cogl_get_modelview_matrix gl_m)
             (cogl_get_projection_matrix gl') (x, y, z, CFX_ONE) in
  let returned :=
    clutter_actor_apply_transform_to_point CFX_ONE CLUTTER_UNITS_TO_INT CFX_QMUL CFX_MUL
      CFX_DIV cogl_get_modelview_matrix cogl_get_projection_matrix cogl_get_viewport
      fuel h self (mkVertex x y z) gl in
  (clip_w p <> 0 ->
   returned
   = Some (clip_xyz p, to_device CFX_ONE CFX_MUL CFX_DIV (cogl_get_viewport gl') p, gl'))
  /\ (clip_w p = 0 -> returned = None)
  /\ (forall (i : nat) t verts vs gl'',
        length verts = 4%nat ->
        local_corners CFX_ONE a !! i = Some (x, y, z, t) ->
        clutter_actor_get_vertices CFX_ONE CLUTTER_UNITS_TO_INT CFX_QMUL CFX_MUL CFX_DIV
          cogl_get_modelview_matrix cogl_get_projection_matrix cogl_get_viewport
          fuel h self verts gl = Some (vs, gl'') ->
        returned = Some (clip_xyz p, vs !!! i, gl'')).
Proof.
  intros Hl Ha Hfuel gl_m gl' p returned.
  assert (Hreturned :
            returned
            = if clip_w p =? 0 then None
              else Some (clip_xyz p,
                         to_device CFX_ONE CFX_MUL CFX_DIV (cogl_get_viewport gl') p, gl')).
  { subst returned.
    by rewrite (apply_transform_along_lineage CFX_ONE CLUTTER_UNITS_TO_INT CFX_QMUL
                  CFX_MUL CFX_DIV cogl_get_modelview_matrix cogl_get_projection_matrix
                  cogl_get_viewport h self chain a fuel (mkVertex x y z) gl Hl Ha Hfuel). }
  rewrite Hreturned. split; [| split].
  - intros Hw. by rewrite (proj2 (Z.eqb_neq _ _) Hw).
  - intros Hw. by rewrite (proj2 (Z.eqb_eq _ _) Hw).
  - intros i t verts vs gl'' Hv Hi Hfound.
    destruct (get_vertices_found CFX_ONE CLUTTER_UNITS_TO_INT CFX_QMUL CFX_MUL CFX_DIV
                cogl_get_modelview_matrix cogl_get_projection_matrix cogl_get_viewport
                h self chain a fuel verts gl vs gl'' Hl Ha Hfuel Hv Hfound)
      as (-> & -> & Hall).
    fold gl_m in Hall |- *. fold gl' in Hall |- *.
    unfold clip_corners, local_corners in Hall |- *. cbn [map] in Hall |- *.
    rewrite !Forall_cons in Hall. destruct Hall as (H0 & H1 & H2 & H3 & _).
    subst p. unfold local_corners in Hi.
    destruct i as [| [| [| [| i]]]]; cbn [lookup list_lookup] in Hi;
      [injection Hi as <- <- <- <- .. | discriminate].
    + by rewrite (proj2 (Z.eqb_neq _ _) H0).
    + by rewrite (proj2 (Z.eqb_neq _ _) H1).
    + by rewrite (proj2 (Z.eqb_neq _ _) H2).
    + by rewrite (proj2 (Z.eqb_neq _ _) H3).
Qed.

End PointsAndVertices.

Lemma transformed_corner_is_vertex_witness :
  lineage sample_pixel_heap 1%positive [sample_pixel]
  /\ sample_pixel_heap !! 1%positive = Some sample_pixel
  /\ clutter_actor_apply_transform_to_point sample_CFX_ONE sample_UNITS_TO_INT
       sample_CFX_QMUL sample_CFX_MUL sample_CFX_DIV sample_matrix sample_matrix
       sample_viewport 1 sample_pixel_heap 1%positive (mkVertex 65536 65536 0) []
     = Some (mkVertex 65536 65536 0, mkVertex 52428800 0 26214400,
             [cogl_push_matrix; cogl_pop_matrix]).
Proof.
  assert (Hself : sample_pixel_heap !! 1%positive = Some sample_pixel) by reflexivity.
  assert (Hl : lineage sample_pixel_heap 1%positive [sample_pixel])
    by (by apply lineage_root).
  assert (Hfuel : (length [sample_pixel] <= 1)%nat) by (simpl; lia).
  destruct (transformed_corner_is_vertex sample_CFX_ONE sample_UNITS_TO_INT
              sample_CFX_QMUL sample_CFX_MUL sample_CFX_DIV sample_matrix sample_matrix
              sample_viewport 1 sample_pixel_heap 1%positive [sample_pixel] sample_pixel []
              65536 65536 0 Hl Hself Hfuel) as (Hreturns & _ & _).
  assert (Hw : clip_w (to_clip sample_CFX_QMUL (sample_matrix [cogl_push_matrix])
                         (sample_matrix [cogl_push_matrix; cogl_pop_matrix])
                         (65536, 65536, 0, sample_CFX_ONE)) <> 0)
    by (vm_compute; discriminate).
  split; [exact Hl |]. split; [exact Hself |].
  rewrite (Hreturns Hw). vm_compute. reflexivity.
Defined.
